(** * RedGram: the client's synchronization controller and the relay's
    promo-code handler, embedded in Rocq.

    Sources embedded here:
    - [services/ChatSocket.ts]: the data model ([Message], [ChatPreview],
      [UserProfile]) and the realtime channel adapter [ChatSocket];
    - [App.tsx]: the handlers of the [App] component (inbound routing,
      read receipts, account switching, directory sync, peer join, send);
    - [server.js]: the relay's [REDEEM_PROMO] handler over its SQLite tables.

    Conventions.  A JS string is a [string] whose [String.length] counts its
    code units; a JS number that holds a count or a clock value is a [Z]; an
    optional property [p?: T] is an [option T] ([None] is "absent"); a
    [Record<string, T>] used as a dictionary is a [gmap string T].  React
    state is passed explicitly: a handler takes the state of the render it
    runs in and returns the next state, together with what it hands to the
    outside world (socket emissions, a pending timer).  The state a handler
    closes over and the [prev] its updaters receive are that same state, and
    the clock ([Date.now()]) is read once per run and passed in as [now]. *)

From Stdlib Require Import ZArith Ascii String.
From stdpp Require Import gmap strings list fin_maps pretty countable.

Open Scope Z_scope.
Open Scope string_scope.
Open Scope list_scope.

(** ** Data model ([services/ChatSocket.ts]) *)

Inductive Sender := me | them.
Inductive Status := sent | delivered | read.
Inductive MediaType := text_t | voice | image | file.
Inductive Visibility := everybody | nobody.

#[global] Instance Sender_eq_dec : EqDecision Sender.
Proof. solve_decision. Defined.
#[global] Instance Status_eq_dec : EqDecision Status.
Proof. solve_decision. Defined.
#[global] Instance MediaType_eq_dec : EqDecision MediaType.
Proof. solve_decision. Defined.
#[global] Instance Visibility_eq_dec : EqDecision Visibility.
Proof. solve_decision. Defined.

Record Message := {
  m_id : string;
  m_chatId : string;
  m_text : string;
  m_sender : Sender;
  m_senderId : option string;
  m_timestamp : Z;
  m_status : Status;
  m_type : option MediaType;
  m_mediaUrl : option string;
  m_fileName : option string;
  m_fileSize : option string;
  m_duration : option Z;
}.

Record ChatPreview := {
  c_id : string;
  c_name : string;
  c_avatar : option string;
  c_color : string;
  c_lastMessage : string;
  c_timestamp : Z;
  c_unreadCount : Z;
  c_isOnline : bool;
  c_isBot : option bool;
  c_isGroup : option bool;
  c_username : option string;
  c_bio : option string;
  c_phone : option string;
  c_muted : option bool;
  c_isAdmin : option bool;
  c_membersCount : option Z;
  c_sender : option Sender;
  c_memberIds : option (list string);
}.

Record Privacy := {
  profilePhoto : Visibility;
  phoneNumber : option Visibility;
  lastSeen : option Visibility;
  stories : option Visibility;
}.

Record UserProfile := {
  u_id : string;
  u_name : string;
  u_username : string;
  u_phone : string;
  u_bio : string;
  u_avatarColor : string;
  u_isPremium : option bool;
  u_isAdmin : option bool;
  u_privacy : option Privacy;
}.

#[global] Instance Message_eq_dec : EqDecision Message.
Proof. solve_decision. Defined.
#[global] Instance ChatPreview_eq_dec : EqDecision ChatPreview.
Proof. solve_decision. Defined.
#[global] Instance Privacy_eq_dec : EqDecision Privacy.
Proof. solve_decision. Defined.
#[global] Instance UserProfile_eq_dec : EqDecision UserProfile.
Proof. solve_decision. Defined.

(** The attachment argument of [sendMessage] / [handleSendMessage]. *)
Record Attachment := {
  a_type : MediaType;
  a_mediaUrl : string;
  a_fileName : option string;
  a_fileSize : option string;
  a_duration : option Z;
}.

(** ** JavaScript idioms *)

(** Truthiness of an optional boolean property ([chat.isBot], [chat.isGroup]). *)
Definition truthy (b : option bool) : bool :=
  match b with Some true => true | _ => false end.

(** Truthiness of an optional string ([activeChatId], [msg.senderId]): absent
    and the empty string are both falsy. *)
Definition truthy_str (s : option string) : bool :=
  match s with
  | Some s' => if decide (s' = "") then false else true
  | None => false
  end.

(** [a || d] on an optional string. *)
Definition or_else (a : option string) (d : string) : string :=
  match a with
  | Some s => if decide (s = "") then d else s
  | None => d
  end.

(** [Date.now().toString()]. *)
Definition toString (n : Z) : string := pretty n.

(** [arr.find(p)]; [arr.findIndex(p)] is [list_find], which returns the
    index together with the element ([None] for [-1]). *)
Definition find {A} (p : A → bool) (l : list A) : option A :=
  snd <$> list_find (λ x, p x = true) l.

(** [ids.includes(x)]. *)
Definition includes (ids : list string) (x : string) : bool :=
  bool_decide (x ∈ ids).

(** [dict[k] || []]. *)
Definition get_or_nil {A} (d : gmap string (list A)) (k : string) : list A :=
  default [] (d !! k).

(** ** The realtime channel adapter ([services/ChatSocket.ts]) *)

(** What leaves the client on the wire ([socket.emit]). *)
Inductive Emission :=
| REGISTER (profile : UserProfile)
| PRESENCE (userId : string)
| SEND_MESSAGE (message : Message) (wireChatId : option string)
               (wireSenderId : option string) (isGroup : option bool)
| REDEEM_PROMO (userId code : string)
| ADMIN_GET_ALL_DATA (userId : string)
| MESSAGE_READ (chatId : string) (messageIds : list string)
               (readerId : option string).

(** What the adapter hands to its subscribers ([notify]). *)
Inductive Notification :=
| N_STATUS_CONNECTED
| N_USER_SYNC (users : list UserProfile)
| N_USER_JOINED (profile : UserProfile)
| N_NEW_MESSAGE (message : Message)
| N_MESSAGE_READ (chatId : string) (messageIds : list string) (readerId : string)
| N_USER_UPDATED (profile : UserProfile)
| N_ADMIN_DATA (msgs : list Message).

(** The fields of a [ChatSocket] its methods read: [connected] is
    [this.socket && this.socket.connected]. *)
Record ChatSocket := {
  connected : bool;
  myUserId : option string;
  myProfile : option UserProfile;
}.

Module Socket.

Definition fresh : ChatSocket :=
  {| connected := false; myUserId := None; myProfile := None |}.

Definition registerUser (s : ChatSocket) (profile : UserProfile)
  : ChatSocket * list Emission :=
  ({| connected := connected s;
      myUserId := Some (u_id profile);
      myProfile := Some profile |},
   if connected s then [REGISTER profile] else []).

Definition announcePresence (s : ChatSocket) : list Emission :=
  match myUserId s with
  | Some uid =>
      if connected s && negb (bool_decide (uid = "")) then [PRESENCE uid] else []
  | None => []
  end.

Definition sendMessage (s : ChatSocket) (now : Z) (chatId text : string)
    (toUserId : option string) (isGroup : option bool)
    (attachment : option Attachment) : list Emission :=
  let msg :=
    {| m_id := toString now;
       m_chatId := chatId;
       m_text := text;
       m_sender := me;
       m_senderId := Some (or_else (myUserId s) "me");
       m_timestamp := now;
       m_status := sent;
       m_type := a_type <$> attachment;
       m_mediaUrl := a_mediaUrl <$> attachment;
       m_fileName := attachment ≫= a_fileName;
       m_fileSize := attachment ≫= a_fileSize;
       m_duration := attachment ≫= a_duration |} in
  if connected s
  then [SEND_MESSAGE msg (if truthy isGroup then Some chatId else toUserId)
          (myUserId s) isGroup]
  else [].

Definition redeemPromo (s : ChatSocket) (userId code : string) : list Emission :=
  if connected s then [REDEEM_PROMO userId code] else [].

Definition getAdminData (s : ChatSocket) (userId : string) : list Emission :=
  if connected s then [ADMIN_GET_ALL_DATA userId] else [].

Definition sendReadReceipt (s : ChatSocket) (chatId : string)
    (messageIds : list string) : list Emission :=
  if connected s then [MESSAGE_READ chatId messageIds (myUserId s)] else [].

End Socket.

(** ** The state of the [App] component ([App.tsx]) *)

Record AppState := {
  accounts : list UserProfile;
  userProfile : UserProfile;
  showRegistration : bool;
  chats : list ChatPreview;
  messages : gmap string (list Message);
  activeChatId : option string;
  viewingProfileId : option string;
  typingMap : gmap string bool;
  adminMessages : list Message;
  isLoadingAdmin : bool;
  socketRef : option ChatSocket;
  userDirectoryRef : gmap string UserProfile;
  localStorage : gmap string string;
}.

Definition setChats (f : list ChatPreview → list ChatPreview) (st : AppState) : AppState :=
  {| accounts := accounts st; userProfile := userProfile st;
     showRegistration := showRegistration st; chats := f (chats st);
     messages := messages st; activeChatId := activeChatId st;
     viewingProfileId := viewingProfileId st; typingMap := typingMap st;
     adminMessages := adminMessages st; isLoadingAdmin := isLoadingAdmin st;
     socketRef := socketRef st; userDirectoryRef := userDirectoryRef st;
     localStorage := localStorage st |}.

Definition setMessages (f : gmap string (list Message) → gmap string (list Message))
    (st : AppState) : AppState :=
  {| accounts := accounts st; userProfile := userProfile st;
     showRegistration := showRegistration st; chats := chats st;
     messages := f (messages st); activeChatId := activeChatId st;
     viewingProfileId := viewingProfileId st; typingMap := typingMap st;
     adminMessages := adminMessages st; isLoadingAdmin := isLoadingAdmin st;
     socketRef := socketRef st; userDirectoryRef := userDirectoryRef st;
     localStorage := localStorage st |}.

Definition setActiveChatId (a : option string) (st : AppState) : AppState :=
  {| accounts := accounts st; userProfile := userProfile st;
     showRegistration := showRegistration st; chats := chats st;
     messages := messages st; activeChatId := a;
     viewingProfileId := viewingProfileId st; typingMap := typingMap st;
     adminMessages := adminMessages st; isLoadingAdmin := isLoadingAdmin st;
     socketRef := socketRef st; userDirectoryRef := userDirectoryRef st;
     localStorage := localStorage st |}.

Definition setViewingProfileId (a : option string) (st : AppState) : AppState :=
  {| accounts := accounts st; userProfile := userProfile st;
     showRegistration := showRegistration st; chats := chats st;
     messages := messages st; activeChatId := activeChatId st;
     viewingProfileId := a; typingMap := typingMap st;
     adminMessages := adminMessages st; isLoadingAdmin := isLoadingAdmin st;
     socketRef := socketRef st; userDirectoryRef := userDirectoryRef st;
     localStorage := localStorage st |}.

Definition setUserProfile (f : UserProfile → UserProfile) (st : AppState) : AppState :=
  {| accounts := accounts st; userProfile := f (userProfile st);
     showRegistration := showRegistration st; chats := chats st;
     messages := messages st; activeChatId := activeChatId st;
     viewingProfileId := viewingProfileId st; typingMap := typingMap st;
     adminMessages := adminMessages st; isLoadingAdmin := isLoadingAdmin st;
     socketRef := socketRef st; userDirectoryRef := userDirectoryRef st;
     localStorage := localStorage st |}.

Definition setAccounts (f : list UserProfile → list UserProfile) (st : AppState) : AppState :=
  {| accounts := f (accounts st); userProfile := userProfile st;
     showRegistration := showRegistration st; chats := chats st;
     messages := messages st; activeChatId := activeChatId st;
     viewingProfileId := viewingProfileId st; typingMap := typingMap st;
     adminMessages := adminMessages st; isLoadingAdmin := isLoadingAdmin st;
     socketRef := socketRef st; userDirectoryRef := userDirectoryRef st;
     localStorage := localStorage st |}.

Definition setTypingMap (f : gmap string bool → gmap string bool) (st : AppState) : AppState :=
  {| accounts := accounts st; userProfile := userProfile st;
     showRegistration := showRegistration st; chats := chats st;
     messages := messages st; activeChatId := activeChatId st;
     viewingProfileId := viewingProfileId st; typingMap := f (typingMap st);
     adminMessages := adminMessages st; isLoadingAdmin := isLoadingAdmin st;
     socketRef := socketRef st; userDirectoryRef := userDirectoryRef st;
     localStorage := localStorage st |}.

Definition setAdmin (ms : list Message) (loading : bool) (st : AppState) : AppState :=
  {| accounts := accounts st; userProfile := userProfile st;
     showRegistration := showRegistration st; chats := chats st;
     messages := messages st; activeChatId := activeChatId st;
     viewingProfileId := viewingProfileId st; typingMap := typingMap st;
     adminMessages := ms; isLoadingAdmin := loading;
     socketRef := socketRef st; userDirectoryRef := userDirectoryRef st;
     localStorage := localStorage st |}.

Definition setDirectory (f : gmap string UserProfile → gmap string UserProfile)
    (st : AppState) : AppState :=
  {| accounts := accounts st; userProfile := userProfile st;
     showRegistration := showRegistration st; chats := chats st;
     messages := messages st; activeChatId := activeChatId st;
     viewingProfileId := viewingProfileId st; typingMap := typingMap st;
     adminMessages := adminMessages st; isLoadingAdmin := isLoadingAdmin st;
     socketRef := socketRef st; userDirectoryRef := f (userDirectoryRef st);
     localStorage := localStorage st |}.

Definition setLocalStorage (f : gmap string string → gmap string string)
    (st : AppState) : AppState :=
  {| accounts := accounts st; userProfile := userProfile st;
     showRegistration := showRegistration st; chats := chats st;
     messages := messages st; activeChatId := activeChatId st;
     viewingProfileId := viewingProfileId st; typingMap := typingMap st;
     adminMessages := adminMessages st; isLoadingAdmin := isLoadingAdmin st;
     socketRef := socketRef st; userDirectoryRef := userDirectoryRef st;
     localStorage := f (localStorage st) |}.

(** ** What the component takes from its environment

    [bootTime] is the [Date.now()] evaluated once when the module that holds
    [INITIAL_CHATS] is loaded; [contactJoined] is the translation
    [t.contactJoined]; [generateResponse] is [AIService.generateResponse] (it
    catches its own failures and always resolves to a string);
    [JSON_stringify] and [JSON_parse] are the browser's, at the type of a
    chat list ([None] stands for a thrown [SyntaxError]). *)
Class Platform := {
  bootTime : Z;
  contactJoined : string;
  generateResponse : list Message → string → string → string → string;
  JSON_stringify : list ChatPreview → string;
  JSON_parse : string → option (list ChatPreview);
}.

(** ** Constants of [App.tsx] *)

Definition CHATS_PREFIX : string := "redgram_chats_".

(** Object-spread updates of a chat preview, one per shape the handlers use. *)

(** [{ ...c, unreadCount: n }] *)
Definition withUnread (n : Z) (c : ChatPreview) : ChatPreview :=
  {| c_id := c_id c; c_name := c_name c; c_avatar := c_avatar c;
     c_color := c_color c; c_lastMessage := c_lastMessage c;
     c_timestamp := c_timestamp c; c_unreadCount := n;
     c_isOnline := c_isOnline c; c_isBot := c_isBot c;
     c_isGroup := c_isGroup c; c_username := c_username c; c_bio := c_bio c;
     c_phone := c_phone c; c_muted := c_muted c; c_isAdmin := c_isAdmin c;
     c_membersCount := c_membersCount c; c_sender := c_sender c;
     c_memberIds := c_memberIds c |}.

(** [{ ...c, lastMessage, timestamp, sender }] *)
Definition withLast (lastMessage : string) (timestamp : Z) (sender : Sender)
    (c : ChatPreview) : ChatPreview :=
  {| c_id := c_id c; c_name := c_name c; c_avatar := c_avatar c;
     c_color := c_color c; c_lastMessage := lastMessage;
     c_timestamp := timestamp; c_unreadCount := c_unreadCount c;
     c_isOnline := c_isOnline c; c_isBot := c_isBot c;
     c_isGroup := c_isGroup c; c_username := c_username c; c_bio := c_bio c;
     c_phone := c_phone c; c_muted := c_muted c; c_isAdmin := c_isAdmin c;
     c_membersCount := c_membersCount c; c_sender := Some sender;
     c_memberIds := c_memberIds c |}.

(** The contact synthesized by [handleUserSync] and [handleNewUserJoined]. *)
Definition newContact (u : UserProfile) (now : Z) : ChatPreview :=
  {| c_id := u_username u; c_name := u_name u; c_avatar := None;
     c_color := u_avatarColor u; c_lastMessage := ""; c_timestamp := now;
     c_unreadCount := 0; c_isOnline := true; c_isBot := Some false;
     c_isGroup := None; c_username := Some (u_username u);
     c_bio := Some (u_bio u); c_phone := Some (u_phone u); c_muted := None;
     c_isAdmin := None; c_membersCount := None; c_sender := None;
     c_memberIds := None |}.

(** [{ ...m, status: 'read' }] *)
Definition markRead (m : Message) : Message :=
  {| m_id := m_id m; m_chatId := m_chatId m; m_text := m_text m;
     m_sender := m_sender m; m_senderId := m_senderId m;
     m_timestamp := m_timestamp m; m_status := read; m_type := m_type m;
     m_mediaUrl := m_mediaUrl m; m_fileName := m_fileName m;
     m_fileSize := m_fileSize m; m_duration := m_duration m |}.

(** A message with no attachment fields. *)
Definition plainMessage (id chatId text : string) (sender : Sender)
    (senderId : option string) (timestamp : Z) (status : Status) : Message :=
  {| m_id := id; m_chatId := chatId; m_text := text; m_sender := sender;
     m_senderId := senderId; m_timestamp := timestamp; m_status := status;
     m_type := None; m_mediaUrl := None; m_fileName := None;
     m_fileSize := None; m_duration := None |}.

Section Controller.
Context `{!Platform}.

Definition INITIAL_CHATS : list ChatPreview :=
  [ {| c_id := "1"; c_name := "Saved Messages"; c_avatar := None;
       c_color := "bg-sky-500 text-white"; c_lastMessage := "Cloud storage";
       c_timestamp := bootTime; c_unreadCount := 0; c_isOnline := true;
       c_isBot := None; c_isGroup := None;
       c_username := Some "saved_messages";
       c_bio := Some "Your personal cloud storage."; c_phone := None;
       c_muted := None; c_isAdmin := None; c_membersCount := None;
       c_sender := Some me; c_memberIds := None |};
    {| c_id := "2"; c_name := "Gemini AI"; c_avatar := None;
       c_color := "bg-gradient-to-br from-blue-500 to-purple-500 text-white";
       c_lastMessage := "I am ready to help."; c_timestamp := bootTime;
       c_unreadCount := 1; c_isOnline := true; c_isBot := Some true;
       c_isGroup := None; c_username := Some "gemini_bot";
       c_bio := Some "I am a large language model, trained by Google. Ask me anything!";
       c_phone := None; c_muted := None; c_isAdmin := None;
       c_membersCount := None; c_sender := Some them; c_memberIds := None |} ].

(** *** Persistence of the per-account chat list *)

Definition loadChatsForUser (ls : gmap string string) (userId : string)
  : list ChatPreview :=
  match ls !! (CHATS_PREFIX +:+ userId) with
  | Some saved =>
      if decide (saved = "") then INITIAL_CHATS
      else match JSON_parse saved with
           | Some l => l
           | None => INITIAL_CHATS
           end
  | None => INITIAL_CHATS
  end.

Definition saveChatsForUser (userId : string) (l : list ChatPreview)
    (ls : gmap string string) : gmap string string :=
  <[CHATS_PREFIX +:+ userId := JSON_stringify l]> ls.

(** [useEffect(..., [chats, userProfile.id])]: save the current chats under
    the current account's key. *)
Definition persistChatsEffect (st : AppState) : AppState :=
  if negb (bool_decide (u_id (userProfile st) = "")) && negb (showRegistration st)
  then setLocalStorage (saveChatsForUser (u_id (userProfile st)) (chats st)) st
  else st.

Definition handleSwitchAccount (st : AppState) (newProfile : UserProfile) : AppState :=
  let st1 := setViewingProfileId None (setActiveChatId None st) in
  let st2 := setLocalStorage
               (saveChatsForUser (u_id (userProfile st)) (chats st)) st1 in
  let newChats := loadChatsForUser (localStorage st2) (u_id newProfile) in
  setChats (λ _, newChats) (setUserProfile (λ _, newProfile) st2).

(** *** Inbound message routing *)

(** The [targetChatId] computed at the head of [handleIncomingMessage]. *)
Definition targetChatId (st : AppState) (msg : Message) : string :=
  if decide (m_chatId msg = u_username (userProfile st))
  then or_else (m_senderId msg) "unknown"
  else m_chatId msg.

Definition newChat (st : AppState) (target : string) (msg : Message)
  : ChatPreview :=
  let senderInfo := userDirectoryRef st !! target in
  {| c_id := target;
     c_name := match senderInfo with
               | Some info => u_name info
               | None => or_else (Some target) "Unknown"
               end;
     c_avatar := None;
     c_color := match senderInfo with
                | Some info => u_avatarColor info
                | None => "bg-gray-500"
                end;
     c_lastMessage := m_text msg; c_timestamp := m_timestamp msg;
     c_unreadCount := 1; c_isOnline := true; c_isBot := Some false;
     c_isGroup := None; c_username := Some target; c_bio := None;
     c_phone := None; c_muted := None; c_isAdmin := None;
     c_membersCount := None; c_sender := Some them; c_memberIds := None |}.

Definition handleIncomingMessage (st : AppState) (msg : Message) : AppState :=
  let target := targetChatId st msg in
  let st1 := setMessages
    (λ prev, <[target := get_or_nil prev target ++ [msg]]> prev) st in
  setChats (λ prev,
    match list_find (λ c, c_id c = target) prev with
    | None => newChat st target msg :: prev
    | Some (chatIndex, chat) =>
        let isActive := bool_decide (activeChatId st = Some target) in
        let updatedChat :=
          withUnread (if isActive then c_unreadCount chat
                      else c_unreadCount chat + 1)
            (withLast (m_text msg) (m_timestamp msg) (m_sender msg) chat) in
        updatedChat :: delete chatIndex prev
    end) st1.

(** *** Read receipts *)

Definition isMine (st : AppState) (m : Message) : bool :=
  bool_decide (m_senderId m = Some (u_username (userProfile st)))
  || bool_decide (m_sender m = me).

Definition isUnread (st : AppState) (m : Message) : bool :=
  negb (isMine st m) && negb (bool_decide (m_status m = read)).

Definition markIds (ids : list string) (l : list Message) : list Message :=
  (λ m, if includes ids (m_id m) then markRead m else m) <$> l.

(** [useEffect(..., [activeChatId, messages])]. *)
Definition readReceiptsEffect (st : AppState) : AppState * list Emission :=
  match activeChatId st, socketRef st with
  | Some active, Some sock =>
      if decide (active = "") then (st, [])
      else
        let chatMessages := get_or_nil (messages st) active in
        let unreadMessages := filter (λ m, isUnread st m = true) chatMessages in
        if bool_decide (0 < length unreadMessages)%nat then
          let idsToMark := m_id <$> unreadMessages in
          let st1 := setMessages
            (λ prev, <[active := markIds idsToMark (get_or_nil prev active)]> prev) st in
          let out := Socket.sendReadReceipt sock active idsToMark in
          let st2 := setChats
            (λ prev, (λ c, if decide (c_id c = active) then withUnread 0 c else c)
                     <$> prev) st1 in
          (st2, out)
        else (st, [])
  | _, _ => (st, [])
  end.

Definition handleReadReceipt (st : AppState) (chatId : string)
    (messageIds : list string) (readerId : string) : AppState :=
  let potentialGroup :=
    find (λ c, bool_decide (c_id c = chatId) && truthy (c_isGroup c)) (chats st) in
  let targetLocalChatId :=
    match potentialGroup with Some _ => chatId | None => readerId end in
  setMessages (λ prev,
    match prev !! targetLocalChatId with
    | None => prev
    | Some currentList =>
        let needsUpdate :=
          existsb (λ m, includes messageIds (m_id m)
                        && negb (bool_decide (m_status m = read))) currentList in
        if needsUpdate
        then <[targetLocalChatId := markIds messageIds currentList]> prev
        else prev
    end) st.

Definition handleSelectChat (st : AppState) (id : string) : AppState :=
  setChats (λ prev, (λ c, if decide (c_id c = id) then withUnread 0 c else c) <$> prev)
    (setActiveChatId (Some id) st).

(** *** Directory sync and peer join *)

Definition hasUsername (username : string) (c : ChatPreview) : bool :=
  bool_decide (c_username c = Some username).

(** One turn of the [users.forEach] loop inside the [setChats] updater of
    [handleUserSync]; the accumulator is [(newChats, changed)]. *)
Definition syncStep (self : string) (now : Z)
    (acc : list ChatPreview * bool) (u : UserProfile) : list ChatPreview * bool :=
  let '(newChats, changed) := acc in
  if decide (u_username u = self) then acc
  else match find (hasUsername (u_username u)) newChats with
       | Some _ => acc
       | None => (newChats ++ [newContact u now], true)
       end.

Definition handleUserSync (st : AppState) (users : list UserProfile) (now : Z)
  : AppState :=
  let st1 := setDirectory
    (λ d, foldl (λ d u, <[u_username u := u]> d) d users) st in
  setChats (λ prev,
    let '(newChats, changed) :=
      foldl (syncStep (u_username (userProfile st)) now) (prev, false) users in
    if changed then newChats else prev) st1.

Definition systemMsg (profile : UserProfile) (now : Z) : Message :=
  plainMessage (toString now) (u_username profile) contactJoined them
    (Some "system") now read.

Definition handleNewUserJoined (st : AppState) (profile : UserProfile) (now : Z)
  : AppState :=
  let st1 := setDirectory (λ d, <[u_username profile := profile]> d) st in
  if decide (u_username profile = u_username (userProfile st)) then st1
  else
    match find (hasUsername (u_username profile)) (chats st1) with
    | Some _ => st1
    | None =>
        setChats (λ prev, newContact profile now :: prev)
          (setMessages
             (λ mPrev, <[u_username profile := [systemMsg profile now]]> mPrev)
             st1)
    end.

(** *** Outbound send and the conversational responder *)

(** A timer armed by [simulateTypingAndSend]: after [pr_delay] milliseconds
    it builds the bot message and hands it to [handleIncomingMessage]. *)
Record PendingReply := {
  pr_delay : Z;
  pr_chatId : string;
  pr_text : string;
  pr_senderId : option string;
}.

(** [Math.min(Math.max(text.length * 30, 1500), 6000)]; a character of the
    model's string stands for one UTF-16 code unit of the text. *)
Definition typingDelay (text : string) : Z :=
  Z.min (Z.max (Z.of_nat (String.length text) * 30) 1500) 6000.

Definition simulateTypingAndSend (chatId text : string) (senderId : option string)
  : PendingReply :=
  {| pr_delay := typingDelay text; pr_chatId := chatId; pr_text := text;
     pr_senderId := senderId |}.

Definition botMsg (pr : PendingReply) (now : Z) : Message :=
  plainMessage (toString now) (pr_chatId pr) (pr_text pr) them
    (pr_senderId pr) now read.

(** The continuation of the timer, followed by the [finally] clause of
    [generateBotResponse]. *)
Definition fireReply (st : AppState) (pr : PendingReply) (now : Z) : AppState :=
  setTypingMap (λ prev, <[pr_chatId pr := false]> prev)
    (handleIncomingMessage st (botMsg pr now)).

Definition generateBotResponse (st : AppState) (chatId : string)
    (history : list Message) (bot : ChatPreview) : AppState * PendingReply :=
  let st1 := setTypingMap (λ prev, <[chatId := true]> prev) st in
  let lastMsgText := default "" (m_text <$> list.last history) in
  let finalBio := or_else (c_bio bot) "A helpful assistant" in
  let responseText := generateResponse history lastMsgText (c_name bot) finalBio in
  (st1, simulateTypingAndSend chatId responseText (Some (c_id bot))).

Definition userMsg (st : AppState) (active text : string)
    (attachment : option Attachment) (now : Z) : Message :=
  {| m_id := toString now; m_chatId := active; m_text := text; m_sender := me;
     m_senderId := Some (u_username (userProfile st)); m_timestamp := now;
     m_status := sent;
     m_type := a_type <$> attachment;
     m_mediaUrl := a_mediaUrl <$> attachment;
     m_fileName := attachment ≫= a_fileName;
     m_fileSize := attachment ≫= a_fileSize;
     m_duration := attachment ≫= a_duration |}.

(** [{ ...m, sender: 'them', chatId }] *)
Definition msgForTarget (chatId : string) (m : Message) : Message :=
  {| m_id := m_id m; m_chatId := chatId; m_text := m_text m;
     m_sender := them; m_senderId := m_senderId m;
     m_timestamp := m_timestamp m; m_status := m_status m;
     m_type := m_type m; m_mediaUrl := m_mediaUrl m;
     m_fileName := m_fileName m; m_fileSize := m_fileSize m;
     m_duration := m_duration m |}.

(** Step 3a of [handleSendMessage]: one turn of [chat.memberIds.forEach],
    writing the group's preview into another local account's snapshot. *)
Definition mirrorToMember (st : AppState) (chat : ChatPreview) (text : string)
    (now : Z) (ls : gmap string string) (memberId : string) : gmap string string :=
  if decide (memberId = u_username (userProfile st)) then ls
  else
    match find (λ a, bool_decide (u_id a = memberId)
                     || bool_decide (u_username a = memberId)) (accounts st) with
    | None => ls
    | Some targetAcc =>
        let targetChats := loadChatsForUser ls (u_id targetAcc) in
        match list_find (λ c, c_id c = c_id chat) targetChats with
        | None => ls
        | Some (groupIndex, groupChat) =>
            let updatedGroup :=
              withUnread (c_unreadCount groupChat + 1)
                (withLast text now them groupChat) in
            saveChatsForUser (u_id targetAcc)
              (updatedGroup :: delete groupIndex targetChats) ls
        end
    end.

(** Step 3b: the direct-message mirror into the addressee's snapshot (the
    storage half; the message-store half is in [handleSendMessage]). *)
Definition mirrorToAccount (st : AppState) (text : string) (now : Z)
    (targetAccount : UserProfile) (ls : gmap string string) : gmap string string :=
  let self := userProfile st in
  let targetChats := loadChatsForUser ls (u_id targetAccount) in
  match list_find (λ c, c_id c = u_username self) targetChats with
  | None =>
      let newChatEntry :=
        {| c_id := u_username self; c_name := u_name self; c_avatar := None;
           c_color := u_avatarColor self; c_lastMessage := text;
           c_timestamp := now; c_unreadCount := 1; c_isOnline := true;
           c_isBot := Some false; c_isGroup := None;
           c_username := Some (u_username self); c_bio := None;
           c_phone := None; c_muted := None; c_isAdmin := None;
           c_membersCount := None; c_sender := Some them;
           c_memberIds := None |} in
      saveChatsForUser (u_id targetAccount) (newChatEntry :: targetChats) ls
  | Some (senderChatIndex, existing) =>
      let updatedExisting :=
        withUnread (c_unreadCount existing + 1) (withLast text now them existing) in
      saveChatsForUser (u_id targetAccount)
        (updatedExisting :: delete senderChatIndex targetChats) ls
  end.

(** [chat.isBot && !chat.isGroup && chat.id !== '1'] *)
Definition wantsBotReply (chat : ChatPreview) : bool :=
  truthy (c_isBot chat) && negb (truthy (c_isGroup chat))
  && negb (bool_decide (c_id chat = "1")).

Definition handleSendMessage (st : AppState) (text : string)
    (attachment : option Attachment) (now : Z)
  : AppState * list Emission * option PendingReply :=
  match activeChatId st, socketRef st with
  | Some active, Some sock =>
      if decide (active = "") then (st, [], None)
      else
        match find (λ c, bool_decide (c_id c = active)) (chats st) with
        | None => (st, [], None)
        | Some chat =>
            (* 1. send via socket *)
            let out := Socket.sendMessage sock now active text
                         (Some (c_id chat)) (c_isGroup chat) attachment in
            (* 2. optimistic local update *)
            let um := userMsg st active text attachment now in
            let st1 := setMessages
              (λ prev, <[active := get_or_nil prev active ++ [um]]> prev) st in
            let st2 := setChats (λ prev,
              match list_find (λ c, c_id c = active) prev with
              | None => prev
              | Some (chatIndex, c) =>
                  withLast text now me c :: delete chatIndex prev
              end) st1 in
            (* 3. sync to other local accounts *)
            let st3 :=
              match truthy (c_isGroup chat), c_memberIds chat with
              | true, Some memberIds =>
                  setLocalStorage
                    (λ ls, foldl (mirrorToMember st chat text now) ls memberIds) st2
              | _, _ => st2
              end in
            let st4 :=
              match find (λ acc, bool_decide (u_id acc = active)) (accounts st) with
              | None => st3
              | Some targetAccount =>
                  let self := u_username (userProfile st) in
                  setMessages
                    (λ prev, <[self := get_or_nil prev self ++ [msgForTarget self um]]> prev)
                    (setLocalStorage (mirrorToAccount st text now targetAccount) st3)
              end in
            (* 4. AI logic, bots only *)
            if wantsBotReply chat then
              let currentMsgs := get_or_nil (messages st) active in
              let historyForAI := currentMsgs ++ [um] in
              let '(st5, pr) := generateBotResponse st4 active historyForAI chat in
              (st5, out, Some pr)
            else (st4, out, None)
        end
  | _, _ => (st, [], None)
  end.

(** *** The subscriber installed on the socket *)

(** [{ ...prev, ...p }] on profiles: a property present in [p] wins. *)
Definition mergeProfile (prev p : UserProfile) : UserProfile :=
  {| u_id := u_id p; u_name := u_name p; u_username := u_username p;
     u_phone := u_phone p; u_bio := u_bio p; u_avatarColor := u_avatarColor p;
     u_isPremium := match u_isPremium p with Some b => Some b | None => u_isPremium prev end;
     u_isAdmin := match u_isAdmin p with Some b => Some b | None => u_isAdmin prev end;
     u_privacy := match u_privacy p with Some b => Some b | None => u_privacy prev end |}.

Definition subscriber (st : AppState) (data : Notification) (now : Z) : AppState :=
  match data with
  | N_NEW_MESSAGE msg =>
      if decide (m_senderId msg ≠ Some (u_username (userProfile st)))
      then handleIncomingMessage st msg
      else st
  | N_USER_JOINED profile => handleNewUserJoined st profile now
  | N_USER_SYNC users => handleUserSync st users now
  | N_MESSAGE_READ chatId messageIds readerId =>
      handleReadReceipt st chatId messageIds readerId
  | N_USER_UPDATED profile =>
      if decide (u_id profile = u_id (userProfile st))
      then setAccounts
             (λ prev, (λ acc, if decide (u_id acc = u_id profile)
                              then mergeProfile acc profile else acc) <$> prev)
             (setUserProfile (λ prev, mergeProfile prev profile) st)
      else st
  | N_ADMIN_DATA msgs => setAdmin msgs false st
  | N_STATUS_CONNECTED => st
  end.

End Controller.

(** ** Derived notions used to state the properties *)

(** The state the effect leaves when it acts on conversation [active]. *)
Definition afterReceipt (st : AppState) (active : string) : AppState :=
  let ids := m_id <$> filter (λ m, isUnread st m = true)
                        (get_or_nil (messages st) active) in
  setChats (λ prev, (λ c, if decide (c_id c = active) then withUnread 0 c else c)
                    <$> prev)
    (setMessages
       (λ prev, <[active := markIds ids (get_or_nil prev active)]> prev) st).

(** The reply, if any, that a send arms. *)
Definition armedReply `{!Platform} (st : AppState) (text : string)
    (attachment : option Attachment) (now : Z) : option PendingReply :=
  (handleSendMessage st text attachment now).2.

(** The peers for which the loop of [handleUserSync] creates a preview,
    given the chats [acc] built so far. *)
Fixpoint syncAdded (self : string) (now : Z) (acc : list ChatPreview)
    (users : list UserProfile) : list UserProfile :=
  match users with
  | [] => []
  | u :: rest =>
      if decide (u_username u = self) then syncAdded self now acc rest
      else match find (hasUsername (u_username u)) acc with
           | Some _ => syncAdded self now acc rest
           | None => u :: syncAdded self now (acc ++ [newContact u now]) rest
           end
  end.

(** The operations of the Controller that write the message store. *)
Inductive ControllerOp :=
| OpIncoming (msg : Message)
| OpFireReply (pr : PendingReply) (now : Z)
| OpReadReceipt (chatId : string) (messageIds : list string) (readerId : string)
| OpReadEffect
| OpSend (text : string) (attachment : option Attachment) (now : Z).

Definition runOp `{!Platform} (st : AppState) (op : ControllerOp) : AppState :=
  match op with
  | OpIncoming msg => handleIncomingMessage st msg
  | OpFireReply pr now => fireReply st pr now
  | OpReadReceipt chatId messageIds readerId =>
      handleReadReceipt st chatId messageIds readerId
  | OpReadEffect => (readReceiptsEffect st).1
  | OpSend text attachment now => (handleSendMessage st text attachment now).1.1
  end.

(** [m'] is [m], or [m] with its status set to read. *)
Definition advances (m m' : Message) : Prop := m' = m ∨ m' = markRead m.

(** Every message of [s] is still in [s'], in the same conversation at the
    same position, as it was or marked read. *)
Definition store_advances (s s' : gmap string (list Message)) : Prop :=
  ∀ k l i m, s !! k = Some l → l !! i = Some m →
    ∃ l' m', s' !! k = Some l' ∧ l' !! i = Some m' ∧ advances m m'.

(** ** The relay ([server.js])

    The SQLite tables are finite maps keyed by their primary keys; a
    statement is its effect on the tables, and the callbacks that chain the
    statements of a handler run in the order the source nests them. *)
Module Server.

Record UserRow := {
  r_id : string;
  r_username : string;
  r_name : string;
  r_bio : string;
  r_phone : string;
  r_avatarColor : string;
  r_isPremium : Z;
  r_isAdmin : Z;
}.

Record PromoRow := {
  max_uses : Z;
  current_uses : Z;
}.

Record Db := {
  users : gmap string UserRow;
  messages : gmap string Message;
  promo_codes : gmap string PromoRow;
  user_promo_usage : gset (string * string);
}.

(** The recipient of a [socket.emit] / [socket.broadcast.emit]. *)
Inductive Target := ToSender | Broadcast.

Inductive Event :=
| PROMO_RESULT (success : bool) (message : string)
| USER_UPDATED (profile : UserProfile)
| NEW_MESSAGE (message : Message).

(** [!!n] on an INTEGER column. *)
Definition toBool (n : Z) : bool := negb (n =? 0)%Z.

(** [{ ...row, isPremium: !!row.isPremium, isAdmin: !!row.isAdmin }] *)
Definition rowProfile (row : UserRow) : UserProfile :=
  {| u_id := r_id row; u_name := r_name row; u_username := r_username row;
     u_phone := r_phone row; u_bio := r_bio row;
     u_avatarColor := r_avatarColor row;
     u_isPremium := Some (toBool (r_isPremium row));
     u_isAdmin := Some (toBool (r_isAdmin row));
     u_privacy := None |}.

(** [UPDATE users SET isPremium = 1 WHERE id = ?] *)
Definition setPremium (row : UserRow) : UserRow :=
  {| r_id := r_id row; r_username := r_username row; r_name := r_name row;
     r_bio := r_bio row; r_phone := r_phone row;
     r_avatarColor := r_avatarColor row; r_isPremium := 1;
     r_isAdmin := r_isAdmin row |}.

(** [UPDATE promo_codes SET current_uses = current_uses + 1 WHERE code = ?] *)
Definition bumpUses (p : PromoRow) : PromoRow :=
  {| max_uses := max_uses p; current_uses := current_uses p + 1 |}.

Definition initializeDatabase : Db :=
  {| users := ∅; messages := ∅;
     promo_codes := {[ "welcome10" := {| max_uses := 999999; current_uses := 0 |} ]};
     user_promo_usage := ∅ |}.

(** [socket.on('REDEEM_PROMO', ...)].  The statements are those of a
    working database: the [err] argument of each callback is null, so the
    ['Database error'] answer is not produced. *)
Definition redeemPromo (db : Db) (userId code : string)
  : Db * list (Target * Event) :=
  match promo_codes db !! code with
  | None => (db, [(ToSender, PROMO_RESULT false "Invalid code")])
  | Some promo =>
      if decide ((userId, code) ∈ user_promo_usage db)
      then (db, [(ToSender, PROMO_RESULT false "Code already used by you")])
      else
        let users' := alter setPremium userId (users db) in
        let db' :=
          {| users := users';
             messages := messages db;
             promo_codes := alter bumpUses code (promo_codes db);
             user_promo_usage := {[ (userId, code) ]} ∪ user_promo_usage db |} in
        (db',
         (ToSender, PROMO_RESULT true "Premium Activated!")
         :: match users' !! userId with
            | Some row => [(ToSender, USER_UPDATED (rowProfile row));
                           (Broadcast, USER_UPDATED (rowProfile row))]
            | None => []
            end)
  end.

(** [{ ...msg, sender: 'them', status: 'sent' }] *)
Definition relayed (msg : Message) : Message :=
  {| m_id := m_id msg; m_chatId := m_chatId msg; m_text := m_text msg;
     m_sender := them; m_senderId := m_senderId msg;
     m_timestamp := m_timestamp msg; m_status := sent;
     m_type := m_type msg; m_mediaUrl := m_mediaUrl msg;
     m_fileName := m_fileName msg; m_fileSize := m_fileSize msg;
     m_duration := m_duration msg |}.

(** [socket.on('SEND_MESSAGE', ...)]: store (an INSERT on an id already
    present fails on the primary key and is only logged), then broadcast
    to the other sockets. *)
Definition sendMessage (db : Db) (msg : Message) : Db * list (Target * Event) :=
  ({| users := users db;
      messages := match messages db !! m_id msg with
                  | Some _ => messages db
                  | None => <[m_id msg := msg]> (messages db)
                  end;
      promo_codes := promo_codes db;
      user_promo_usage := user_promo_usage db |},
   [(Broadcast, NEW_MESSAGE (relayed msg))]).

End Server.

(** ** A reference platform

    A concrete [Platform] on which the development can be run: the clock
    starts at 0, the responder echoes the user's text, and chat lists are
    stored through a self-delimiting text code (any code that [JSON_parse]
    inverts on its own output serves the persistence proofs alike). *)
Module Ref.

Definition chat_to_tuple (c : ChatPreview) :=
  (c_id c, c_name c, c_avatar c, c_color c, c_lastMessage c, c_timestamp c,
   c_unreadCount c, c_isOnline c, c_isBot c, c_isGroup c, c_username c,
   c_bio c, c_phone c, c_muted c, c_isAdmin c, c_membersCount c,
   c_sender c, c_memberIds c).

Definition chat_of_tuple
    (t : string * string * option string * string * string * Z * Z * bool
         * option bool * option bool * option string * option string
         * option string * option bool * option bool * option Z
         * option Sender * option (list string)) : ChatPreview :=
  let '(i, n, av, co, lm, ts, ur, on, ib, ig, un, bi, ph, mu, ad, mc, se, mi) := t in
  {| c_id := i; c_name := n; c_avatar := av; c_color := co;
     c_lastMessage := lm; c_timestamp := ts; c_unreadCount := ur;
     c_isOnline := on; c_isBot := ib; c_isGroup := ig; c_username := un;
     c_bio := bi; c_phone := ph; c_muted := mu; c_isAdmin := ad;
     c_membersCount := mc; c_sender := se; c_memberIds := mi |}.

#[global] Instance Sender_countable : Countable Sender.
Proof.
  refine (inj_countable' (λ s, match s with me => true | them => false end)
            (λ b : bool, if b then me else them) _).
  by intros [].
Defined.

#[global] Instance ChatPreview_countable : Countable ChatPreview.
Proof.
  refine (inj_countable' chat_to_tuple chat_of_tuple _).
  by intros [].
Defined.

Fixpoint bits (p : positive) : string :=
  match p with
  | xH => "."
  | xO q => String "0"%char (bits q)
  | xI q => String "1"%char (bits q)
  end.

Fixpoint unbits (s : string) : option positive :=
  match s with
  | String a r =>
      if decide (a = "0"%char) then xO <$> unbits r
      else if decide (a = "1"%char) then xI <$> unbits r
      else if decide (a = "."%char) then
             match r with EmptyString => Some xH | _ => None end
      else None
  | EmptyString => None
  end.

Definition stringify (l : list ChatPreview) : string := bits (encode l).

Definition parse (s : string) : option (list ChatPreview) :=
  unbits s ≫= decode.

#[global] Instance platform : Platform :=
  {| bootTime := 0;
     contactJoined := "joined RedGram";
     generateResponse := λ _ userPrompt _ _, userPrompt;
     JSON_stringify := stringify;
     JSON_parse := parse |}.

Definition profile (username : string) : UserProfile :=
  {| u_id := username; u_name := username; u_username := username;
     u_phone := ""; u_bio := ""; u_avatarColor := "bg-gray-500";
     u_isPremium := None; u_isAdmin := None; u_privacy := None |}.

(** A session of [username], freshly mounted: default chats, empty
    stores, a socket in the given connection state. *)
Definition session (username : string) (isConnected : bool) : AppState :=
  {| accounts := [profile username]; userProfile := profile username;
     showRegistration := false; chats := INITIAL_CHATS; messages := ∅;
     activeChatId := None; viewingProfileId := None; typingMap := ∅;
     adminMessages := []; isLoadingAdmin := false;
     socketRef := Some {| connected := isConnected;
                          myUserId := Some username;
                          myProfile := Some (profile username) |};
     userDirectoryRef := ∅; localStorage := ∅ |}.

Definition textFrom (id chatId : string) (senderId : option string) (text : string)
  : Message :=
  plainMessage id chatId text them senderId 1000 sent.

End Ref.

(** ** The rest of the component ([App.tsx])

    The handlers below also touch view flags that [AppState] does not
    carry; [Ui] pairs the component state with them. *)

(** Translations ([t.*]) and the string built-ins the handlers call. *)
Class Texts := {
  contactCreated : string;
  groupInfoUpdated : string;
  wasAdded : string;
  group : string;
  trim : string → string;
  toLowerCase : string → string;
}.

Record ViewState := {
  archivedChatIds : gset string;
  showArchiveView : bool;
  showCallsView : bool;
  showPremiumModal : bool;
  showAdminPanel : bool;
}.

Record Ui := {
  app : AppState;
  view : ViewState;
}.

Definition onApp (f : AppState → AppState) (ui : Ui) : Ui :=
  {| app := f (app ui); view := view ui |}.

Definition setArchivedChatIds (f : gset string → gset string) (ui : Ui) : Ui :=
  {| app := app ui;
     view := {| archivedChatIds := f (archivedChatIds (view ui));
                showArchiveView := showArchiveView (view ui);
                showCallsView := showCallsView (view ui);
                showPremiumModal := showPremiumModal (view ui);
                showAdminPanel := showAdminPanel (view ui) |} |}.

Definition setShowArchiveView (b : bool) (ui : Ui) : Ui :=
  {| app := app ui;
     view := {| archivedChatIds := archivedChatIds (view ui);
                showArchiveView := b;
                showCallsView := showCallsView (view ui);
                showPremiumModal := showPremiumModal (view ui);
                showAdminPanel := showAdminPanel (view ui) |} |}.

Definition setShowCallsView (b : bool) (ui : Ui) : Ui :=
  {| app := app ui;
     view := {| archivedChatIds := archivedChatIds (view ui);
                showArchiveView := showArchiveView (view ui);
                showCallsView := b;
                showPremiumModal := showPremiumModal (view ui);
                showAdminPanel := showAdminPanel (view ui) |} |}.

Definition setShowPremiumModal (b : bool) (ui : Ui) : Ui :=
  {| app := app ui;
     view := {| archivedChatIds := archivedChatIds (view ui);
                showArchiveView := showArchiveView (view ui);
                showCallsView := showCallsView (view ui);
                showPremiumModal := b;
                showAdminPanel := showAdminPanel (view ui) |} |}.

Definition setShowAdminPanel (b : bool) (ui : Ui) : Ui :=
  {| app := app ui;
     view := {| archivedChatIds := archivedChatIds (view ui);
                showArchiveView := showArchiveView (view ui);
                showCallsView := showCallsView (view ui);
                showPremiumModal := showPremiumModal (view ui);
                showAdminPanel := b |} |}.

Definition setShowRegistration (b : bool) (st : AppState) : AppState :=
  {| accounts := accounts st; userProfile := userProfile st;
     showRegistration := b; chats := chats st;
     messages := messages st; activeChatId := activeChatId st;
     viewingProfileId := viewingProfileId st; typingMap := typingMap st;
     adminMessages := adminMessages st; isLoadingAdmin := isLoadingAdmin st;
     socketRef := socketRef st; userDirectoryRef := userDirectoryRef st;
     localStorage := localStorage st |}.

Definition setSocketRef (s : option ChatSocket) (st : AppState) : AppState :=
  {| accounts := accounts st; userProfile := userProfile st;
     showRegistration := showRegistration st; chats := chats st;
     messages := messages st; activeChatId := activeChatId st;
     viewingProfileId := viewingProfileId st; typingMap := typingMap st;
     adminMessages := adminMessages st; isLoadingAdmin := isLoadingAdmin st;
     socketRef := s; userDirectoryRef := userDirectoryRef st;
     localStorage := localStorage st |}.

(** [{ ...c, muted: !c.muted }] *)
Definition toggleMuted (c : ChatPreview) : ChatPreview :=
  {| c_id := c_id c; c_name := c_name c; c_avatar := c_avatar c;
     c_color := c_color c; c_lastMessage := c_lastMessage c;
     c_timestamp := c_timestamp c; c_unreadCount := c_unreadCount c;
     c_isOnline := c_isOnline c; c_isBot := c_isBot c;
     c_isGroup := c_isGroup c; c_username := c_username c; c_bio := c_bio c;
     c_phone := c_phone c; c_muted := Some (negb (truthy (c_muted c)));
     c_isAdmin := c_isAdmin c; c_membersCount := c_membersCount c;
     c_sender := c_sender c; c_memberIds := c_memberIds c |}.

(** [Partial<ChatPreview>]: [None] is a property the object does not have. *)
Record ChatUpdates := {
  up_id : option string;
  up_name : option string;
  up_avatar : option string;
  up_color : option string;
  up_lastMessage : option string;
  up_timestamp : option Z;
  up_unreadCount : option Z;
  up_isOnline : option bool;
  up_isBot : option bool;
  up_isGroup : option bool;
  up_username : option string;
  up_bio : option string;
  up_phone : option string;
  up_muted : option bool;
  up_isAdmin : option bool;
  up_membersCount : option Z;
  up_sender : option Sender;
  up_memberIds : option (list string);
}.

(** An optional property of an update wins over the old one when present. *)
Definition over {A} (u old : option A) : option A :=
  match u with Some v => Some v | None => old end.

(** [{ ...c, ...updates }] *)
Definition applyUpdates (updates : ChatUpdates) (c : ChatPreview) : ChatPreview :=
  {| c_id := default (c_id c) (up_id updates);
     c_name := default (c_name c) (up_name updates);
     c_avatar := over (up_avatar updates) (c_avatar c);
     c_color := default (c_color c) (up_color updates);
     c_lastMessage := default (c_lastMessage c) (up_lastMessage updates);
     c_timestamp := default (c_timestamp c) (up_timestamp updates);
     c_unreadCount := default (c_unreadCount c) (up_unreadCount updates);
     c_isOnline := default (c_isOnline c) (up_isOnline updates);
     c_isBot := over (up_isBot updates) (c_isBot c);
     c_isGroup := over (up_isGroup updates) (c_isGroup c);
     c_username := over (up_username updates) (c_username c);
     c_bio := over (up_bio updates) (c_bio c);
     c_phone := over (up_phone updates) (c_phone c);
     c_muted := over (up_muted updates) (c_muted c);
     c_isAdmin := over (up_isAdmin updates) (c_isAdmin c);
     c_membersCount := over (up_membersCount updates) (c_membersCount c);
     c_sender := over (up_sender updates) (c_sender c);
     c_memberIds := over (up_memberIds updates) (c_memberIds c) |}.

(** [{ name, bio }], the object [ProfilePanel.handleSaveGroup] passes. *)
Definition nameAndBio (name bio : string) : ChatUpdates :=
  {| up_id := None; up_name := Some name; up_avatar := None; up_color := None;
     up_lastMessage := None; up_timestamp := None; up_unreadCount := None;
     up_isOnline := None; up_isBot := None; up_isGroup := None;
     up_username := None; up_bio := Some bio; up_phone := None;
     up_muted := None; up_isAdmin := None; up_membersCount := None;
     up_sender := None; up_memberIds := None |}.

(** [s.slice(-n)]: the last [n] code units of [s] (all of it when shorter). *)
Definition sliceLast (n : nat) (s : string) : string :=
  String.substring (String.length s - n) n s.

Section Rest.
Context `{!Platform} `{!Texts}.

Definition handleAddChat (ui : Ui) (newChat : ChatPreview) : Ui :=
  setShowArchiveView false
    (setShowCallsView false
       (onApp (λ st, setActiveChatId (Some (c_id newChat))
                       (setChats (λ prev, newChat :: prev) st)) ui)).

Definition manualContact (firstName lastName phone : string) (now : Z) : ChatPreview :=
  let fullName := trim (firstName +:+ " " +:+ lastName) in
  let id := toString now in
  {| c_id := id; c_name := fullName; c_avatar := None;
     c_color := "bg-gradient-to-tr from-emerald-400 to-teal-500 text-white";
     c_lastMessage := ""; c_timestamp := now; c_unreadCount := 0;
     c_isOnline := false; c_isBot := Some true; c_isGroup := None;
     c_username := Some (toLowerCase firstName +:+ "_" +:+ sliceLast 4 id);
     c_bio := Some "Contact added manually."; c_phone := Some phone;
     c_muted := None; c_isAdmin := None; c_membersCount := None;
     c_sender := None; c_memberIds := None |}.

Definition handleAddNewContact (ui : Ui) (firstName lastName phone : string)
    (now : Z) : Ui :=
  let id := toString now in
  let systemMsg := plainMessage (toString now) id contactCreated them
                     (Some "system") now read in
  onApp (setMessages (λ prev, <[id := [systemMsg]]> prev))
    (handleAddChat ui (manualContact firstName lastName phone now)).

Definition handleToggleArchive (ui : Ui) (chatId : string) : Ui :=
  if decide (chatId ∈ archivedChatIds (view ui))
  then setArchivedChatIds (λ prev, prev ∖ {[chatId]}) ui
  else
    let ui1 := setArchivedChatIds (λ prev, prev ∪ {[chatId]}) ui in
    if decide (activeChatId (app ui) = Some chatId)
    then onApp (setActiveChatId None) ui1
    else ui1.

Definition handleToggleMute (st : AppState) (chatId : string) : AppState :=
  setChats (λ prev, (λ c, if decide (c_id c = chatId) then toggleMuted c else c)
                    <$> prev) st.

Definition handleUpdateGroup (st : AppState) (chatId : string)
    (updates : ChatUpdates) (now : Z) : AppState :=
  let st1 := setChats
    (λ prev, (λ c, if decide (c_id c = chatId) then applyUpdates updates c else c)
             <$> prev) st in
  if truthy_str (up_name updates) || truthy_str (up_bio updates)
  then handleIncomingMessage st1
         (plainMessage (toString now) chatId groupInfoUpdated them None now read)
  else st1.

(** [chat.membersCount || 0] *)
Definition countOrZero (n : option Z) : Z := default 0 n.

Definition addedMember (contactId text : string) (timestamp : Z) (c : ChatPreview)
  : ChatPreview :=
  let currentMembers := default [] (c_memberIds c) in
  let newMembers := if includes currentMembers contactId then currentMembers
                    else currentMembers ++ [contactId] in
  {| c_id := c_id c; c_name := c_name c; c_avatar := c_avatar c;
     c_color := c_color c; c_lastMessage := text; c_timestamp := timestamp;
     c_unreadCount := c_unreadCount c; c_isOnline := c_isOnline c;
     c_isBot := c_isBot c; c_isGroup := c_isGroup c;
     c_username := c_username c; c_bio := c_bio c; c_phone := c_phone c;
     c_muted := c_muted c; c_isAdmin := c_isAdmin c;
     c_membersCount := Some (countOrZero (c_membersCount c) + 1);
     c_sender := c_sender c; c_memberIds := Some newMembers |}.

Definition handleAddMember (st : AppState) (chatId contactId : string) (now : Z)
  : AppState :=
  match find (λ c, bool_decide (c_id c = contactId)) (chats st) with
  | None => st
  | Some contact =>
      let systemMsg :=
        plainMessage (toString now) chatId (c_name contact +:+ " " +:+ wasAdded)
          them None now read in
      let st1 := setMessages
        (λ prev, <[chatId := get_or_nil prev chatId ++ [systemMsg]]> prev) st in
      setChats (λ prev,
        match list_find (λ c, c_id c = chatId) prev with
        | None => prev
        | Some (index, chat) =>
            addedMember contactId (m_text systemMsg) (m_timestamp systemMsg) chat
            :: delete index prev
        end) st1
  end.

Definition handleDeleteChat (st : AppState) (chatId : string) : AppState :=
  let st1 := setChats (λ prev, filter (λ c, c_id c ≠ chatId) prev) st in
  let st2 := if decide (activeChatId st = Some chatId)
             then setActiveChatId None st1 else st1 in
  if decide (viewingProfileId st = Some chatId)
  then setViewingProfileId None st2 else st2.

Definition groupChat (name username : string) (selectedContactIds : list string)
    (now : Z) : ChatPreview :=
  {| c_id := toString now; c_name := trim name; c_avatar := None;
     c_color := "bg-gradient-to-br from-orange-400 to-pink-500 text-white";
     c_lastMessage := group +:+ " created"; c_timestamp := now;
     c_unreadCount := 0; c_isOnline := true; c_isBot := None;
     c_isGroup := Some true; c_username := Some (trim username);
     c_bio := Some "A new awesome group."; c_phone := None; c_muted := None;
     c_isAdmin := Some true;
     c_membersCount := Some (Z.of_nat (length selectedContactIds) + 1);
     c_sender := None; c_memberIds := Some selectedContactIds |}.

(** [{ ...newChat, isAdmin: false, unreadCount: 1 }] *)
Definition groupForTarget (c : ChatPreview) : ChatPreview :=
  {| c_id := c_id c; c_name := c_name c; c_avatar := c_avatar c;
     c_color := c_color c; c_lastMessage := c_lastMessage c;
     c_timestamp := c_timestamp c; c_unreadCount := 1;
     c_isOnline := c_isOnline c; c_isBot := c_isBot c;
     c_isGroup := c_isGroup c; c_username := c_username c; c_bio := c_bio c;
     c_phone := c_phone c; c_muted := c_muted c; c_isAdmin := Some false;
     c_membersCount := c_membersCount c; c_sender := c_sender c;
     c_memberIds := c_memberIds c |}.

(** One turn of [selectedContactIds.forEach] in [handleCreateGroup]. *)
Definition shareGroup (accs : list UserProfile) (newChat : ChatPreview)
    (ls : gmap string string) (contactId : string) : gmap string string :=
  match find (λ a, bool_decide (u_id a = contactId)) accs with
  | None => ls
  | Some targetAcc =>
      let targetChats := loadChatsForUser ls (u_id targetAcc) in
      match find (λ c, bool_decide (c_id c = c_id newChat)) targetChats with
      | Some _ => ls
      | None => saveChatsForUser (u_id targetAcc)
                  (groupForTarget newChat :: targetChats) ls
      end
  end.

Definition handleCreateGroup (ui : Ui) (name username : string)
    (selectedContactIds : list string) (now : Z) : Ui :=
  let newChat := groupChat name username selectedContactIds now in
  let msgs := [plainMessage (toString now) (c_id newChat) "Group created."
                 them None now read] in
  setShowCallsView false
    (onApp (λ st,
       setLocalStorage
         (λ ls, foldl (shareGroup (accounts st) newChat) ls selectedContactIds)
         (setMessages (λ prev, <[c_id newChat := msgs]> prev)
            (setActiveChatId (Some (c_id newChat))
               (setChats (λ prev, newChat :: prev) st)))) ui).

Definition REGISTRATION : string := "redgram_reg_complete_v1".

Definition registeredProfile (name username : string) : UserProfile :=
  {| u_id := username; u_name := name; u_username := username; u_phone := "";
     u_bio := "Hi! I am new here.";
     u_avatarColor := "bg-gradient-to-br from-red-500 to-orange-500";
     u_isPremium := Some false; u_isAdmin := None;
     u_privacy := Some {| profilePhoto := everybody;
                          phoneNumber := Some nobody;
                          lastSeen := Some everybody;
                          stories := Some everybody |} |}.

(** The chat an existing local account gets for the newcomer. *)
Definition newcomerChat (name username : string) (now : Z) : ChatPreview :=
  {| c_id := username; c_name := name; c_avatar := None;
     c_color := "bg-gradient-to-br from-red-500 to-orange-500";
     c_lastMessage := contactJoined; c_timestamp := now; c_unreadCount := 1;
     c_isOnline := true; c_isBot := Some false; c_isGroup := None;
     c_username := Some username; c_bio := Some "Hi! I am new here.";
     c_phone := Some ""; c_muted := None; c_isAdmin := None;
     c_membersCount := None; c_sender := Some them; c_memberIds := None |}.

(** [useEffect(..., [userProfile])]: copy the profile into the accounts list. *)
Definition syncAccountEffect (st : AppState) : AppState :=
  if showRegistration st then st
  else setAccounts
         (λ prev, (λ acc, if decide (u_id acc = u_id (userProfile st))
                          then userProfile st else acc) <$> prev) st.

(** [{ ...prev, isPremium: true }] *)
Definition withPremium (p : UserProfile) : UserProfile :=
  {| u_id := u_id p; u_name := u_name p; u_username := u_username p;
     u_phone := u_phone p; u_bio := u_bio p; u_avatarColor := u_avatarColor p;
     u_isPremium := Some true; u_isAdmin := u_isAdmin p;
     u_privacy := u_privacy p |}.

Definition handleBuyPremium (ui : Ui) : Ui :=
  setShowPremiumModal false (onApp (setUserProfile withPremium) ui).

(** [{ ...userProfile, id: userProfile.username }] *)
Definition withIdUsername (p : UserProfile) : UserProfile :=
  {| u_id := u_username p; u_name := u_name p; u_username := u_username p;
     u_phone := u_phone p; u_bio := u_bio p; u_avatarColor := u_avatarColor p;
     u_isPremium := u_isPremium p; u_isAdmin := u_isAdmin p;
     u_privacy := u_privacy p |}.

(** [useEffect(..., [userProfile.id, showRegistration])]: drop the old
    socket, create one (not yet connected) and identify on it. *)
Definition socketEffect (st : AppState) : AppState :=
  let socket := Socket.fresh in
  if negb (showRegistration st)
     && negb (bool_decide (u_username (userProfile st) = ""))
  then setSocketRef
         (Some (Socket.registerUser socket (withIdUsername (userProfile st))).1) st
  else setSocketRef (Some socket) st.

Definition handleOpenAdmin (ui : Ui) : Ui * list Emission :=
  let ui1 := onApp (λ st, setAdmin (adminMessages st) true st)
               (setShowAdminPanel true ui) in
  (ui1,
   match socketRef (app ui) with
   | Some sock => Socket.getAdminData sock (u_id (userProfile (app ui)))
   | None => []
   end).

(** The lists the render derives from the state. *)
Definition contactList (st : AppState) : list ChatPreview :=
  filter (λ c, truthy (c_isGroup c) = false ∧ c_id c ≠ "1" ∧ truthy (c_isBot c) = false)
    (chats st).

Definition visibleChats (ui : Ui) : list ChatPreview :=
  filter (λ c, bool_decide (c_id c ∈ archivedChatIds (view ui))
               = showArchiveView (view ui))
    (chats (app ui)).

End Rest.

(** ** The adapter's listeners ([services/ChatSocket.ts], [connect]) *)

(** What the relay can put on the wire towards a client, and the
    connection events of the transport. *)
Inductive WireIn :=
| W_connect
| W_disconnect
| W_connect_error
| W_INIT_STATE (users : option (list UserProfile))
| W_USER_JOINED (profile : UserProfile)
| W_NEW_MESSAGE (message : Message)
| W_MESSAGE_READ (chatId : string) (messageIds : list string) (readerId : string)
| W_USER_UPDATED (profile : UserProfile)
| W_REGISTRATION_SUCCESS (profile : UserProfile)
| W_REGISTRATION_ERROR (message : string)
| W_PROMO_RESULT (success : bool) (message : string)
| W_ADMIN_DATA (msgs : list Message).

Module Adapter.

Definition setConnected (b : bool) (s : ChatSocket) : ChatSocket :=
  {| connected := b; myUserId := myUserId s; myProfile := myProfile s |}.

(** [setUserId] *)
Definition setUserId (s : ChatSocket) (id : string) : ChatSocket :=
  {| connected := connected s; myUserId := Some id; myProfile := myProfile s |}.

(** [disconnect] *)
Definition disconnect (s : ChatSocket) : ChatSocket := setConnected false s.

(** The listeners installed by [connect]: the socket after the event, what
    it emits in answer, and what it notifies its subscribers of.  An event
    with no listener gives nothing. *)
Definition on (s : ChatSocket) (ev : WireIn)
  : ChatSocket * list Emission * list Notification :=
  match ev with
  | W_connect =>
      let s1 := setConnected true s in
      match myProfile s1 with
      | Some profile =>
          let '(s2, out) := Socket.registerUser s1 profile in
          (s2, out, [N_STATUS_CONNECTED])
      | None => (s1, Socket.announcePresence s1, [N_STATUS_CONNECTED])
      end
  | W_disconnect => (setConnected false s, [], [])
  | W_INIT_STATE (Some users) => (s, [], [N_USER_SYNC users])
  | W_USER_JOINED profile =>
      (s, [], if decide (Some (u_id profile) ≠ myUserId s)
              then [N_USER_JOINED profile] else [])
  | W_NEW_MESSAGE msg => (s, [], [N_NEW_MESSAGE msg])
  | W_MESSAGE_READ chatId messageIds readerId =>
      (s, [], [N_MESSAGE_READ chatId messageIds readerId])
  | _ => (s, [], [])
  end.

(** The message object of a [SEND_MESSAGE] emission, as the relay reads it:
    [{ ...msg, chatId, senderId }].  An emission whose chat id is undefined
    has no [Message] reading. *)
Definition wireMessage (e : Emission) : option Message :=
  match e with
  | SEND_MESSAGE msg (Some chatId) senderId _ =>
      Some {| m_id := m_id msg; m_chatId := chatId; m_text := m_text msg;
              m_sender := m_sender msg; m_senderId := senderId;
              m_timestamp := m_timestamp msg; m_status := m_status msg;
              m_type := m_type msg; m_mediaUrl := m_mediaUrl msg;
              m_fileName := m_fileName msg; m_fileSize := m_fileSize msg;
              m_duration := m_duration msg |}
  | _ => None
  end.

End Adapter.

(** The subscriber run over everything an inbound event makes the adapter
    notify. *)
Definition deliver `{!Platform} (st : AppState) (ev : WireIn) (now : Z) : AppState :=
  match socketRef st with
  | Some sock =>
      let '(sock', _, notes) := Adapter.on sock ev in
      foldl (λ s n, subscriber s n now) (setSocketRef (Some sock') st) notes
  | None => st
  end.

(** ** The rest of the relay ([server.js]) *)
Module Relay.
Import Server.

Inductive RegisterEvent :=
| REGISTRATION_ERROR (message : string)
| REGISTRATION_SUCCESS (profile : UserProfile)
| USER_JOINED (profile : UserProfile).

(** [SELECT * FROM users WHERE username = ? AND id != ?] finds a row. *)
Definition usernameTaken (db : Db) (username id : string) : bool :=
  bool_decide (map_Exists (λ k row, r_username row = username ∧ k ≠ id) (users db)).

(** [{ ...data.profile, isAdmin: !!isAdmin }] *)
Definition withAdmin (b : bool) (p : UserProfile) : UserProfile :=
  {| u_id := u_id p; u_name := u_name p; u_username := u_username p;
     u_phone := u_phone p; u_bio := u_bio p; u_avatarColor := u_avatarColor p;
     u_isPremium := u_isPremium p; u_isAdmin := Some b;
     u_privacy := u_privacy p |}.

(** The row [INSERT ... ON CONFLICT(id) DO UPDATE] leaves for [profile]:
    a new row is not premium, an existing one keeps its premium column. *)
Definition upserted (old : option UserRow) (profile : UserProfile) (isAdmin : Z)
  : UserRow :=
  {| r_id := u_id profile; r_username := u_username profile;
     r_name := u_name profile; r_bio := u_bio profile;
     r_phone := u_phone profile; r_avatarColor := u_avatarColor profile;
     r_isPremium := match old with Some row => r_isPremium row | None => 0 end;
     r_isAdmin := isAdmin |}.

(** [socket.on('REGISTER', ...)] *)
Definition register (db : Db) (profile : UserProfile)
  : Db * list (Target * RegisterEvent) :=
  if usernameTaken db (u_username profile) (u_id profile)
  then (db, [(ToSender, REGISTRATION_ERROR "Username is already taken.")])
  else
    let isAdmin := if decide (u_username profile = "kyamich") then 1 else 0 in
    let row := upserted (users db !! u_id profile) profile isAdmin in
    let answer := withAdmin (toBool isAdmin) profile in
    ({| users := <[u_id profile := row]> (users db);
        messages := messages db;
        promo_codes := promo_codes db;
        user_promo_usage := user_promo_usage db |},
     [(ToSender, REGISTRATION_SUCCESS answer); (Broadcast, USER_JOINED answer)]).

(** [socket.on('ADMIN_GET_ALL_DATA', ...)]: the rows of [messages], for an
    admin only. *)
Definition adminGetAllData (db : Db) (userId : string) : option (list Message) :=
  match users db !! userId with
  | Some row =>
      if toBool (r_isAdmin row) then Some ((map_to_list (messages db)).*2)
      else None
  | None => None
  end.


(** The requests a client can make that change the tables. *)
Inductive Request :=
| RqRegister (profile : UserProfile)
| RqRedeem (userId code : string)
| RqSend (msg : Message).

Definition serve (db : Db) (rq : Request) : Db :=
  match rq with
  | RqRegister profile => (register db profile).1
  | RqRedeem userId code => (redeemPromo db userId code).1
  | RqSend msg => (sendMessage db msg).1
  end.

End Relay.

(** A reference instance of the texts: English strings, ASCII built-ins
    left as the identity. *)
Module RefTexts.

#[global] Instance texts : Texts :=
  {| contactCreated := "Contact created";
     groupInfoUpdated := "Group info updated";
     wasAdded := "was added";
     group := "Group";
     trim := λ s, s;
     toLowerCase := λ s, s |}.

Definition noView : ViewState :=
  {| archivedChatIds := ∅; showArchiveView := false; showCallsView := false;
     showPremiumModal := false; showAdminPanel := false |}.

Definition ui (username : string) (isConnected : bool) : Ui :=
  {| app := Ref.session username isConnected; view := noView |}.

End RefTexts.

(** ** Further derived notions *)

(** No two rows of the users table have the same username. *)
Definition uniqueUsernames (db : Server.Db) : Prop :=
  ∀ k1 k2 r1 r2,
    Server.users db !! k1 = Some r1 → Server.users db !! k2 = Some r2 →
    Server.r_username r1 = Server.r_username r2 → k1 = k2.

(** The number of users recorded as having used [code]. *)
Definition redemptions (db : Server.Db) (code : string) : nat :=
  size (filter (λ p, p.2 = code) (Server.user_promo_usage db)).

(** The tables after a sequence of requests served from the start. *)
Definition served (rqs : list Relay.Request) : Server.Db :=
  foldl Relay.serve Server.initializeDatabase rqs.

(** The promo table holds welcome10 alone, its counter counting its users. *)
Definition promoCounted (db : Server.Db) : Prop :=
  (∃ promo, Server.promo_codes db !! "welcome10" = Some promo
            ∧ Server.current_uses promo = Z.of_nat (redemptions db "welcome10")
            ∧ Server.max_uses promo = 999999)
  ∧ ∀ code, code ≠ "welcome10" → Server.promo_codes db !! code = None.


(** * The handlers inside the running component

    A handler reads [userProfile], [activeChatId] and [chats] from the
    render that created it, while the functional updaters it queues run
    later, on the state that is current then.  The socket subscriber is
    created by the effect with dependencies
    [[userProfile.id, showRegistration]] and the timer of a bot reply by
    the send: both keep the values of their render ([closure] below) while
    the state ([prev]) moves on.  The definitions of the same name above
    are these with [closure] and [prev] the same state, which is how a
    handler called from the current render runs, and with every object
    lookup finding an own property or nothing. *)

(** ** Objects used as dictionaries

    [messages] and [userDirectoryRef.current] are plain objects: a key the
    object does not own is looked up in [Object.prototype].  A finite map
    holds the own properties. *)
Module Js.

(** The property names of [Object.prototype]. *)
Definition prototypeMembers : list string :=
  ["constructor"; "__proto__"; "hasOwnProperty"; "isPrototypeOf";
   "propertyIsEnumerable"; "toLocaleString"; "toString"; "valueOf";
   "__defineGetter__"; "__defineSetter__"; "__lookupGetter__";
   "__lookupSetter__"].

Definition inherited (k : string) : bool := bool_decide (k ∈ prototypeMembers).

(** What [d[k]] evaluates to: an own value, a member of [Object.prototype]
    (a function, or the prototype itself for ['__proto__']; truthy, and
    neither iterable nor an array), or [undefined]. *)
Inductive Slot (A : Type) :=
| Own (v : A)
| Inherited
| Undefined.
Arguments Own {A} v.
Arguments Inherited {A}.
Arguments Undefined {A}.

Definition get {A} (d : gmap string A) (k : string) : Slot A :=
  match d !! k with
  | Some v => Own v
  | None => if inherited k then Inherited else Undefined
  end.

(** [{ ...d, [k]: [...(d[k] || []), x] }]; [None] is the TypeError of
    spreading a value that is not iterable. *)
Definition append {A} (d : gmap string (list A)) (k : string) (x : A)
  : option (gmap string (list A)) :=
  match get d k with
  | Own l => Some (<[k := l ++ [x]]> d)
  | Undefined => Some (<[k := [x]]> d)
  | Inherited => None
  end.

End Js.

(** What the updaters queued by a handler come to.
    - [Updated st]: they return, and [st] is the next state;
    - [Throws st]: one of them throws a TypeError when React runs it, so
      the state updates of the handler are not applied; [st] is the state
      with what the handler did outside React state (storage, refs);
    - [Untyped]: they return, but the chat preview they build has a [name]
      or a [color] that is [undefined], which [ChatPreview] cannot hold. *)
Inductive Outcome :=
| Updated (st : AppState)
| Throws (st : AppState)
| Untyped.

Definition andThen (o : Outcome) (f : AppState → Outcome) : Outcome :=
  match o with
  | Updated st => f st
  | other => other
  end.

(** The own properties of a profile object, by truthiness ([None]: the
    object has no such property). *)
Definition profileField (u : UserProfile) (k : string) : option bool :=
  let nonEmpty := λ s : string, negb (bool_decide (s = "")) in
  if decide (k = "id") then Some (nonEmpty (u_id u))
  else if decide (k = "name") then Some (nonEmpty (u_name u))
  else if decide (k = "username") then Some (nonEmpty (u_username u))
  else if decide (k = "phone") then Some (nonEmpty (u_phone u))
  else if decide (k = "bio") then Some (nonEmpty (u_bio u))
  else if decide (k = "avatarColor") then Some (nonEmpty (u_avatarColor u))
  else if decide (k = "isPremium") then u_isPremium u
  else if decide (k = "isAdmin") then u_isAdmin u
  else if decide (k = "privacy") then (λ _, true) <$> u_privacy u
  else None.

(** [userDirectoryRef.current[k]], as [handleIncomingMessage] uses it: a
    profile, a falsy value, or a truthy value that is no profile (its
    [avatarColor] is [undefined]).  The directory is written by assignment,
    [directory[u.username] = u], and an assignment to ['__proto__'] creates
    no property: it makes [u] the prototype of the directory, which the map
    records under that key; a key the directory does not own is then looked
    up in [u] before [Object.prototype]. *)
Inductive SenderInfo :=
| Profile (p : UserProfile)
| Falsy
| Opaque.

Definition senderInfo (d : gmap string UserProfile) (k : string) : SenderInfo :=
  match d !! k with
  | Some p => Profile p
  | None =>
      match d !! "__proto__" ≫= (λ u, profileField u k) with
      | Some true => Opaque
      | Some false => Falsy
      | None => if Js.inherited k then Opaque else Falsy
      end
  end.

Module Live.
Section Handlers.
Context `{!Platform}.

(** [loadChatsForUser]; [initial] is what the module-level array
    [INITIAL_CHATS] holds at the time of the call (the function returns the
    array itself, and [handleSendMessage] changes in place what it gets
    back). *)
Definition loadChatsForUser (initial : list ChatPreview)
    (ls : gmap string string) (userId : string) : list ChatPreview :=
  match ls !! (CHATS_PREFIX +:+ userId) with
  | Some saved =>
      if decide (saved = "") then initial
      else match JSON_parse saved with
           | Some l => l
           | None => initial
           end
  | None => initial
  end.

Definition handleIncomingMessage (closure prev : AppState) (msg : Message)
  : Outcome :=
  let target := targetChatId closure msg in
  match Js.append (messages prev) target msg with
  | None => Throws prev
  | Some stored =>
      let st1 := setMessages (λ _, stored) prev in
      match list_find (λ c, c_id c = target) (chats prev) with
      | None =>
          match senderInfo (userDirectoryRef prev) target with
          | Opaque => Untyped
          | _ => Updated (setChats (λ p, newChat prev target msg :: p) st1)
          end
      | Some (chatIndex, chat) =>
          let isActive := bool_decide (activeChatId closure = Some target) in
          let updatedChat :=
            withUnread (if isActive then c_unreadCount chat
                        else c_unreadCount chat + 1)
              (withLast (m_text msg) (m_timestamp msg) (m_sender msg) chat) in
          Updated (setChats (λ p, updatedChat :: delete chatIndex p) st1)
      end
  end.

Definition handleReadReceipt (closure prev : AppState) (chatId : string)
    (messageIds : list string) (readerId : string) : Outcome :=
  let potentialGroup :=
    find (λ c, bool_decide (c_id c = chatId) && truthy (c_isGroup c))
      (chats closure) in
  let targetLocalChatId :=
    match potentialGroup with Some _ => chatId | None => readerId end in
  match Js.get (messages prev) targetLocalChatId with
  | Js.Undefined => Updated prev
  | Js.Inherited => Throws prev
  | Js.Own currentList =>
      let needsUpdate :=
        existsb (λ m, includes messageIds (m_id m)
                      && negb (bool_decide (m_status m = read))) currentList in
      if needsUpdate
      then Updated (setMessages
                      (<[targetLocalChatId := markIds messageIds currentList]>)
                      prev)
      else Updated prev
  end.

Definition handleUserSync (closure prev : AppState) (users : list UserProfile)
    (now : Z) : AppState :=
  let st1 := setDirectory
    (λ d, foldl (λ d u, <[u_username u := u]> d) d users) prev in
  setChats (λ p,
    let '(newChats, changed) :=
      foldl (syncStep (u_username (userProfile closure)) now) (p, false) users in
    if changed then newChats else p) st1.

Definition handleNewUserJoined (closure prev : AppState) (profile : UserProfile)
    (now : Z) : AppState :=
  let st1 := setDirectory (λ d, <[u_username profile := profile]> d) prev in
  if decide (u_username profile = u_username (userProfile closure)) then st1
  else
    match find (hasUsername (u_username profile)) (chats st1) with
    | Some _ => st1
    | None =>
        setChats (λ p, newContact profile now :: p)
          (setMessages
             (λ mPrev, <[u_username profile := [systemMsg profile now]]> mPrev)
             st1)
    end.

(** The listener the effect passes to [socket.subscribe]. *)
Definition subscriber (closure prev : AppState) (data : Notification) (now : Z)
  : Outcome :=
  match data with
  | N_NEW_MESSAGE msg =>
      if decide (m_senderId msg ≠ Some (u_username (userProfile closure)))
      then handleIncomingMessage closure prev msg
      else Updated prev
  | N_USER_JOINED profile => Updated (handleNewUserJoined closure prev profile now)
  | N_USER_SYNC users => Updated (handleUserSync closure prev users now)
  | N_MESSAGE_READ chatId messageIds readerId =>
      handleReadReceipt closure prev chatId messageIds readerId
  | N_USER_UPDATED profile =>
      if decide (u_id profile = u_id (userProfile closure))
      then Updated
             (setAccounts
                (λ p, (λ acc, if decide (u_id acc = u_id profile)
                              then mergeProfile acc profile else acc) <$> p)
                (setUserProfile (λ p, mergeProfile p profile) prev))
      else Updated prev
  | N_ADMIN_DATA msgs => Updated (setAdmin msgs false prev)
  | N_STATUS_CONNECTED => Updated prev
  end.

(** The subscriber run over what an inbound event makes the adapter
    notify. *)
Definition deliver (closure prev : AppState) (ev : WireIn) (now : Z) : Outcome :=
  match socketRef prev with
  | Some sock =>
      let '(sock', _, notes) := Adapter.on sock ev in
      foldl (λ o n, andThen o (λ s, subscriber closure s n now))
        (Updated (setSocketRef (Some sock') prev)) notes
  | None => Updated prev
  end.

(** The continuation of the timer of [simulateTypingAndSend], followed by
    the [finally] clause of [generateBotResponse]; [closure] is the render
    of the send. *)
Definition fireReply (closure prev : AppState) (pr : PendingReply) (now : Z)
  : Outcome :=
  andThen (handleIncomingMessage closure prev (botMsg pr now))
    (λ s, Updated (setTypingMap (λ p, <[pr_chatId pr := false]> p) s)).

(** One turn of [accounts.forEach] in [handleRegistrationComplete]: the
    storage after it and the join messages whose updaters are queued so
    far; [rnd] is the text of the [Math.random()] this turn appends to the
    message id. *)
Definition notifyExisting (initial : list ChatPreview) (name username : string)
    (now : Z) (acc : gmap string string * list Message)
    (turn : UserProfile * string) : gmap string string * list Message :=
  let '(ls, queued) := acc in
  let '(existingAcc, rnd) := turn in
  let existingChats := loadChatsForUser initial ls (u_id existingAcc) in
  match find (λ c, bool_decide (c_id c = username)) existingChats with
  | Some _ => acc
  | None =>
      let joinMsg := plainMessage (toString now +:+ rnd) username contactJoined
                       them (Some "system") now read in
      (saveChatsForUser (u_id existingAcc)
         (newcomerChat name username now :: existingChats) ls,
       queued ++ [joinMsg])
  end.

(** The queued [setMessages] updaters, run in order. *)
Definition fileAll (username : string) (queued : list Message)
    (msgs : gmap string (list Message)) : option (gmap string (list Message)) :=
  foldl (λ o m, o ≫= (λ d, Js.append d username m)) (Some msgs) queued.

(** [handleRegistrationComplete]; [rnd i] is what [Math.random()] prints in
    the turn of the [i]-th account.  The storage writes and the REGISTER
    emission are done by the handler itself, before React runs any
    updater. *)
Definition handleRegistrationComplete (initial : list ChatPreview)
    (st : AppState) (name username : string) (now : Z) (rnd : nat → string)
  : Outcome * list Emission :=
  let newProfile := registeredProfile name username in
  let '(ls, queued) :=
    foldl (notifyExisting initial name username now)
      (localStorage st, [])
      (zip (accounts st) (rnd <$> seq 0 (length (accounts st)))) in
  let '(ref, out) :=
    match socketRef st with
    | Some sock =>
        let '(sock', out) := Socket.registerUser sock newProfile in
        (Some sock', out)
    | None => (None, [])
    end in
  let done := setSocketRef ref
                (setLocalStorage (λ _, <[REGISTRATION := "true"]> ls) st) in
  match fileAll username queued (messages st) with
  | None => (Throws done, out)
  | Some msgs =>
      (Updated
         (setShowRegistration false
            (setChats (λ _, initial)
               (setUserProfile (λ _, newProfile)
                  (setAccounts (λ _, accounts st ++ [newProfile])
                     (setMessages (λ _, msgs) done))))),
       out)
  end.

End Handlers.
End Live.

(** ** Further notions used to state the properties *)

(** The lookups [handleIncomingMessage] makes for the conversation
    [target] find own properties or nothing: none falls through to a member
    of a prototype. *)
Definition plainTarget (st : AppState) (target : string) : Prop :=
  Js.get (messages st) target ≠ Js.Inherited
  ∧ senderInfo (userDirectoryRef st) target ≠ Opaque.

(** The stored chat list of [acc] has no chat with id [username]: the test
    [!existingChats.find(c => c.id === username)] of
    [handleRegistrationComplete]. *)
Definition lacksChat `{!Platform} (initial : list ChatPreview)
    (ls : gmap string string) (username : string) (acc : UserProfile) : bool :=
  match find (λ c, bool_decide (c_id c = username))
          (Live.loadChatsForUser initial ls (u_id acc)) with
  | Some _ => false
  | None => true
  end.

(** A join notice filed under [username]. *)
Definition isJoinNotice `{!Platform} (username : string) (m : Message) : Prop :=
  m_chatId m = username ∧ m_text m = contactJoined
  ∧ m_senderId m = Some "system" ∧ m_status m = read.

(** The state an outcome leaves, when it leaves one. *)
Definition stateOf (o : Outcome) : option AppState :=
  match o with
  | Updated st | Throws st => Some st
  | Untyped => None
  end.

(** * Properties *)

(** ** Basic facts about the JavaScript idioms and the state setters *)

Lemma or_else_present (s d : string) : s ≠ "" → or_else (Some s) d = s.
Proof. intros Hs. unfold or_else. by destruct (decide (s = "")). Qed.

Lemma or_else_absent (d : string) : or_else None d = d.
Proof. reflexivity. Qed.

Lemma or_else_empty (d : string) : or_else (Some "") d = d.
Proof. reflexivity. Qed.

Lemma get_or_nil_insert {A} (d : gmap string (list A)) (k : string) (l : list A) :
  get_or_nil (<[k := l]> d) k = l.
Proof. unfold get_or_nil. by rewrite lookup_insert_eq. Qed.

Lemma list_find_id_eq (target : string) (l : list ChatPreview) i c :
  list_find (λ c, c_id c = target) l = Some (i, c) → c_id c = target ∧ l !! i = Some c.
Proof. intros (? & ? & _)%list_find_Some. done. Qed.

Lemma includes_true (ids : list string) (x : string) :
  includes ids x = true ↔ x ∈ ids.
Proof. unfold includes. by rewrite bool_decide_eq_true. Qed.

(** ** Inbound message routing *)

Section Routing.
Implicit Types (st : AppState) (msg : Message).

Lemma targetChatId_self st msg :
  m_chatId msg = u_username (userProfile st) →
  targetChatId st msg = or_else (m_senderId msg) "unknown".
Proof. intros H. unfold targetChatId. by rewrite decide_True. Qed.

Lemma targetChatId_other st msg :
  m_chatId msg ≠ u_username (userProfile st) →
  targetChatId st msg = m_chatId msg.
Proof. intros H. unfold targetChatId. by rewrite decide_False. Qed.

Lemma incoming_messages st msg :
  messages (handleIncomingMessage st msg)
  = <[targetChatId st msg :=
        get_or_nil (messages st) (targetChatId st msg) ++ [msg]]> (messages st).
Proof. reflexivity. Qed.

Lemma incoming_chats_new st msg :
  list_find (λ c, c_id c = targetChatId st msg) (chats st) = None →
  chats (handleIncomingMessage st msg)
  = newChat st (targetChatId st msg) msg :: chats st.
Proof. intros H. unfold handleIncomingMessage. simpl. by rewrite H. Qed.

Lemma incoming_chats_existing st msg i C :
  list_find (λ c, c_id c = targetChatId st msg) (chats st) = Some (i, C) →
  chats (handleIncomingMessage st msg)
  = withUnread (if bool_decide (activeChatId st = Some (targetChatId st msg))
                then c_unreadCount C else c_unreadCount C + 1)
      (withLast (m_text msg) (m_timestamp msg) (m_sender msg) C)
    :: delete i (chats st).
Proof. intros H. unfold handleIncomingMessage. simpl. by rewrite H. Qed.

(** C1, as the spec words it, fails: a message addressed to the local
    account whose sender id is absent (or empty) is routed to the
    conversation ["unknown"], which is not its sender id. *)
Lemma incoming_target_not_sender :
  let st := Ref.session "alice" true in
  let anonymous := Ref.textFrom "m1" "alice" None "hi" in
  let blank := Ref.textFrom "m2" "alice" (Some "") "hi" in
  (m_chatId anonymous = u_username (userProfile st)
   ∧ targetChatId st anonymous = "unknown"
   ∧ Some (targetChatId st anonymous) ≠ m_senderId anonymous)
  ∧ (m_chatId blank = u_username (userProfile st)
     ∧ targetChatId st blank = "unknown"
     ∧ Some (targetChatId st blank) ≠ m_senderId blank).
Proof. vm_compute. repeat split; congruence. Qed.

(** *** The handler with its closure *)

Lemma js_get_own {A} (d : gmap string A) (k : string) (v : A) :
  d !! k = Some v → Js.get d k = Js.Own v.
Proof. intros H. unfold Js.get. by rewrite H. Qed.

Lemma js_get_inherited {A} (d : gmap string A) (k : string) :
  d !! k = None → Js.inherited k = true → Js.get d k = Js.Inherited.
Proof. intros H Hk. unfold Js.get. by rewrite H, Hk. Qed.

Lemma js_get_undefined {A} (d : gmap string A) (k : string) :
  d !! k = None → Js.inherited k = false → Js.get d k = Js.Undefined.
Proof. intros H Hk. unfold Js.get. by rewrite H, Hk. Qed.

Lemma js_get_not_inherited {A} (d : gmap string A) (k : string) :
  Js.get d k ≠ Js.Inherited ↔ is_Some (d !! k) ∨ Js.inherited k = false.
Proof.
  unfold Js.get. destruct (d !! k) as [v|]; [|destruct (Js.inherited k)].
  - split; [by left; eexists | done].
  - split; [done | by intros [[? ?] | ?]].
  - split; [by right | done].
Qed.

Lemma js_append_plain {A} (d : gmap string (list A)) (k : string) (x : A) :
  Js.get d k ≠ Js.Inherited →
  Js.append d k x = Some (<[k := get_or_nil d k ++ [x]]> d).
Proof.
  unfold Js.append, Js.get, get_or_nil.
  destruct (d !! k) as [l|]; [done|]. by destruct (Js.inherited k).
Qed.

Lemma js_append_throws {A} (d : gmap string (list A)) (k : string) (x : A) :
  d !! k = None → Js.inherited k = true → Js.append d k x = None.
Proof. intros H Hk. unfold Js.append. by rewrite js_get_inherited. Qed.

(** A key that names no member of [Object.prototype], looked up in a
    directory whose prototype was never replaced. *)
Lemma plain_key st (k : string) :
  Js.inherited k = false → userDirectoryRef st !! "__proto__" = None →
  plainTarget st k.
Proof.
  intros Hk Hproto. split.
  - apply js_get_not_inherited. by right.
  - unfold senderInfo. destruct (userDirectoryRef st !! k); [done|].
    by rewrite Hproto, Hk.
Qed.

(** A conversation the store holds, for a chat that is in the list. *)
Lemma own_key_plain (d : gmap string (list Message)) (k : string) l :
  d !! k = Some l → Js.get d k ≠ Js.Inherited.
Proof. intros H. by rewrite (js_get_own _ _ _ H). Qed.

Lemma live_incoming_throws closure st msg :
  messages st !! targetChatId closure msg = None →
  Js.inherited (targetChatId closure msg) = true →
  Live.handleIncomingMessage closure st msg = Throws st.
Proof.
  intros Hnone Hk. unfold Live.handleIncomingMessage.
  by rewrite js_append_throws.
Qed.

Lemma live_incoming_new closure st msg :
  let target := targetChatId closure msg in
  plainTarget st target →
  list_find (λ c, c_id c = target) (chats st) = None →
  Live.handleIncomingMessage closure st msg
  = Updated
      (setChats (λ p, newChat st target msg :: p)
         (setMessages
            (λ p, <[target := get_or_nil p target ++ [msg]]> p) st)).
Proof.
  intros target [Hm Hd] Hfind. unfold Live.handleIncomingMessage. fold target.
  rewrite js_append_plain, Hfind by done.
  by destruct (senderInfo (userDirectoryRef st) target).
Qed.

Lemma live_incoming_existing closure st msg i C :
  let target := targetChatId closure msg in
  Js.get (messages st) target ≠ Js.Inherited →
  list_find (λ c, c_id c = target) (chats st) = Some (i, C) →
  Live.handleIncomingMessage closure st msg
  = Updated
      (setChats
         (λ p, withUnread (if bool_decide (activeChatId closure = Some target)
                           then c_unreadCount C else c_unreadCount C + 1)
                 (withLast (m_text msg) (m_timestamp msg) (m_sender msg) C)
               :: delete i p)
         (setMessages
            (λ p, <[target := get_or_nil p target ++ [msg]]> p) st)).
Proof.
  intros target Hm Hfind. unfold Live.handleIncomingMessage. fold target.
  by rewrite js_append_plain, Hfind by done.
Qed.

(** Called from the current render, on a conversation whose lookups find
    own properties or nothing, the handler is the one-state
    [handleIncomingMessage]. *)
Lemma live_incoming_current st msg :
  plainTarget st (targetChatId st msg) →
  Live.handleIncomingMessage st st msg = Updated (handleIncomingMessage st msg).
Proof.
  intros Hplain.
  destruct (list_find (λ c, c_id c = targetChatId st msg) (chats st))
    as [[i C]|] eqn:Hfind.
  - rewrite (live_incoming_existing st st msg i C) by (done || apply Hplain).
    unfold handleIncomingMessage, setChats, setMessages. cbn. by rewrite Hfind.
  - rewrite live_incoming_new by done.
    unfold handleIncomingMessage, setChats, setMessages. cbn. by rewrite Hfind.
Qed.

Lemma live_joined_current `{!Platform} st profile now :
  Live.handleNewUserJoined st st profile now = handleNewUserJoined st profile now.
Proof. reflexivity. Qed.

Lemma live_sync_current st users now :
  Live.handleUserSync st st users now = handleUserSync st users now.
Proof. reflexivity. Qed.

Lemma live_load_initial `{!Platform} (ls : gmap string string) (userId : string) :
  Live.loadChatsForUser INITIAL_CHATS ls userId = loadChatsForUser ls userId.
Proof. reflexivity. Qed.

(** A message addressed to the local account by a peer whose id is
    ["constructor"], in a session that holds no conversation with that
    peer: the state update throws, nothing is filed and no chat is
    created. *)
Lemma incoming_constructor_throws :
  let st := Ref.session "alice" true in
  let msg := Ref.textFrom "m1" "alice" (Some "constructor") "hi" in
  targetChatId st msg = "constructor"
  ∧ Live.handleIncomingMessage st st msg = Throws st.
Proof.
  intros st msg. split; [reflexivity|].
  apply live_incoming_throws; reflexivity.
Qed.

(** C1 (amended): a message whose conversation id is the username the
    handler's render holds is routed to its sender id when that id is
    present and not empty, and to ["unknown"] otherwise; any other message
    is routed to its own conversation id.  When the lookups of the routed
    id in the message store and in the user directory find own properties
    or nothing (they do not fall through to a member of a prototype, as
    they would for an id such as ["constructor"] that the store does not
    hold), the message is appended to the routed conversation, and when no
    chat has the routed id a new preview with that id is put at the front
    of the chat list, the rest unchanged. *)
Theorem incoming_routing closure st msg :
  let target := targetChatId closure msg in
  (m_chatId msg = u_username (userProfile closure) →
     (∀ s, m_senderId msg = Some s → s ≠ "" → target = s)
     ∧ (m_senderId msg = None ∨ m_senderId msg = Some "" → target = "unknown"))
  ∧ (m_chatId msg ≠ u_username (userProfile closure) → target = m_chatId msg)
  ∧ (plainTarget st target →
       ∃ st', Live.handleIncomingMessage closure st msg = Updated st'
         ∧ messages st' !! target
           = Some (get_or_nil (messages st) target ++ [msg])
         ∧ (Forall (λ c, c_id c ≠ target) (chats st) →
              ∃ c, chats st' = c :: chats st
                   ∧ c_id c = target
                   ∧ c_unreadCount c = 1
                   ∧ c_lastMessage c = m_text msg)).
Proof.
  intros target. split_and!.
  - intros Hself. subst target. rewrite targetChatId_self by done. split.
    + intros s -> Hs. by apply or_else_present.
    + by intros [-> | ->].
  - apply targetChatId_other.
  - intros Hplain.
    destruct (list_find (λ c, c_id c = target) (chats st)) as [[i C]|] eqn:Hfind.
    + eexists. split;
        [apply (live_incoming_existing closure st msg i C); [apply Hplain | done]|].
      split; [apply lookup_insert_eq|].
      intros Hnone. apply list_find_Some in Hfind as (Hi & Hid & _).
      rewrite list.Forall_forall in Hnone.
      destruct (Hnone C); [by eapply list_elem_of_lookup_2 | done].
    + eexists. split; [by apply live_incoming_new|].
      split; [apply lookup_insert_eq|].
      intros _. eexists. split_and!; done.
Qed.

Lemma incoming_routing_witness :
  let st := Ref.session "alice" true in
  let msg := Ref.textFrom "m1" "alice" (Some "bob") "hi" in
  targetChatId st msg = "bob"
  ∧ ∃ st' c, Live.handleIncomingMessage st st msg = Updated st'
             ∧ chats st' = c :: chats st ∧ c_id c = "bob".
Proof.
  intros st msg.
  destruct (incoming_routing st st msg) as (Hself & _ & Hfile).
  split.
  - apply (proj1 (Hself eq_refl) "bob"); [reflexivity | discriminate].
  - destruct Hfile as (st' & Hst' & _ & Hnew).
    + apply plain_key; reflexivity.
    + destruct Hnew as (c & Hc & Hid & _).
      * repeat constructor; vm_compute; discriminate.
      * exists st', c. split; [exact Hst'|]. split; [exact Hc | exact Hid].
Defined.

(** The unread counter of an existing conversation is decided by the
    [activeChatId] of the render that created the handler. *)
Lemma live_incoming_unread closure st msg i C :
  let target := targetChatId closure msg in
  Js.get (messages st) target ≠ Js.Inherited →
  list_find (λ c, c_id c = target) (chats st) = Some (i, C) →
  ∃ st' C', Live.handleIncomingMessage closure st msg = Updated st'
    ∧ chats st' = C' :: delete i (chats st)
    ∧ c_id C' = target
    ∧ c_lastMessage C' = m_text msg
    ∧ c_unreadCount C'
      = (if bool_decide (activeChatId closure = Some target)
         then c_unreadCount C else c_unreadCount C + 1)
    ∧ activeChatId st' = activeChatId st
    ∧ messages st' !! target = Some (get_or_nil (messages st) target ++ [msg]).
Proof.
  intros target Hm Hfind.
  eexists _, _. split; [by apply (live_incoming_existing closure st msg i C)|].
  split; [reflexivity|]. simpl.
  destruct (list_find_id_eq _ _ _ _ Hfind) as [Hid _].
  split_and!; try done. apply lookup_insert_eq.
Qed.

(** C2 (code bug): the subscriber of a session mounted with no active
    conversation keeps the [activeChatId] of that render.  The user opens
    the chat with bob (its counter is 0) and a message from bob arrives:
    the chat is the active one, and its unread counter becomes 1. *)
Theorem stale_active_chat_counts_unread :
  let mounted := Ref.session "alice" true in
  let joined := Live.handleNewUserJoined mounted mounted (Ref.profile "bob") 3 in
  let opened := handleSelectChat joined "bob" in
  let msg := Ref.textFrom "m1" "alice" (Some "bob") "hi" in
  (∃ i C, list_find (λ c, c_id c = "bob") (chats opened) = Some (i, C)
          ∧ c_unreadCount C = 0)
  ∧ activeChatId opened = Some "bob"
  ∧ ∃ st' C' rest,
      Live.subscriber mounted opened (N_NEW_MESSAGE msg) 7 = Updated st'
      ∧ activeChatId st' = Some "bob"
      ∧ chats st' = C' :: rest
      ∧ c_id C' = "bob"
      ∧ c_unreadCount C' = 1.
Proof.
  intros mounted joined opened msg. split_and!.
  - eexists _, _. split; reflexivity.
  - reflexivity.
  - unfold Live.subscriber. rewrite decide_True by discriminate.
    destruct (live_incoming_unread mounted opened msg 0%nat
                (withUnread 0 (newContact (Ref.profile "bob") 3)))
      as (st' & C' & Hst' & Hchats & Hid & _ & Hunread & Hactive & _).
    + apply own_key_plain with (l := [systemMsg (Ref.profile "bob") 3]).
      reflexivity.
    + reflexivity.
    + exists st', C', (delete 0%nat (chats opened)).
      split; [exact Hst'|]. split; [by rewrite Hactive|].
      split; [exact Hchats|]. split; [exact Hid|].
      rewrite Hunread. reflexivity.
Qed.

End Routing.

(** ** Read receipts *)

Section ReadReceipts.
Implicit Types (st : AppState) (m : Message) (l : list Message).

Lemma filter_none {A} (P : A → Prop) `{∀ x, Decision (P x)} (l : list A) :
  Forall (λ x, ¬ P x) l → filter P l = [].
Proof.
  induction 1 as [|x l Hx _ IH]; [done|].
  by rewrite filter_cons_False.
Qed.

Lemma markRead_not_unread st m : isUnread st (markRead m) = false.
Proof.
  unfold isUnread. replace (m_status (markRead m)) with read by done.
  rewrite bool_decide_eq_true_2 by done. apply andb_false_r.
Qed.

(** Once the ids of all unread messages of a list are marked, the list
    holds no unread message. *)
Lemma markIds_clears st l :
  filter (λ m, isUnread st m = true)
    (markIds (m_id <$> filter (λ m, isUnread st m = true) l) l) = [].
Proof.
  apply filter_none, list.Forall_forall. intros m' Hin.
  unfold markIds in Hin. apply list_elem_of_fmap in Hin as (m & -> & Hm).
  destruct (includes _ (m_id m)) eqn:Hinc.
  - rewrite markRead_not_unread. done.
  - intros Hun. apply not_true_iff_false in Hinc. apply Hinc.
    apply includes_true, list_elem_of_fmap. exists m. split; [done|].
    by apply list_elem_of_filter.
Qed.

Lemma readReceiptsEffect_acts st active sock :
  activeChatId st = Some active → active ≠ "" →
  socketRef st = Some sock →
  filter (λ m, isUnread st m = true) (get_or_nil (messages st) active) ≠ [] →
  readReceiptsEffect st
  = (afterReceipt st active,
     Socket.sendReadReceipt sock active
       (m_id <$> filter (λ m, isUnread st m = true)
                   (get_or_nil (messages st) active))).
Proof.
  intros Ha Hne Hs Hun. unfold readReceiptsEffect. rewrite Ha, Hs.
  rewrite decide_False by done.
  rewrite bool_decide_eq_true_2; [done|].
  destruct (filter _ _); [done | simpl; lia].
Qed.

Lemma readReceiptsEffect_idle st active :
  activeChatId st = Some active →
  filter (λ m, isUnread st m = true) (get_or_nil (messages st) active) = [] →
  readReceiptsEffect st = (st, []).
Proof.
  intros Ha Hun. unfold readReceiptsEffect. rewrite Ha.
  destruct (socketRef st); [|done].
  destruct (decide (active = "")); [done|].
  by rewrite Hun.
Qed.

Lemma afterReceipt_idle st active :
  activeChatId st = Some active →
  readReceiptsEffect (afterReceipt st active) = (afterReceipt st active, []).
Proof.
  intros Ha. apply (readReceiptsEffect_idle _ active); [done|].
  unfold afterReceipt. simpl. rewrite get_or_nil_insert.
  apply (markIds_clears st).
Qed.

(** C3, as the spec words it, fails: with the adapter disconnected,
    opening a conversation that holds an unread message marks it read and
    emits nothing, neither then nor on any later run of the effect. *)
Lemma receipt_lost_when_disconnected :
  let st := handleIncomingMessage (Ref.session "alice" false)
              (Ref.textFrom "m1" "alice" (Some "bob") "hi") in
  let opened := handleSelectChat st "bob" in
  filter (λ m, isUnread st m = true) (get_or_nil (messages st) "bob")
  = [Ref.textFrom "m1" "alice" (Some "bob") "hi"]
  ∧ (readReceiptsEffect opened).2 = []
  ∧ (readReceiptsEffect (readReceiptsEffect opened).1).2 = []
  ∧ m_status <$> get_or_nil (messages (readReceiptsEffect opened).1) "bob" = [read].
Proof. vm_compute. done. Qed.

(** C3 (amended): when conversation [C] (with a non-empty id) holds at
    least one message that is neither the local user's nor read, making
    [C] active and running the read-receipt effect hands the adapter one
    receipt with the ids of all those messages, in order: with the adapter
    connected exactly one [MESSAGE_READ] for [C] is emitted, with the
    adapter disconnected nothing is; either way every message of [C] is
    then read or the user's own, and running the effect again emits
    nothing and changes nothing. *)
Theorem open_emits_one_receipt st C sock :
  C ≠ "" →
  socketRef st = Some sock →
  filter (λ m, isUnread st m = true) (get_or_nil (messages st) C) ≠ [] →
  let opened := handleSelectChat st C in
  let unreadIds := m_id <$> filter (λ m, isUnread st m = true)
                              (get_or_nil (messages st) C) in
  (readReceiptsEffect opened).2
  = (if connected sock then [MESSAGE_READ C unreadIds (myUserId sock)] else [])
  ∧ Forall (λ m, isUnread st m = false)
      (get_or_nil (messages (readReceiptsEffect opened).1) C)
  ∧ readReceiptsEffect (readReceiptsEffect opened).1
    = ((readReceiptsEffect opened).1, []).
Proof.
  intros HC Hs Hun opened unreadIds.
  assert (Hact : readReceiptsEffect opened
                 = (afterReceipt opened C, Socket.sendReadReceipt sock C unreadIds)).
  { apply readReceiptsEffect_acts; done. }
  rewrite Hact. simpl. split_and!.
  - done.
  - rewrite get_or_nil_insert. apply list.Forall_forall. intros m Hm.
    apply not_true_is_false. intros Hu.
    pose proof (markIds_clears st (get_or_nil (messages st) C)) as Hclr.
    exact (filter_nil_not_elem_of (λ m, isUnread st m = true) _ m Hclr Hu Hm).
  - by apply afterReceipt_idle.
Qed.

Lemma open_emits_one_receipt_witness :
  let st := handleIncomingMessage (Ref.session "alice" true)
              (Ref.textFrom "m1" "alice" (Some "bob") "hi") in
  (readReceiptsEffect (handleSelectChat st "bob")).2
  = [MESSAGE_READ "bob" ["m1"] (Some "alice")].
Proof.
  intros st.
  refine (proj1 (open_emits_one_receipt st "bob"
                   {| connected := true; myUserId := Some "alice";
                      myProfile := Some (Ref.profile "alice") |} _ _ _)).
  - discriminate.
  - reflexivity.
  - vm_compute. discriminate.
Defined.

End ReadReceipts.

(** ** Account switching and the per-account chat cache *)

Lemma chats_key_inj (a b : string) :
  CHATS_PREFIX +:+ a = CHATS_PREFIX +:+ b → a = b.
Proof. unfold CHATS_PREFIX. cbn. intros Heq. by simplify_eq. Qed.

(** The reference code is inverted by its parser and never produces the
    empty text. *)
Lemma Ref_unbits_bits (p : positive) : Ref.unbits (Ref.bits p) = Some p.
Proof. induction p as [p IH | p IH |]; simpl; [by rewrite IH..|done]. Qed.

Lemma Ref_parse_stringify (l : list ChatPreview) :
  Ref.parse (Ref.stringify l) = Some l.
Proof.
  unfold Ref.parse, Ref.stringify. rewrite Ref_unbits_bits. simpl.
  apply decode_encode.
Qed.

Lemma Ref_stringify_nonempty (l : list ChatPreview) : Ref.stringify l ≠ "".
Proof. unfold Ref.stringify. by destruct (encode l). Qed.

Section Persistence.
Context `{!Platform}.

(** The two facts about the browser's [JSON] used below: parsing what
    [JSON.stringify] printed gives the list back, and the print of a list
    is never the empty (falsy) string. *)
Hypothesis JSON_roundtrip : ∀ l, JSON_parse (JSON_stringify l) = Some l.
Hypothesis JSON_nonempty : ∀ l, JSON_stringify l ≠ "".

Lemma load_save (ls : gmap string string) (userId : string) (l : list ChatPreview) :
  loadChatsForUser (saveChatsForUser userId l ls) userId = l.
Proof.
  unfold loadChatsForUser, saveChatsForUser. rewrite lookup_insert_eq.
  rewrite decide_False by apply JSON_nonempty.
  by rewrite JSON_roundtrip.
Qed.

Lemma load_save_other (ls : gmap string string) (a b : string) (l : list ChatPreview) :
  a ≠ b →
  loadChatsForUser (saveChatsForUser a l ls) b = loadChatsForUser ls b.
Proof.
  intros Hne. unfold loadChatsForUser, saveChatsForUser.
  rewrite lookup_insert_ne; [done|]. intros Heq. by apply Hne, chats_key_inj.
Qed.

Lemma switch_chats (st : AppState) (P : UserProfile) :
  chats (handleSwitchAccount st P)
  = if decide (u_id P = u_id (userProfile st)) then chats st
    else loadChatsForUser (localStorage st) (u_id P).
Proof.
  unfold handleSwitchAccount. simpl. case_decide as Hid.
  - rewrite Hid. apply load_save.
  - by apply load_save_other.
Qed.

(** C4: switching from account [A], whose chat list is [S], to any
    account [B] stores the print of [S] under [A]'s key; and switching
    back to [A] (the persistence effect having run after the first
    switch, as it does after every change of chats or account) loads a
    chat list equal to [S], with the very same text under [A]'s key. *)
Theorem switch_away_and_back (st : AppState) (B : UserProfile) :
  let A := userProfile st in
  let S := chats st in
  let away := persistChatsEffect (handleSwitchAccount st B) in
  let back := handleSwitchAccount away A in
  localStorage away !! (CHATS_PREFIX +:+ u_id A) = Some (JSON_stringify S)
  ∧ userProfile back = A
  ∧ chats back = S
  ∧ localStorage back !! (CHATS_PREFIX +:+ u_id A) = Some (JSON_stringify S).
Proof.
  intros A S away back. unfold A, S in *.
  assert (Hchats_away : chats away
            = if decide (u_id B = u_id (userProfile st)) then chats st
              else loadChatsForUser (localStorage st) (u_id B)).
  { unfold away, persistChatsEffect.
    destruct (_ && _); simpl; apply switch_chats. }
  assert (Hprofile_away : userProfile away = B).
  { unfold away, persistChatsEffect. by destruct (_ && _). }
  assert (Hkey_away : localStorage away !! (CHATS_PREFIX +:+ u_id (userProfile st))
                      = Some (JSON_stringify (chats st))).
  { unfold away, persistChatsEffect.
    destruct (_ && _) eqn:Hguard; simpl.
    - unfold saveChatsForUser at 1.
      destruct (decide (u_id B = u_id (userProfile st))) as [Heq | Hne].
      + rewrite Heq, lookup_insert_eq. f_equal. f_equal.
        rewrite <- Heq. apply load_save.
      + rewrite lookup_insert_ne by (intros ?%chats_key_inj; done).
        apply lookup_insert_eq.
    - apply lookup_insert_eq. }
  split_and!; [done | done | |].
  - unfold back. rewrite switch_chats, Hprofile_away.
    destruct (decide (u_id (userProfile st) = u_id B)) as [Hid | Hid].
    + rewrite Hchats_away. by rewrite decide_True.
    + unfold loadChatsForUser. rewrite Hkey_away.
      rewrite decide_False by apply JSON_nonempty.
      by rewrite JSON_roundtrip.
  - unfold back, handleSwitchAccount. simpl.
    rewrite Hprofile_away. unfold saveChatsForUser.
    destruct (decide (u_id B = u_id (userProfile st))) as [Heq | Hne].
    + by rewrite Heq, lookup_insert_eq, Hchats_away.
    + rewrite lookup_insert_ne by (intros ?%chats_key_inj; done). done.
Qed.

End Persistence.

Lemma switch_away_and_back_witness :
  let st := handleIncomingMessage (Ref.session "alice" true)
              (Ref.textFrom "m1" "alice" (Some "bob") "hi") in
  chats (handleSwitchAccount
           (persistChatsEffect (handleSwitchAccount st (Ref.profile "carol")))
           (Ref.profile "alice"))
  = chats st.
Proof.
  intros st.
  refine (proj1 (proj2 (proj2
    (switch_away_and_back Ref_parse_stringify Ref_stringify_nonempty
       st (Ref.profile "carol"))))).
Defined.

(** ** Outbound send and the generated reply *)

Section BotReply.
Context `{!Platform}.

Lemma typingDelay_bounds (text : string) : (1500 ≤ typingDelay text ≤ 6000)%Z.
Proof. unfold typingDelay. lia. Qed.

Lemma wantsBotReply_true (chat : ChatPreview) :
  wantsBotReply chat = true
  ↔ c_isBot chat = Some true ∧ c_isGroup chat ≠ Some true ∧ c_id chat ≠ "1".
Proof.
  unfold wantsBotReply, truthy.
  destruct (c_isBot chat) as [[]|], (c_isGroup chat) as [[]|]; simpl;
    rewrite ?negb_true_iff, ?bool_decide_eq_false; intuition congruence.
Qed.

Lemma send_reply_bot st text attachment now active sock chat :
  activeChatId st = Some active → active ≠ "" →
  socketRef st = Some sock →
  find (λ c, bool_decide (c_id c = active)) (chats st) = Some chat →
  armedReply st text attachment now
  = if wantsBotReply chat
    then Some (simulateTypingAndSend active
                 (generateResponse
                    (get_or_nil (messages st) active
                     ++ [userMsg st active text attachment now])
                    text (c_name chat) (or_else (c_bio chat) "A helpful assistant"))
                 (Some (c_id chat)))
    else None.
Proof.
  intros Ha Hne Hs Hc. unfold armedReply, handleSendMessage.
  rewrite Ha, Hs, decide_False, Hc by done.
  destruct (wantsBotReply chat); [|done].
  unfold generateBotResponse. simpl. by rewrite last_snoc.
Qed.

Lemma send_reply_only_bot st text attachment now pr :
  armedReply st text attachment now = Some pr →
  ∃ active chat,
    activeChatId st = Some active
    ∧ find (λ c, bool_decide (c_id c = active)) (chats st) = Some chat
    ∧ wantsBotReply chat = true.
Proof.
  unfold armedReply, handleSendMessage.
  destruct (activeChatId st) as [active|]; [|done].
  destruct (socketRef st) as [sock|]; [|done].
  destruct (decide (active = "")); [done|].
  destruct (find _ (chats st)) as [chat|] eqn:Hc; [|done].
  destruct (wantsBotReply chat) eqn:Hb; [|done].
  intros _. by exists active, chat.
Qed.

(** The reply armed for the active chat is routed back to that chat,
    whatever the closure holds as username. *)
Lemma reply_target closure (active text : string) (now : Z) :
  active ≠ "" →
  targetChatId closure
    (botMsg (simulateTypingAndSend active text (Some active)) now)
  = active.
Proof.
  intros Hne. unfold targetChatId. simpl.
  destruct (decide (active = _)); [|done]. by apply or_else_present.
Qed.

Lemma find_id {A} (key : A → string) (target : string) (l : list A) (x : A) :
  find (λ c, bool_decide (key c = target)) l = Some x → key x = target.
Proof.
  unfold find. intros ([i y] & Hfind & Heq)%fmap_Some. simpl in Heq. subst x.
  apply list_find_Some in Hfind as (_ & Hy & _). by apply bool_decide_eq_true in Hy.
Qed.

(** C5: a send to the active conversation [chat] arms exactly one reply
    when [chat] is bot-flagged, not a group and not the self-chat ['1'].
    The reply's text is the responder's answer to the conversation so far
    followed by the message sent; its delay is 30 ms per character of that
    text clamped to [1500, 6000]; the message the timer builds carries that
    text, is the counterparty's, names the chat as sender and is already
    read; it is handled by the very handler the socket subscriber uses for
    remote messages; and when the timer fires on a state that still holds
    the conversation and the chat, the message is appended to the
    conversation, the chat moves to the front with the reply as last
    message and its unread counter as it was (the timer keeps the render
    of the send, in which the chat is the active one), and the typing flag
    is lowered.  A send to any other conversation arms no reply. *)
Theorem send_arms_one_bot_reply st text attachment now active sock chat :
  activeChatId st = Some active → active ≠ "" →
  socketRef st = Some sock →
  find (λ c, bool_decide (c_id c = active)) (chats st) = Some chat →
  (c_isBot chat = Some true ∧ c_isGroup chat ≠ Some true ∧ c_id chat ≠ "1" →
     ∃ pr, armedReply st text attachment now = Some pr
       ∧ pr_text pr
         = generateResponse
             (get_or_nil (messages st) active
              ++ [userMsg st active text attachment now])
             text (c_name chat) (or_else (c_bio chat) "A helpful assistant")
       ∧ pr_delay pr
         = Z.min (Z.max (Z.of_nat (String.length (pr_text pr)) * 30) 1500) 6000
       ∧ (1500 ≤ pr_delay pr ≤ 6000)%Z
       ∧ (∀ t, botMsg pr t
               = plainMessage (toString t) active (pr_text pr) them
                   (Some active) t read)
       ∧ (∀ closure s t,
            m_senderId (botMsg pr t) ≠ Some (u_username (userProfile closure)) →
            Live.subscriber closure s (N_NEW_MESSAGE (botMsg pr t)) t
            = Live.handleIncomingMessage closure s (botMsg pr t))
       ∧ (∀ s t l i C,
            messages s !! active = Some l →
            list_find (λ c, c_id c = active) (chats s) = Some (i, C) →
            ∃ s' C', Live.fireReply st s pr t = Updated s'
              ∧ messages s' !! active = Some (l ++ [botMsg pr t])
              ∧ chats s' = C' :: delete i (chats s)
              ∧ c_id C' = active
              ∧ c_lastMessage C' = pr_text pr
              ∧ c_unreadCount C' = c_unreadCount C
              ∧ typingMap s' !! active = Some false))
  ∧ (¬ (c_isBot chat = Some true ∧ c_isGroup chat ≠ Some true ∧ c_id chat ≠ "1") →
       armedReply st text attachment now = None).
Proof.
  intros Ha Hne Hs Hc.
  rewrite (send_reply_bot _ _ _ _ _ _ _ Ha Hne Hs Hc).
  pose proof (find_id c_id active _ _ Hc) as Hid.
  split.
  - intros Hbot%wantsBotReply_true. rewrite Hbot, Hid.
    eexists. split; [reflexivity|]. simpl. split_and!; try done.
    + apply typingDelay_bounds.
    + apply typingDelay_bounds.
    + intros closure s t Hother. by rewrite decide_True.
    + intros s t l i C Hl Hfind. unfold Live.fireReply.
      set (reply := simulateTypingAndSend active _ (Some active)).
      assert (Htarget : targetChatId st (botMsg reply t) = active)
        by (by apply reply_target).
      destruct (live_incoming_unread st s (botMsg reply t) i C)
        as (s' & C' & Hs' & Hchats & HidC & Hlast & Hunread & _ & Hmsgs).
      * rewrite Htarget. by eapply own_key_plain.
      * by rewrite Htarget.
      * rewrite Hs'. simpl. eexists _, C'. split; [reflexivity|].
        rewrite Htarget in Hmsgs, HidC, Hunread. simpl.
        split_and!; try done.
        -- rewrite Hmsgs. unfold get_or_nil. by rewrite Hl.
        -- rewrite Hunread. by rewrite bool_decide_eq_true_2.
        -- apply lookup_insert_eq.
  - intros Hnot. destruct (wantsBotReply chat) eqn:Hb; [|done].
    by apply wantsBotReply_true in Hb.
Qed.

End BotReply.

Lemma send_arms_one_bot_reply_witness :
  let st := handleSelectChat (Ref.session "alice" true) "2" in
  let sent := (handleSendMessage st "hello" None 5000).1.1 in
  ∃ pr, armedReply st "hello" None 5000 = Some pr
        ∧ pr_text pr = "hello" ∧ pr_delay pr = 1500
        ∧ ∃ s', Live.fireReply st sent pr 6500 = Updated s'
                ∧ messages s' !! "2"
                  = Some [userMsg st "2" "hello" None 5000; botMsg pr 6500].
Proof.
  intros st sent.
  edestruct (send_arms_one_bot_reply st "hello" None 5000 "2") as [Hbot _].
  - reflexivity.
  - discriminate.
  - reflexivity.
  - reflexivity.
  - destruct Hbot as (pr & Hpr & Htext & Hdelay & _ & _ & _ & Hfire).
    + repeat split; discriminate.
    + exists pr. split; [exact Hpr|]. split; [exact Htext|].
      split; [rewrite Hdelay, Htext; reflexivity|].
      edestruct (Hfire sent 6500) as (s' & C' & Hs' & Hmsgs & _).
      * reflexivity.
      * reflexivity.
      * exists s'. split; [exact Hs' | exact Hmsgs].
Defined.

(** ** Peer join and directory sync *)

Lemma find_None {A} (p : A → bool) (l : list A) :
  find p l = None ↔ Forall (λ x, p x = false) l.
Proof.
  unfold find. rewrite fmap_None, list_find_None.
  apply Forall_iff. intros x. by destruct (p x).
Qed.

Lemma find_Some {A} (p : A → bool) (l : list A) (x : A) :
  find p l = Some x → x ∈ l ∧ p x = true.
Proof.
  unfold find. intros ([i y] & Hf & ->)%fmap_Some.
  apply list_find_Some in Hf as (Hl & Hp & _). split; [|done].
  by eapply list_elem_of_lookup_2.
Qed.

Lemma find_head {A} (p : A → bool) (x : A) (l : list A) :
  p x = true → find p (x :: l) = Some x.
Proof. intros Hp. unfold find. simpl. by rewrite decide_True. Qed.

Lemma hasUsername_newContact (u : UserProfile) (now : Z) :
  hasUsername (u_username u) (newContact u now) = true.
Proof. unfold hasUsername. simpl. by rewrite bool_decide_eq_true_2. Qed.

Lemma hasUsername_false (name : string) (c : ChatPreview) :
  hasUsername name c = false ↔ c_username c ≠ Some name.
Proof. unfold hasUsername. apply bool_decide_eq_false. Qed.

Section PeerJoined.
Context `{!Platform}.
Implicit Types (st : AppState) (profile : UserProfile).

Lemma joined_known st profile now c :
  find (hasUsername (u_username profile)) (chats st) = Some c →
  handleNewUserJoined st profile now
  = setDirectory (λ d, <[u_username profile := profile]> d) st.
Proof.
  intros Hc. unfold handleNewUserJoined. simpl. rewrite Hc.
  by destruct (decide _).
Qed.

Lemma joined_self st profile now :
  u_username profile = u_username (userProfile st) →
  handleNewUserJoined st profile now
  = setDirectory (λ d, <[u_username profile := profile]> d) st.
Proof. intros Hs. unfold handleNewUserJoined. by rewrite decide_True. Qed.

Lemma setDirectory_again st profile :
  setDirectory (λ d, <[u_username profile := profile]> d)
    (setDirectory (λ d, <[u_username profile := profile]> d) st)
  = setDirectory (λ d, <[u_username profile := profile]> d) st.
Proof. unfold setDirectory. simpl. f_equal. apply insert_insert_eq. Qed.

(** Handling a join event a second time changes nothing at all. *)
Lemma joined_twice st profile now now' :
  handleNewUserJoined (handleNewUserJoined st profile now) profile now'
  = handleNewUserJoined st profile now.
Proof.
  destruct (decide (u_username profile = u_username (userProfile st))) as [Hs|Hs].
  - rewrite (joined_self st) by done.
    rewrite joined_self by done. apply setDirectory_again.
  - destruct (find (hasUsername (u_username profile)) (chats st)) as [c|] eqn:Hc.
    + rewrite (joined_known st _ _ c) by done.
      rewrite (joined_known _ _ _ c) by done. apply setDirectory_again.
    + assert (Hfirst : handleNewUserJoined st profile now
                = setChats (λ prev, newContact profile now :: prev)
                    (setMessages
                       (λ mPrev, <[u_username profile := [systemMsg profile now]]> mPrev)
                       (setDirectory (λ d, <[u_username profile := profile]> d) st))).
      { unfold handleNewUserJoined. rewrite decide_False by done.
        simpl. by rewrite Hc. }
      rewrite Hfirst.
      rewrite (joined_known _ _ _ (newContact profile now)).
      * unfold setDirectory, setChats, setMessages. simpl. f_equal.
        apply insert_insert_eq.
      * simpl. apply find_head, hasUsername_newContact.
Qed.

(** C6: a join event for a peer other than the local account with no
    chat under the peer's username puts a new preview at the front of the
    chat list and makes the peer's conversation exactly one system
    message, leaving every other conversation alone; when a chat with that
    username exists, chat list and message store are unchanged; and in
    every case handling the event twice equals handling it once. *)
Theorem peer_joined st profile now :
  (u_username profile ≠ u_username (userProfile st) →
   Forall (λ c, c_username c ≠ Some (u_username profile)) (chats st) →
     chats (handleNewUserJoined st profile now)
     = newContact profile now :: chats st
     ∧ messages (handleNewUserJoined st profile now) !! u_username profile
       = Some [systemMsg profile now]
     ∧ m_senderId (systemMsg profile now) = Some "system"
     ∧ ∀ k, k ≠ u_username profile →
            messages (handleNewUserJoined st profile now) !! k = messages st !! k)
  ∧ (Exists (λ c, c_username c = Some (u_username profile)) (chats st) →
       chats (handleNewUserJoined st profile now) = chats st
       ∧ messages (handleNewUserJoined st profile now) = messages st)
  ∧ (∀ now', handleNewUserJoined (handleNewUserJoined st profile now) profile now'
             = handleNewUserJoined st profile now).
Proof.
  split_and!.
  - intros Hs Hnone.
    assert (Hc : find (hasUsername (u_username profile)) (chats st) = None).
    { apply find_None. eapply list.Forall_impl; [exact Hnone|].
      intros c. apply hasUsername_false. }
    unfold handleNewUserJoined. rewrite decide_False by done.
    simpl. rewrite Hc. simpl. split_and!; [done | | done |].
    + apply lookup_insert_eq.
    + intros k Hk. by rewrite lookup_insert_ne.
  - intros Hex.
    destruct (find (hasUsername (u_username profile)) (chats st)) as [c|] eqn:Hc.
    + by rewrite (joined_known st _ _ c).
    + apply find_None in Hc. apply list.Exists_exists in Hex as (c & Hin & Hu).
      rewrite list.Forall_forall in Hc. apply Hc, hasUsername_false in Hin. done.
  - intros now'. apply joined_twice.
Qed.

End PeerJoined.

Lemma peer_joined_witness :
  let st := Ref.session "alice" true in
  chats (handleNewUserJoined st (Ref.profile "bob") 7)
  = newContact (Ref.profile "bob") 7 :: chats st
  ∧ handleNewUserJoined (handleNewUserJoined st (Ref.profile "bob") 7)
      (Ref.profile "bob") 9
    = handleNewUserJoined st (Ref.profile "bob") 7.
Proof.
  intros st.
  destruct (peer_joined st (Ref.profile "bob") 7) as (Hnew & _ & Htwice).
  split.
  - apply Hnew; [discriminate|]. repeat constructor; discriminate.
  - apply Htwice.
Defined.


Section DirectorySync.
Context `{!Platform}.
Implicit Types (st : AppState) (users : list UserProfile)
               (acc : list ChatPreview).

Lemma sync_fold self now users : ∀ acc changed,
  foldl (syncStep self now) (acc, changed) users
  = (acc ++ ((λ u, newContact u now) <$> syncAdded self now acc users),
     changed || bool_decide (syncAdded self now acc users ≠ [])).
Proof.
  induction users as [|u rest IH]; intros acc changed; simpl.
  - by rewrite app_nil_r, orb_false_r.
  - destruct (decide (u_username u = self)); [apply IH|].
    destruct (find _ acc); [apply IH|].
    rewrite IH. simpl. rewrite <- app_assoc. simpl. f_equal.
    by rewrite orb_true_r.
Qed.

Lemma sync_chats st users now :
  chats (handleUserSync st users now)
  = chats st ++ ((λ u, newContact u now)
                 <$> syncAdded (u_username (userProfile st)) now (chats st) users).
Proof.
  unfold handleUserSync. simpl. rewrite sync_fold. simpl.
  destruct (syncAdded _ _ _ _) eqn:Hadded; simpl; [|done].
  by rewrite app_nil_r.
Qed.



(** Every listed peer that is not the local account either has a chat in
    [acc] already or gets a preview under its username. *)
Lemma syncAdded_complete self now users : ∀ acc u,
  u ∈ users → u_username u ≠ self →
  Exists (λ c, c_username c = Some (u_username u)) acc
  ∨ ∃ u', u' ∈ syncAdded self now acc users ∧ u_username u' = u_username u.
Proof.
  induction users as [|v rest IH]; intros acc u; simpl; [by intros ?%elem_of_nil|].
  intros Hin Hne.
  destruct (decide (u_username v = self)) as [Hv|Hv].
  - apply elem_of_cons in Hin as [-> | Hin]; [done | by apply IH].
  - destruct (find _ acc) as [c|] eqn:Hf.
    + apply elem_of_cons in Hin as [-> | Hin]; [|by apply IH].
      left. apply find_Some in Hf as [Hc Hu].
      apply list.Exists_exists. exists c. split; [done|].
      unfold hasUsername in Hu. by apply bool_decide_eq_true in Hu.
    + apply elem_of_cons in Hin as [-> | Hin].
      * right. exists v. split; [apply elem_of_cons; by left | done].
      * destruct (IH (acc ++ [newContact v now]) u Hin Hne)
          as [Hex | (u' & Hu' & Heq)].
        -- apply Exists_app in Hex as [Hex | Hex]; [by left|].
           right. exists v. split; [apply elem_of_cons; by left|].
           apply list.Exists_exists in Hex as (c & ->%list_elem_of_singleton & Hc).
           simpl in Hc. congruence.
        -- right. exists u'. split; [apply elem_of_cons; by right | done].
Qed.

End DirectorySync.



(** ** Delivery status only moves toward read *)

Section StatusMonotone.
Context `{!Platform}.
Implicit Types (s : gmap string (list Message)) (m : Message).

Lemma markRead_read m : m_status m = read → markRead m = m.
Proof. destruct m. simpl. by intros ->. Qed.

Lemma markRead_idem m : markRead (markRead m) = markRead m.
Proof. reflexivity. Qed.

Lemma advances_trans m1 m2 m3 : advances m1 m2 → advances m2 m3 → advances m1 m3.
Proof. intros [-> | ->] [-> | ->]; unfold advances; auto. Qed.

Lemma store_advances_refl s : store_advances s s.
Proof. intros k l i m Hk Hi. exists l, m. unfold advances. auto. Qed.

Lemma store_advances_trans s1 s2 s3 :
  store_advances s1 s2 → store_advances s2 s3 → store_advances s1 s3.
Proof.
  intros H12 H23 k l i m Hk Hi.
  destruct (H12 k l i m Hk Hi) as (l2 & m2 & Hk2 & Hi2 & Ha2).
  destruct (H23 k l2 i m2 Hk2 Hi2) as (l3 & m3 & Hk3 & Hi3 & Ha3).
  exists l3, m3. eauto using advances_trans.
Qed.

(** Appending to a conversation. *)
Lemma append_advances s (target : string) (x : Message) :
  store_advances s (<[target := get_or_nil s target ++ [x]]> s).
Proof.
  intros k l i m Hk Hi. destruct (decide (target = k)) as [-> | Hne].
  - exists (l ++ [x]), m. rewrite lookup_insert_eq.
    unfold get_or_nil. rewrite Hk. simpl. split_and!; [done | | by left].
    by apply lookup_app_l_Some.
  - exists l, m. rewrite lookup_insert_ne by done. split_and!; [done.. | by left].
Qed.

(** Marking ids read in a conversation. *)
Lemma mark_advances s (target : string) (ids : list string) (l0 : list Message) :
  s !! target = Some l0 →
  store_advances s (<[target := markIds ids l0]> s).
Proof.
  intros H0 k l i m Hk Hi. destruct (decide (target = k)) as [-> | Hne].
  - rewrite Hk in H0. injection H0 as <-.
    exists (markIds ids l), (if includes ids (m_id m) then markRead m else m).
    rewrite lookup_insert_eq. split_and!; [done | |].
    + unfold markIds. by rewrite list_lookup_fmap, Hi.
    + destruct (includes _ _); [by right | by left].
  - exists l, m. rewrite lookup_insert_ne by done. split_and!; [done.. | by left].
Qed.

Lemma incoming_advances st msg :
  store_advances (messages st) (messages (handleIncomingMessage st msg)).
Proof. rewrite incoming_messages. apply append_advances. Qed.

Lemma receipt_advances st chatId messageIds readerId :
  store_advances (messages st)
    (messages (handleReadReceipt st chatId messageIds readerId)).
Proof.
  unfold handleReadReceipt. simpl.
  destruct (messages st !! _) as [currentList|] eqn:Hl; [|apply store_advances_refl].
  destruct (existsb _ _); [|apply store_advances_refl].
  by apply mark_advances.
Qed.

Lemma effect_advances st :
  store_advances (messages st) (messages (readReceiptsEffect st).1).
Proof.
  unfold readReceiptsEffect.
  destruct (activeChatId st) as [active|]; [|apply store_advances_refl].
  destruct (socketRef st) as [sock|]; [|apply store_advances_refl].
  destruct (decide (active = "")); [apply store_advances_refl|].
  destruct (bool_decide _) eqn:Hlen; [|apply store_advances_refl].
  simpl. unfold get_or_nil at 2.
  destruct (messages st !! active) as [l0|] eqn:Hl; simpl.
  - by apply mark_advances.
  - apply bool_decide_eq_true in Hlen. unfold get_or_nil in Hlen.
    rewrite Hl in Hlen. simpl in Hlen. lia.
Qed.

Lemma send_advances st text attachment now :
  store_advances (messages st)
    (messages (handleSendMessage st text attachment now).1.1).
Proof.
  unfold handleSendMessage.
  destruct (activeChatId st) as [active|]; [|apply store_advances_refl].
  destruct (socketRef st) as [sock|]; [|apply store_advances_refl].
  destruct (decide (active = "")); [apply store_advances_refl|].
  destruct (find _ (chats st)) as [chat|]; [|apply store_advances_refl].
  assert (Hstep : ∀ st4,
    store_advances (messages st) (messages st4) →
    store_advances (messages st)
      (messages (if wantsBotReply chat
                 then let '(st5, pr) :=
                        generateBotResponse st4 active
                          (get_or_nil (messages st) active
                           ++ [userMsg st active text attachment now]) chat in
                      (st5, Socket.sendMessage sock now active text
                              (Some (c_id chat)) (c_isGroup chat) attachment,
                       Some pr)
                 else (st4, Socket.sendMessage sock now active text
                              (Some (c_id chat)) (c_isGroup chat) attachment,
                       None)).1.1)).
  { intros st4 H4. by destruct (wantsBotReply chat). }
  apply Hstep. clear Hstep.
  assert (H3 : ∀ st2, messages st2
                 = <[active := get_or_nil (messages st) active
                               ++ [userMsg st active text attachment now]]> (messages st) →
     messages (match truthy (c_isGroup chat), c_memberIds chat with
               | true, Some memberIds =>
                   setLocalStorage
                     (λ ls, foldl (mirrorToMember st chat text now) ls memberIds) st2
               | _, _ => st2
               end) = messages st2).
  { intros st2 _. by destruct (truthy _), (c_memberIds chat). }
  destruct (find _ (accounts st)) as [targetAccount|]; simpl.
  - eapply store_advances_trans; [|apply append_advances].
    rewrite H3 by done. simpl. apply append_advances.
  - rewrite H3 by done. simpl. apply append_advances.
Qed.

Create HintDb advance.
#[local] Hint Resolve incoming_advances receipt_advances effect_advances
  send_advances : advance.

Lemma fire_advances st pr now :
  store_advances (messages st) (messages (fireReply st pr now)).
Proof. apply (incoming_advances st (botMsg pr now)). Qed.

#[local] Hint Resolve fire_advances : advance.

Lemma runOp_advances st op :
  store_advances (messages st) (messages (runOp st op)).
Proof. destruct op; unfold runOp; auto with advance. Qed.

(** C8: whichever operation of the Controller runs (inbound message
    handling, from the socket or from the responder's timer; read-receipt
    application; the read-marking effect of the active conversation;
    outbound send), a message of the store stays in its conversation at its
    position and is either untouched or marked read; in particular a
    message whose status is read is left exactly as it was, so its status
    never becomes sent or delivered. *)
Theorem read_never_reverted st op k l i m :
  messages st !! k = Some l → l !! i = Some m →
  ∃ l' m', messages (runOp st op) !! k = Some l'
    ∧ l' !! i = Some m'
    ∧ (m_status m' = m_status m ∨ m_status m' = read)
    ∧ (m_status m = read → m' = m ∧ m_status m' ≠ sent ∧ m_status m' ≠ delivered).
Proof.
  intros Hk Hi.
  destruct (runOp_advances st op k l i m Hk Hi) as (l' & m' & Hk' & Hi' & Hadv).
  exists l', m'. split_and!; [done | done | |].
  - destruct Hadv as [-> | ->]; [by left | by right].
  - intros Hread.
    assert (m' = m) as ->.
    { destruct Hadv as [-> | ->]; [done | by apply markRead_read]. }
    rewrite Hread. done.
Qed.

End StatusMonotone.

Lemma read_never_reverted_witness :
  let m := plainMessage "m9" "2" "Hello!" them (Some "2") 1 read in
  let st := handleIncomingMessage (handleSelectChat (Ref.session "alice" true) "2") m in
  ∃ l', messages (runOp st (OpSend "hi" None 5)) !! "2" = Some l'
        ∧ l' !! 0%nat = Some m.
Proof.
  intros m st.
  destruct (read_never_reverted st (OpSend "hi" None 5) "2" [m] 0%nat m)
    as (l' & m' & Hl' & Hm' & _ & Hread).
  - reflexivity.
  - reflexivity.
  - exists l'. split; [exact Hl'|].
    destruct Hread as [-> _]; [reflexivity | exact Hm'].
Defined.

(** ** The socket subscriber drops the echo of the user's own message *)




(** ** Promo codes on the relay *)

Section Promo.
Import Server.
Implicit Types (db : Db) (userId code : string).

Lemma redeem_unknown db userId code :
  promo_codes db !! code = None →
  redeemPromo db userId code
  = (db, [(ToSender, PROMO_RESULT false "Invalid code")]).
Proof. intros Hc. unfold redeemPromo. by rewrite Hc. Qed.

Lemma redeem_used db userId code promo :
  promo_codes db !! code = Some promo →
  (userId, code) ∈ user_promo_usage db →
  redeemPromo db userId code
  = (db, [(ToSender, PROMO_RESULT false "Code already used by you")]).
Proof. intros Hc Hu. unfold redeemPromo. rewrite Hc. by rewrite decide_True. Qed.

Lemma redeem_first db userId code promo :
  promo_codes db !! code = Some promo →
  (userId, code) ∉ user_promo_usage db →
  let db' := (redeemPromo db userId code).1 in
  users db' = alter setPremium userId (users db)
  ∧ promo_codes db' = alter bumpUses code (promo_codes db)
  ∧ user_promo_usage db' = {[ (userId, code) ]} ∪ user_promo_usage db
  ∧ head (redeemPromo db userId code).2
    = Some (ToSender, PROMO_RESULT true "Premium Activated!").
Proof.
  intros Hc Hu. unfold redeemPromo. rewrite Hc. by rewrite decide_False.
Qed.

(** C9: for a code the server knows and a user who has not used it, the
    first REDEEM_PROMO answers that user with a success result and nothing
    but [USER_UPDATED] events besides, sets the premium flag of the user's
    row (when the user has one) and records the use; a second request for
    the same user and code changes nothing and answers with the single
    failure ["Code already used by you"]; and a request for a code the
    server does not know changes nothing and answers with the single
    failure ["Invalid code"]. *)
Theorem redeem_twice db userId code promo :
  promo_codes db !! code = Some promo →
  (userId, code) ∉ user_promo_usage db →
  let first := redeemPromo db userId code in
  let second := redeemPromo first.1 userId code in
  (∃ updates, first.2 = (ToSender, PROMO_RESULT true "Premium Activated!") :: updates
              ∧ Forall (λ e, ∃ p, e.2 = USER_UPDATED p) updates)
  ∧ (∀ row, users db !! userId = Some row →
       ∃ row', users first.1 !! userId = Some row'
               ∧ r_isPremium row' = 1
               ∧ toBool (r_isPremium row') = true)
  ∧ (userId, code) ∈ user_promo_usage first.1
  ∧ second = (first.1, [(ToSender, PROMO_RESULT false "Code already used by you")])
  ∧ (∀ db0 userId0 code0, promo_codes db0 !! code0 = None →
       redeemPromo db0 userId0 code0
       = (db0, [(ToSender, PROMO_RESULT false "Invalid code")])).
Proof.
  intros Hc Hu first second.
  destruct (redeem_first db userId code promo Hc Hu) as (Husers & Hcodes & Husage & _).
  fold first in Husers, Hcodes, Husage.
  split_and!.
  - unfold first, redeemPromo. rewrite Hc, decide_False by done. simpl.
    eexists. split; [reflexivity|].
    destruct (alter _ _ _ !! userId); repeat constructor; by eexists.
  - intros row Hrow. exists (setPremium row). rewrite Husers.
    rewrite lookup_alter_eq, Hrow. done.
  - rewrite Husage. apply elem_of_union_l. by apply elem_of_singleton.
  - unfold second. apply (redeem_used _ _ _ (bumpUses promo)).
    + rewrite Hcodes, lookup_alter_eq, Hc. done.
    + rewrite Husage. apply elem_of_union_l. by apply elem_of_singleton.
  - intros db0 userId0 code0. apply redeem_unknown.
Qed.

End Promo.

Lemma redeem_twice_witness :
  let db := Server.initializeDatabase in
  let first := Server.redeemPromo db "alice" "welcome10" in
  first.2 = [(Server.ToSender, Server.PROMO_RESULT true "Premium Activated!")]
  ∧ (Server.redeemPromo first.1 "alice" "welcome10").2
    = [(Server.ToSender, Server.PROMO_RESULT false "Code already used by you")].
Proof.
  intros db first.
  destruct (redeem_twice db "alice" "welcome10"
              {| Server.max_uses := 999999; Server.current_uses := 0 |})
    as (_ & _ & _ & Hsecond & _).
  - reflexivity.
  - apply not_elem_of_empty.
  - split; [vm_compute; reflexivity|].
    fold first in Hsecond. by rewrite Hsecond.
Defined.

(** * Further properties of the code *)

(** ** Applying a read receipt *)

Section ReceiptApplication.
Implicit Types (st closure : AppState) (l : list Message).

Lemma markIds_idem (ids : list string) l : markIds ids (markIds ids l) = markIds ids l.
Proof.
  unfold markIds. rewrite <- list_fmap_compose. apply list_fmap_ext.
  intros i m _. simpl. destruct (includes ids (m_id m)) eqn:Hin; simpl; by rewrite Hin.
Qed.

(** When no listed message is still unread, marking changes nothing: the
    [needsUpdate] test only saves a copy. *)
Lemma markIds_noop (ids : list string) l :
  existsb (λ m, includes ids (m_id m) && negb (bool_decide (m_status m = read))) l
  = false →
  markIds ids l = l.
Proof.
  induction l as [|m l IH]; simpl; [done|].
  intros [Hm Hl]%orb_false_elim. rewrite IH by done. f_equal.
  destruct (includes ids (m_id m)); [|done]. simpl in Hm.
  apply negb_false_iff, bool_decide_eq_true in Hm. by apply markRead_read.
Qed.

(** After marking, no listed message is still unread. *)
Lemma markIds_settled (ids : list string) l :
  existsb (λ m, includes ids (m_id m) && negb (bool_decide (m_status m = read)))
    (markIds ids l) = false.
Proof.
  induction l as [|m l IH]; simpl; [done|]. rewrite IH, orb_false_r.
  destruct (includes ids (m_id m)) eqn:Hin; simpl; by rewrite Hin.
Qed.

Lemma state_eq_messages st st' :
  accounts st' = accounts st → userProfile st' = userProfile st →
  showRegistration st' = showRegistration st → chats st' = chats st →
  messages st' = messages st → activeChatId st' = activeChatId st →
  viewingProfileId st' = viewingProfileId st → typingMap st' = typingMap st →
  adminMessages st' = adminMessages st → isLoadingAdmin st' = isLoadingAdmin st →
  socketRef st' = socketRef st → userDirectoryRef st' = userDirectoryRef st →
  localStorage st' = localStorage st → st' = st.
Proof. destruct st, st'. simpl. by intros -> -> -> -> -> -> -> -> -> -> -> -> ->. Qed.

(** The outcome of a receipt for a conversation the store holds. *)
Lemma live_receipt_own closure st chatId ids readerId target l :
  target = match find (λ c, bool_decide (c_id c = chatId) && truthy (c_isGroup c))
                   (chats closure) with
           | Some _ => chatId
           | None => readerId
           end →
  messages st !! target = Some l →
  ∃ st', Live.handleReadReceipt closure st chatId ids readerId = Updated st'
         ∧ messages st' = <[target := markIds ids l]> (messages st)
         ∧ st' = setMessages (λ _, messages st') st.
Proof.
  intros Htarget Hl. unfold Live.handleReadReceipt. rewrite <- Htarget.
  rewrite (js_get_own _ _ _ Hl).
  destruct (existsb _ l) eqn:Hneeds.
  - eexists. split; [reflexivity|]. split; done.
  - exists st. split; [done|]. rewrite markIds_noop by done. split.
    + by rewrite insert_id.
    + by destruct st.
Qed.

(** Called from the current render, on a conversation whose lookup finds
    an own property or nothing, the handler is the one-state
    [handleReadReceipt]. *)
Lemma live_receipt_current st chatId ids readerId :
  (∀ k, Js.inherited k = true → is_Some (messages st !! k)) →
  Live.handleReadReceipt st st chatId ids readerId
  = Updated (handleReadReceipt st chatId ids readerId).
Proof.
  intros Hplain. unfold Live.handleReadReceipt, handleReadReceipt, Js.get.
  set (target := match find _ (chats st) with Some _ => chatId | None => readerId end).
  unfold setMessages. cbn.
  destruct (messages st !! target) as [l|] eqn:Hl.
  - destruct (existsb _ l); [done|]. f_equal. by destruct st.
  - destruct (Js.inherited target) eqn:Hk.
    + destruct (Hplain target Hk) as [l Hown]. congruence.
    + f_equal. by destruct st.
Qed.

(** X1: a read receipt, handled by the subscriber, is applied to the
    conversation named in it when the chat list of the render that created
    the subscriber has a group with that id, and to the conversation named
    after the reader otherwise (a group that joined the list later does not
    count).  When the message store holds that conversation, exactly the
    messages whose id the receipt lists are set to read there, nothing else
    in the state changes, and the same receipt applied again changes
    nothing more.  When the store does not hold it, the state stays as it
    is, unless the conversation's id names a member of [Object.prototype]:
    then the state update throws. *)
Theorem receipt_marks_listed closure st chatId ids readerId :
  let isGroup := λ c, c_id c = chatId ∧ c_isGroup c = Some true in
  ∃ target,
    (Exists isGroup (chats closure) → target = chatId)
    ∧ (Forall (λ c, ¬ isGroup c) (chats closure) → target = readerId)
    ∧ (∀ l, messages st !! target = Some l →
         ∃ st', Live.handleReadReceipt closure st chatId ids readerId = Updated st'
           ∧ messages st' !! target
             = Some ((λ m, if bool_decide (m_id m ∈ ids) then markRead m else m)
                     <$> l)
           ∧ (∀ k, k ≠ target → messages st' !! k = messages st !! k)
           ∧ st' = setMessages (λ _, messages st') st
           ∧ Live.handleReadReceipt closure st' chatId ids readerId = Updated st')
    ∧ (messages st !! target = None → Js.inherited target = false →
         Live.handleReadReceipt closure st chatId ids readerId = Updated st)
    ∧ (messages st !! target = None → Js.inherited target = true →
         Live.handleReadReceipt closure st chatId ids readerId = Throws st).
Proof.
  intros isGroup.
  set (p := λ c, bool_decide (c_id c = chatId) && truthy (c_isGroup c)).
  assert (Hp : ∀ c, p c = true ↔ isGroup c).
  { intros c. unfold p, isGroup, truthy.
    rewrite andb_true_iff, bool_decide_eq_true.
    destruct (c_isGroup c) as [[]|]; intuition congruence. }
  set (target := match find p (chats closure) with
                 | Some _ => chatId
                 | None => readerId
                 end).
  exists target. split_and!.
  - intros (c & Hc & Hg)%list.Exists_exists. unfold target.
    destruct (find p (chats closure)) eqn:Hf; [done|].
    apply find_None in Hf. rewrite list.Forall_forall in Hf.
    apply Hp in Hg. by rewrite (Hf c Hc) in Hg.
  - intros Hall. unfold target.
    destruct (find p (chats closure)) as [c|] eqn:Hf; [|done].
    apply find_Some in Hf as [Hc Hg]. rewrite list.Forall_forall in Hall.
    destruct (Hall c Hc). by apply Hp.
  - intros l Hl.
    destruct (live_receipt_own closure st chatId ids readerId target l)
      as (st' & Hst' & Hmsgs & Hrest); [done | done |].
    exists st'. split; [done|]. split_and!.
    + by rewrite Hmsgs, lookup_insert_eq.
    + intros k Hk. by rewrite Hmsgs, lookup_insert_ne.
    + done.
    + destruct (live_receipt_own closure st' chatId ids readerId target
                  (markIds ids l)) as (st'' & Hst'' & Hmsgs' & Hrest');
        [done | by rewrite Hmsgs, lookup_insert_eq |].
      rewrite Hst''. f_equal. rewrite Hrest'. rewrite Hmsgs', markIds_idem.
      rewrite insert_id by (by rewrite Hmsgs, lookup_insert_eq).
      by destruct st'.
  - intros Hnone Hk. unfold Live.handleReadReceipt. fold p. fold target.
    by rewrite js_get_undefined.
  - intros Hnone Hk. unfold Live.handleReadReceipt. fold p. fold target.
    by rewrite js_get_inherited.
Qed.

End ReceiptApplication.

Lemma receipt_marks_listed_witness :
  let mounted := Ref.session "alice" true in
  let st := handleIncomingMessage mounted
              (Ref.textFrom "m1" "alice" (Some "bob") "hi") in
  ∃ st', Live.handleReadReceipt mounted st "alice" ["m1"] "bob" = Updated st'
         ∧ messages st' !! "bob"
           = Some [markRead (Ref.textFrom "m1" "alice" (Some "bob") "hi")].
Proof.
  intros mounted st.
  destruct (receipt_marks_listed mounted st "alice" ["m1"] "bob")
    as (target & _ & Hreader & Hown & _).
  assert (Htarget : target = "bob").
  { apply Hreader. repeat constructor; intros [Hid _]; discriminate Hid. }
  subst target.
  destruct (Hown [Ref.textFrom "m1" "alice" (Some "bob") "hi"])
    as (st' & Hst' & Hmarked & _); [reflexivity|].
  exists st'. split; [exact Hst' | exact Hmarked].
Defined.

(** ** Outbound send: guards, optimistic update, emission *)


Section Send.
Context `{!Platform}.
Implicit Types (st : AppState).

(** The message store after a send that passes the guards. *)
Lemma send_messages st text attachment now active sock chat :
  activeChatId st = Some active → active ≠ "" →
  socketRef st = Some sock →
  find (λ c, bool_decide (c_id c = active)) (chats st) = Some chat →
  let um := userMsg st active text attachment now in
  let self := u_username (userProfile st) in
  let sent1 := <[active := get_or_nil (messages st) active ++ [um]]> (messages st) in
  messages (handleSendMessage st text attachment now).1.1
  = match find (λ acc, bool_decide (u_id acc = active)) (accounts st) with
    | Some _ => <[self := get_or_nil sent1 self ++ [msgForTarget self um]]> sent1
    | None => sent1
    end.
Proof.
  intros Ha Hne Hs Hc um self sent1. unfold handleSendMessage.
  rewrite Ha, Hs, decide_False, Hc by done.
  destruct (wantsBotReply chat), (find _ (accounts st)),
    (truthy (c_isGroup chat)), (c_memberIds chat); reflexivity.
Qed.


Lemma send_emissions st text attachment now active sock chat :
  activeChatId st = Some active → active ≠ "" →
  socketRef st = Some sock →
  find (λ c, bool_decide (c_id c = active)) (chats st) = Some chat →
  (handleSendMessage st text attachment now).1.2
  = Socket.sendMessage sock now active text (Some (c_id chat)) (c_isGroup chat)
      attachment.
Proof.
  intros Ha Hne Hs Hc. unfold handleSendMessage.
  rewrite Ha, Hs, decide_False, Hc by done.
  by destruct (wantsBotReply chat).
Qed.

(** X2: a send does nothing at all (state unchanged, nothing emitted, no
    reply armed) when no conversation is active, when the active id is
    empty, when the socket was never created, or when the active id is not
    in the chat list. *)
Theorem send_guards st text attachment now :
  activeChatId st = None ∨ activeChatId st = Some ""
  ∨ socketRef st = None
  ∨ (∀ active, activeChatId st = Some active →
               Forall (λ c, c_id c ≠ active) (chats st)) →
  handleSendMessage st text attachment now = (st, [], None).
Proof.
  unfold handleSendMessage.
  intros [Ha | [Ha | [Hs | Hall]]].
  - by rewrite Ha.
  - rewrite Ha. by destruct (socketRef st).
  - rewrite Hs. by destruct (activeChatId st).
  - destruct (activeChatId st) as [active|]; [|done].
    destruct (socketRef st); [|done].
    destruct (decide (active = "")); [done|].
    assert (Hnone : find (λ c, bool_decide (c_id c = active)) (chats st) = None).
    { apply find_None. eapply list.Forall_impl; [exact (Hall active eq_refl)|].
      intros x Hx. by apply bool_decide_eq_false. }
    by rewrite Hnone.
Qed.


End Send.

Lemma send_guards_witness :
  handleSendMessage (Ref.session "alice" true) "hi" None 5
  = (Ref.session "alice" true, [], None).
Proof. apply send_guards. left. reflexivity. Defined.


(** ** Mirroring a direct message into another local account *)

Section Mirror.
Context `{!Platform}.
Hypothesis JSON_roundtrip : ∀ l, JSON_parse (JSON_stringify l) = Some l.
Hypothesis JSON_nonempty : ∀ l, JSON_stringify l ≠ "".
Implicit Types (st : AppState).

Lemma send_storage_dm st text attachment now active sock chat T :
  activeChatId st = Some active → active ≠ "" →
  socketRef st = Some sock →
  find (λ c, bool_decide (c_id c = active)) (chats st) = Some chat →
  truthy (c_isGroup chat) = false →
  find (λ acc, bool_decide (u_id acc = active)) (accounts st) = Some T →
  localStorage (handleSendMessage st text attachment now).1.1
  = mirrorToAccount st text now T (localStorage st).
Proof.
  intros Ha Hne Hs Hc Hg Hacc. unfold handleSendMessage.
  rewrite Ha, Hs, decide_False, Hc, Hg, Hacc by done.
  by destruct (wantsBotReply chat).
Qed.

Lemma mirrorToAccount_load st text now T ls :
  ∃ entry rest,
    loadChatsForUser (mirrorToAccount st text now T ls) (u_id T) = entry :: rest
    ∧ c_id entry = u_username (userProfile st)
    ∧ c_lastMessage entry = text
    ∧ c_sender entry = Some them
    ∧ match list_find (λ c, c_id c = u_username (userProfile st))
              (loadChatsForUser ls (u_id T)) with
      | None => c_unreadCount entry = 1 ∧ rest = loadChatsForUser ls (u_id T)
      | Some (i, old) =>
          c_unreadCount entry = c_unreadCount old + 1
          ∧ rest = delete i (loadChatsForUser ls (u_id T))
      end.
Proof.
  unfold mirrorToAccount.
  destruct (list_find _ (loadChatsForUser ls (u_id T))) as [[i old]|] eqn:Hf.
  - eexists _, _. rewrite load_save by done. split; [reflexivity|].
    simpl. split_and!; try done. by destruct (list_find_id_eq _ _ _ _ Hf).
  - eexists _, _. rewrite load_save by done. split; [reflexivity|]. done.
Qed.

Lemma load_stored (ls : gmap string string) (userId saved : string)
    (l : list ChatPreview) :
  ls !! (CHATS_PREFIX +:+ userId) = Some saved → saved ≠ "" →
  JSON_parse saved = Some l →
  loadChatsForUser ls userId = l.
Proof.
  intros Hls Hne Hparse. unfold loadChatsForUser.
  by rewrite Hls, decide_False, Hparse.
Qed.

(** X4: a direct message sent to a chat whose id is the id of another
    local account is also written into that account's stored chat list.
    For an addressee that has a stored list (without one the code changes
    the array [INITIAL_CHATS] itself, a case left out here), and when the
    lookups of the active id and of the sender's username in the message
    store do not fall through to a member of [Object.prototype]: the
    sender's chat is put first in the addressee's list, with the text as
    last message and the unread counter one higher than before (1 if the
    sender had no chat there), so that the addressee finds it first when
    the account is switched to; and a copy of the message, marked as the
    counterparty's and filed under the sender's username, is appended to
    the shared message store. *)
Theorem send_mirrors_dm st text attachment now active sock chat T saved before :
  activeChatId st = Some active → active ≠ "" →
  socketRef st = Some sock →
  find (λ c, bool_decide (c_id c = active)) (chats st) = Some chat →
  truthy (c_isGroup chat) = false →
  find (λ acc, bool_decide (u_id acc = active)) (accounts st) = Some T →
  u_id T ≠ u_id (userProfile st) →
  localStorage st !! (CHATS_PREFIX +:+ u_id T) = Some saved →
  saved ≠ "" → JSON_parse saved = Some before →
  Js.get (messages st) active ≠ Js.Inherited →
  Js.get (messages st) (u_username (userProfile st)) ≠ Js.Inherited →
  let st' := (handleSendMessage st text attachment now).1.1 in
  let self := u_username (userProfile st) in
  ∃ entry rest,
    chats (handleSwitchAccount st' T) = entry :: rest
    ∧ c_id entry = self ∧ c_lastMessage entry = text
    ∧ c_sender entry = Some them
    ∧ (Forall (λ c, c_id c ≠ self) before →
         c_unreadCount entry = 1 ∧ rest = before)
    ∧ (∀ i old, list_find (λ c, c_id c = self) before = Some (i, old) →
         c_unreadCount entry = c_unreadCount old + 1 ∧ rest = delete i before)
    ∧ ∃ l, messages st' !! self = Some l
           ∧ list.last l
             = Some (msgForTarget self (userMsg st active text attachment now)).
Proof.
  intros Ha Hne Hs Hc Hg Hacc HT Hsaved Hsome Hparse _ _ st' self.
  pose proof (load_stored _ _ _ _ Hsaved Hsome Hparse) as Hbefore.
  pose proof (send_storage_dm st text attachment now active sock chat T
                Ha Hne Hs Hc Hg Hacc) as Hls.
  destruct (mirrorToAccount_load st text now T (localStorage st))
    as (entry & rest & Hload & Hid & Hlast & Hsender & Hcase).
  rewrite Hbefore in Hcase.
  exists entry, rest.
  assert (Hprofile : userProfile st' = userProfile st).
  { unfold st', handleSendMessage.
    rewrite Ha, Hs, decide_False, Hc, Hg, Hacc by done.
    by destruct (wantsBotReply chat). }
  split_and!; try done.
  - rewrite switch_chats by done. rewrite Hprofile, decide_False by done.
    unfold st'. by rewrite Hls.
  - intros Hnone.
    assert (Hf : list_find (λ c, c_id c = self) before = None)
      by (by apply list_find_None).
    fold self in Hcase. by rewrite Hf in Hcase.
  - intros i old Hf. fold self in Hcase. by rewrite Hf in Hcase.
  - pose proof (send_messages st text attachment now active sock chat Ha Hne Hs Hc)
      as Hm. simpl in Hm. rewrite Hacc in Hm.
    eexists. unfold st'. rewrite Hm. split; [apply lookup_insert_eq|].
    apply last_snoc.
Qed.

End Mirror.

Lemma send_mirrors_dm_witness :
  let two := setLocalStorage (saveChatsForUser "bob" [])
               (setAccounts (λ _, [Ref.profile "alice"; Ref.profile "bob"])
                  (Ref.session "alice" true)) in
  let st := handleSelectChat (handleNewUserJoined two (Ref.profile "bob") 3) "bob" in
  ∃ entry,
    chats (handleSwitchAccount (handleSendMessage st "hi" None 5).1.1
             (Ref.profile "bob")) = [entry]
    ∧ c_id entry = "alice" ∧ c_unreadCount entry = 1.
Proof.
  intros two st.
  destruct (@send_mirrors_dm Ref.platform Ref_parse_stringify
              Ref_stringify_nonempty st "hi" None 5 "bob"
              {| connected := true; myUserId := Some "alice";
                 myProfile := Some (Ref.profile "alice") |}
              (withUnread 0 (newContact (Ref.profile "bob") 3))
              (Ref.profile "bob") (Ref.stringify []) [])
    as (entry & rest & Hchats & Hid & _ & _ & Hnew & _).
  - reflexivity.
  - discriminate.
  - reflexivity.
  - reflexivity.
  - reflexivity.
  - reflexivity.
  - discriminate.
  - reflexivity.
  - apply Ref_stringify_nonempty.
  - apply Ref_parse_stringify.
  - apply own_key_plain with (l := [systemMsg (Ref.profile "bob") 3]). reflexivity.
  - apply js_get_not_inherited. right. reflexivity.
  - destruct (Hnew (Forall_nil_2 _)) as [Hunread Hrest].
    exists entry. split; [by rewrite Hchats, Hrest|].
    split; [exact Hid | exact Hunread].
Defined.

(** ** Deleting and archiving chats *)

Section ChatList.
Implicit Types (st : AppState) (ui : Ui).

Lemma delete_chats st id :
  chats (handleDeleteChat st id) = filter (λ c, c_id c ≠ id) (chats st).
Proof.
  unfold handleDeleteChat.
  by destruct (decide (activeChatId st = _)), (decide (viewingProfileId st = _)).
Qed.

Lemma delete_messages st id : messages (handleDeleteChat st id) = messages st.
Proof.
  unfold handleDeleteChat.
  by destruct (decide (activeChatId st = _)), (decide (viewingProfileId st = _)).
Qed.

Lemma delete_profile st id : userProfile (handleDeleteChat st id) = userProfile st.
Proof.
  unfold handleDeleteChat.
  by destruct (decide (activeChatId st = _)), (decide (viewingProfileId st = _)).
Qed.

Lemma delete_active st id :
  activeChatId (handleDeleteChat st id)
  = if decide (activeChatId st = Some id) then None else activeChatId st.
Proof.
  unfold handleDeleteChat.
  by destruct (decide (activeChatId st = _)), (decide (viewingProfileId st = _)).
Qed.

Lemma delete_directory st id :
  userDirectoryRef (handleDeleteChat st id) = userDirectoryRef st.
Proof.
  unfold handleDeleteChat.
  by destruct (decide (activeChatId st = _)), (decide (viewingProfileId st = _)).
Qed.

(** X5: deleting a chat removes every chat with that id from the list and
    keeps the others in their order, deselects it if it was active, and
    leaves the message store as it was: the conversation's messages are
    kept.  So the next inbound message routed to that id, when the lookups
    of the id find own properties or nothing, brings the chat back at the
    front with unread counter 1, and the conversation holds the whole
    earlier history before the new message; when the id names a member of
    [Object.prototype] and the store holds no conversation for it, the
    state update throws and nothing comes back. *)
Theorem delete_keeps_history closure st id msg :
  let st' := handleDeleteChat st id in
  chats st' = filter (λ c, c_id c ≠ id) (chats st)
  ∧ Forall (λ c, c_id c ≠ id) (chats st')
  ∧ messages st' = messages st
  ∧ (activeChatId st = Some id → activeChatId st' = None)
  ∧ (targetChatId closure msg = id → plainTarget st id →
       ∃ st'' c, Live.handleIncomingMessage closure st' msg = Updated st''
            ∧ chats st'' = c :: chats st'
            ∧ c_id c = id ∧ c_unreadCount c = 1
            ∧ messages st'' !! id = Some (get_or_nil (messages st) id ++ [msg]))
  ∧ (targetChatId closure msg = id →
     messages st !! id = None → Js.inherited id = true →
       Live.handleIncomingMessage closure st' msg = Throws st').
Proof.
  intros st'.
  assert (Hnone : Forall (λ c, c_id c ≠ id) (chats st')).
  { unfold st'. rewrite delete_chats. apply list.Forall_forall.
    by intros c [? _]%list_elem_of_filter. }
  split_and!.
  - apply delete_chats.
  - done.
  - apply delete_messages.
  - intros Ha. unfold st'. rewrite delete_active. by rewrite decide_True.
  - intros Ht [Hm Hd].
    eexists _, _. split.
    + apply live_incoming_new; rewrite Ht.
      * split; unfold st'; by rewrite ?delete_messages, ?delete_directory.
      * by apply list_find_None.
    + rewrite Ht. simpl. split_and!; try done.
      rewrite lookup_insert_eq. unfold st'. by rewrite delete_messages.
  - intros Ht Hm Hk. apply live_incoming_throws; rewrite Ht; [|done].
    unfold st'. by rewrite delete_messages.
Qed.

Lemma toggle_archive_app ui id :
  chats (app (handleToggleArchive ui id)) = chats (app ui)
  ∧ messages (app (handleToggleArchive ui id)) = messages (app ui).
Proof.
  unfold handleToggleArchive.
  destruct (decide (id ∈ _)); [done|].
  by destruct (decide (activeChatId (app ui) = _)).
Qed.

Lemma toggle_archive_set ui id :
  archivedChatIds (view (handleToggleArchive ui id))
  = if decide (id ∈ archivedChatIds (view ui))
    then archivedChatIds (view ui) ∖ {[id]}
    else archivedChatIds (view ui) ∪ {[id]}.
Proof.
  unfold handleToggleArchive.
  destruct (decide (id ∈ _)); [done|].
  by destruct (decide (activeChatId (app ui) = _)).
Qed.

(** X6: toggling the archive flag of a chat twice gives back the archive
    set, and no toggle touches the chat list or the messages; archiving the
    active chat deselects it (unarchiving never does); and a chat shows in
    the archive view exactly when it does not show in the main view, an
    archived chat showing in the archive view only. *)
Theorem toggle_archive_twice ui id :
  archivedChatIds (view (handleToggleArchive (handleToggleArchive ui id) id))
  = archivedChatIds (view ui)
  ∧ chats (app (handleToggleArchive ui id)) = chats (app ui)
  ∧ messages (app (handleToggleArchive ui id)) = messages (app ui)
  ∧ (id ∉ archivedChatIds (view ui) → activeChatId (app ui) = Some id →
       activeChatId (app (handleToggleArchive ui id)) = None)
  ∧ (id ∈ archivedChatIds (view ui) →
       activeChatId (app (handleToggleArchive ui id)) = activeChatId (app ui))
  ∧ (∀ c, c ∈ chats (app ui) →
       (c ∈ visibleChats (setShowArchiveView true ui)
        ↔ c ∉ visibleChats (setShowArchiveView false ui)))
  ∧ (id ∉ archivedChatIds (view ui) →
       Forall (λ c, c_id c ≠ id)
         (visibleChats (setShowArchiveView false (handleToggleArchive ui id)))).
Proof.
  split_and!.
  - rewrite !toggle_archive_set.
    destruct (decide (id ∈ archivedChatIds (view ui))) as [Hin | Hout].
    + rewrite decide_False
        by (intros [_ Hn]%elem_of_difference; by apply Hn, elem_of_singleton).
      apply set_eq. intros x. rewrite elem_of_union, elem_of_difference,
        elem_of_singleton. destruct (decide (x = id)) as [-> | ?]; tauto.
    + rewrite decide_True by (by apply elem_of_union_r, elem_of_singleton).
      apply set_eq. intros x. rewrite elem_of_difference, elem_of_union,
        elem_of_singleton. destruct (decide (x = id)) as [-> | ?]; tauto.
  - apply toggle_archive_app.
  - apply toggle_archive_app.
  - intros Hout Ha. unfold handleToggleArchive.
    rewrite decide_False by done. by rewrite decide_True.
  - intros Hin. unfold handleToggleArchive. by rewrite decide_True.
  - intros c Hc. unfold visibleChats. simpl.
    rewrite !list_elem_of_filter.
    destruct (bool_decide (c_id c ∈ archivedChatIds (view ui)));
      intuition congruence.
  - intros Hout. apply list.Forall_forall. intros c.
    unfold visibleChats. simpl. rewrite list_elem_of_filter.
    intros [Hvis _] Hid. apply bool_decide_eq_false in Hvis. apply Hvis.
    rewrite toggle_archive_set, decide_False by done.
    apply elem_of_union_r, elem_of_singleton. done.
Qed.

End ChatList.

Lemma toggle_archive_twice_witness :
  let ui := onApp (λ st, handleSelectChat st "2") (RefTexts.ui "alice" true) in
  activeChatId (app (handleToggleArchive ui "2")) = None
  ∧ Forall (λ c, c_id c ≠ "2")
      (visibleChats (setShowArchiveView false (handleToggleArchive ui "2"))).
Proof.
  intros ui.
  destruct (toggle_archive_twice ui "2") as (_ & _ & _ & Hact & _ & _ & Hvis).
  split.
  - apply Hact; [apply not_elem_of_empty | reflexivity].
  - apply Hvis. apply not_elem_of_empty.
Defined.

Lemma delete_keeps_history_witness :
  let mounted := Ref.session "alice" true in
  let st := handleIncomingMessage mounted
              (Ref.textFrom "m1" "alice" (Some "bob") "hi") in
  let again := Ref.textFrom "m2" "alice" (Some "bob") "are you there?" in
  ∃ st'', Live.handleIncomingMessage mounted (handleDeleteChat st "bob") again
          = Updated st''
          ∧ messages st'' !! "bob"
            = Some [Ref.textFrom "m1" "alice" (Some "bob") "hi"; again].
Proof.
  intros mounted st again.
  destruct (delete_keeps_history mounted st "bob" again) as (_ & _ & _ & _ & Hback & _).
  destruct Hback as (st'' & c & Hst'' & _ & _ & _ & Hm).
  - reflexivity.
  - split; [by apply own_key_plain with (l := [Ref.textFrom "m1" "alice" (Some "bob") "hi"])|].
    vm_compute. discriminate.
  - exists st''. split; [exact Hst'' | exact Hm].
Defined.

(** ** Groups: members, creation, renaming *)

Lemma elem_of_delete_or {A} (l : list A) (i : nat) (x y : A) :
  l !! i = Some y → x ∈ l → x = y ∨ x ∈ delete i l.
Proof.
  intros Hi Hx. rewrite <- (take_drop_middle l i y Hi) in Hx.
  rewrite delete_take_drop.
  apply elem_of_app in Hx as [Hx | [-> | Hx]%elem_of_cons].
  - right. apply elem_of_app. by left.
  - by left.
  - right. apply elem_of_app. by right.
Qed.

Section Members.
Context `{!Texts}.
Implicit Types (st : AppState).

Lemma addMember_known st chatId contactId now contact :
  find (λ c, bool_decide (c_id c = contactId)) (chats st) = Some contact →
  handleAddMember st chatId contactId now
  = setChats (λ prev,
      match list_find (λ c, c_id c = chatId) prev with
      | None => prev
      | Some (index, chat) =>
          addedMember contactId (c_name contact +:+ " " +:+ wasAdded) now chat
          :: delete index prev
      end)
      (setMessages
         (λ prev, <[chatId := get_or_nil prev chatId
                     ++ [plainMessage (toString now) chatId
                           (c_name contact +:+ " " +:+ wasAdded) them None now read]]>
                    prev) st).
Proof. intros Hc. unfold handleAddMember. by rewrite Hc. Qed.

Lemma addedMember_members contactId text ts c :
  ∃ ms, c_memberIds (addedMember contactId text ts c) = Some ms
        ∧ contactId ∈ ms
        ∧ (contactId ∈ default [] (c_memberIds c) → ms = default [] (c_memberIds c))
        ∧ (contactId ∉ default [] (c_memberIds c) →
             ms = default [] (c_memberIds c) ++ [contactId]).
Proof.
  unfold addedMember. simpl.
  destruct (includes _ contactId) eqn:Hin; eexists; split; try reflexivity.
  - apply includes_true in Hin. split_and!; done.
  - apply not_true_iff_false in Hin. rewrite includes_true in Hin.
    split_and!; [|done..]. apply elem_of_app. right. by apply list_elem_of_singleton.
Qed.

(** X7: adding a contact that is not in the chat list to a group changes
    nothing.  Adding a known contact moves the group to the front, appends
    one system message to its conversation, puts the contact in the member
    list once (a contact already there is not listed again), and raises the
    member count by one; doing it a second time leaves the member list as
    it is and raises the count by one more. *)
Theorem add_member_twice st chatId contactId now now' contact i chat :
  (Forall (λ c, c_id c ≠ contactId) (chats st) →
     handleAddMember st chatId contactId now = st)
  ∧ (find (λ c, bool_decide (c_id c = contactId)) (chats st) = Some contact →
     list_find (λ c, c_id c = chatId) (chats st) = Some (i, chat) →
     let st1 := handleAddMember st chatId contactId now in
     let st2 := handleAddMember st1 chatId contactId now' in
     ∃ c1 c2 ms,
       chats st1 = c1 :: delete i (chats st)
       ∧ c_id c1 = chatId
       ∧ c_memberIds c1 = Some ms ∧ contactId ∈ ms
       ∧ (contactId ∈ default [] (c_memberIds chat) →
            ms = default [] (c_memberIds chat))
       ∧ c_membersCount c1 = Some (countOrZero (c_membersCount chat) + 1)
       ∧ length (get_or_nil (messages st1) chatId)
         = S (length (get_or_nil (messages st) chatId))
       ∧ chats st2 = c2 :: delete i (chats st)
       ∧ c_memberIds c2 = Some ms
       ∧ c_membersCount c2 = Some (countOrZero (c_membersCount chat) + 2)).
Proof.
  split.
  - intros Hnone. unfold handleAddMember.
    assert (Hf : find (λ c, bool_decide (c_id c = contactId)) (chats st) = None).
    { apply find_None. eapply list.Forall_impl; [exact Hnone|].
      intros c Hc. by apply bool_decide_eq_false. }
    by rewrite Hf.
  - intros Hcontact Hchat st1 st2.
    destruct (list_find_id_eq _ _ _ _ Hchat) as [Hid Hi].
    set (text := c_name contact +:+ " " +:+ wasAdded).
    set (c1 := addedMember contactId text now chat).
    assert (H1 : chats st1 = c1 :: delete i (chats st)).
    { unfold st1. rewrite (addMember_known _ _ _ _ contact) by done.
      simpl. by rewrite Hchat. }
    (* the contact is still in the list after the first call *)
    assert (∃ contact', find (λ c, bool_decide (c_id c = contactId)) (chats st1)
                        = Some contact') as [contact' Hcontact'].
    { destruct (find _ (chats st1)) as [x|] eqn:Hf; [by exists x|].
      apply find_None in Hf. rewrite H1, list.Forall_forall in Hf.
      apply find_Some in Hcontact as [Hin Hp].
      destruct (elem_of_delete_or _ _ contact chat Hi Hin) as [-> | Hin'].
      - assert (Hc1 : bool_decide (c_id c1 = contactId) = false)
          by (apply Hf, elem_of_cons; by left).
        simpl in Hc1. congruence.
      - assert (Hc : bool_decide (c_id contact = contactId) = false)
          by (apply Hf, elem_of_cons; by right).
        congruence. }
    set (text' := c_name contact' +:+ " " +:+ wasAdded).
    assert (H2 : chats st2 = addedMember contactId text' now' c1 :: delete i (chats st)).
    { unfold st2. rewrite (addMember_known _ _ _ _ contact') by done.
      simpl. rewrite H1. simpl. rewrite decide_True by done. done. }
    destruct (addedMember_members contactId text now chat)
      as (ms & Hms & Hin & Hold & _).
    destruct (addedMember_members contactId text' now' c1)
      as (ms' & Hms' & _ & Hold' & _).
    fold c1 in Hms. rewrite Hms in Hold'. simpl in Hold'.
    exists c1, (addedMember contactId text' now' c1), ms.
    split_and!; try done.
    + unfold st1. rewrite (addMember_known _ _ _ _ contact) by done.
      simpl. rewrite get_or_nil_insert, length_app. simpl. lia.
    + rewrite Hms'. f_equal. by apply Hold'.
    + simpl. f_equal. unfold countOrZero. simpl. lia.
Qed.

End Members.

Lemma add_member_twice_witness :
  let st0 := handleNewUserJoined (Ref.session "alice" true) (Ref.profile "bob") 3 in
  let ui := handleCreateGroup {| app := st0; view := RefTexts.noView |}
              "Friends" "friends" [] 7 in
  let st := app ui in
  ∃ c2 rest,
    chats (handleAddMember (handleAddMember st "7" "bob" 8) "7" "bob" 9) = c2 :: rest
    ∧ c_membersCount c2 = Some 3.
Proof.
  intros st0 ui st.
  edestruct (add_member_twice st "7" "bob" 8 9) as [_ Hknown].
  destruct Hknown as (c1 & c2 & ms & _ & _ & _ & _ & _ & _ & _ & H2 & _ & Hcount).
  - reflexivity.
  - reflexivity.
  - exists c2, (delete 0%nat (chats st)). split; [exact H2 | exact Hcount].
Defined.

Section CreateGroup.
Context `{!Platform} `{!Texts}.
Hypothesis JSON_roundtrip : ∀ l, JSON_parse (JSON_stringify l) = Some l.
Hypothesis JSON_nonempty : ∀ l, JSON_stringify l ≠ "".
Implicit Types (ui : Ui) (ls : gmap string string) (g : ChatPreview).

Lemma find_account_id (accs : list UserProfile) (contactId : string) T :
  find (λ a, bool_decide (u_id a = contactId)) accs = Some T → u_id T = contactId.
Proof. intros [_ Hid]%find_Some. by apply bool_decide_eq_true in Hid. Qed.

(** A turn of the sharing loop writes at most the key of its contact. *)
Lemma shareGroup_other accs g ls contactId k :
  k ≠ contactId →
  shareGroup accs g ls contactId !! (CHATS_PREFIX +:+ k) = ls !! (CHATS_PREFIX +:+ k).
Proof.
  intros Hk. unfold shareGroup.
  destruct (find _ accs) as [T|] eqn:HT; [|done].
  apply find_account_id in HT.
  destruct (find _ (loadChatsForUser ls (u_id T))); [done|].
  unfold saveChatsForUser. rewrite lookup_insert_ne; [done|].
  intros Heq%chats_key_inj. congruence.
Qed.

Lemma load_key ls ls' k :
  ls' !! (CHATS_PREFIX +:+ k) = ls !! (CHATS_PREFIX +:+ k) →
  loadChatsForUser ls' k = loadChatsForUser ls k.
Proof. intros Heq. unfold loadChatsForUser. by rewrite Heq. Qed.

Lemma shareGroup_fold_other accs g (ids : list string) : ∀ ls k,
  k ∉ ids →
  foldl (shareGroup accs g) ls ids !! (CHATS_PREFIX +:+ k)
  = ls !! (CHATS_PREFIX +:+ k).
Proof.
  induction ids as [|contactId ids IH]; intros ls k Hk; simpl; [done|].
  apply not_elem_of_cons in Hk as [Hne Hk].
  rewrite IH by done. by apply shareGroup_other.
Qed.

(** The turn of a contact that is a local account without the group puts
    the group first in that account's list. *)
Lemma shareGroup_new accs g ls contactId T :
  find (λ a, bool_decide (u_id a = contactId)) accs = Some T →
  Forall (λ c, c_id c ≠ c_id g) (loadChatsForUser ls contactId) →
  loadChatsForUser (shareGroup accs g ls contactId) contactId
  = groupForTarget g :: loadChatsForUser ls contactId.
Proof.
  intros HT Hnone. unfold shareGroup. rewrite HT.
  apply find_account_id in HT. rewrite HT.
  assert (Hf : find (λ c, bool_decide (c_id c = c_id g))
                 (loadChatsForUser ls contactId) = None).
  { apply find_None. eapply list.Forall_impl; [exact Hnone|].
    intros c Hc. by apply bool_decide_eq_false. }
  rewrite Hf. by apply load_save.
Qed.

(** The turn of a contact that is a local account leaves the group in that
    account's list, whether it was there or not. *)
Lemma shareGroup_has accs g ls contactId T :
  find (λ a, bool_decide (u_id a = contactId)) accs = Some T →
  Exists (λ c, c_id c = c_id g) (loadChatsForUser (shareGroup accs g ls contactId)
                                   contactId).
Proof.
  intros HT. unfold shareGroup. rewrite HT.
  apply find_account_id in HT. rewrite HT.
  destruct (find _ (loadChatsForUser ls contactId)) as [c|] eqn:Hf.
  - apply find_Some in Hf as [Hin Hid]. apply bool_decide_eq_true in Hid.
    apply list.Exists_exists. by exists c.
  - rewrite load_save by done. by apply Exists_cons_hd.
Qed.

Lemma shareGroup_keeps accs g ls contactId k :
  Exists (λ c, c_id c = c_id g) (loadChatsForUser ls k) →
  Exists (λ c, c_id c = c_id g) (loadChatsForUser (shareGroup accs g ls contactId) k).
Proof.
  intros Hex. destruct (decide (k = contactId)) as [-> | Hne].
  - unfold shareGroup. destruct (find _ accs) as [T|] eqn:HT; [|done].
    apply find_account_id in HT. rewrite HT.
    destruct (find _ (loadChatsForUser ls contactId)); [done|].
    rewrite load_save by done. by apply Exists_cons_hd.
  - by rewrite (load_key ls) by (by apply shareGroup_other).
Qed.

Lemma shareGroup_fold_keeps accs g (ids : list string) : ∀ ls k,
  Exists (λ c, c_id c = c_id g) (loadChatsForUser ls k) →
  Exists (λ c, c_id c = c_id g)
    (loadChatsForUser (foldl (shareGroup accs g) ls ids) k).
Proof.
  induction ids as [|contactId ids IH]; intros ls k Hex; simpl; [done|].
  by apply IH, shareGroup_keeps.
Qed.

Lemma shareGroup_fold_has accs g (ids : list string) contactId T : ∀ ls,
  contactId ∈ ids →
  find (λ a, bool_decide (u_id a = contactId)) accs = Some T →
  Exists (λ c, c_id c = c_id g)
    (loadChatsForUser (foldl (shareGroup accs g) ls ids) contactId).
Proof.
  induction ids as [|x ids IH]; intros ls Hin HT; [by apply elem_of_nil in Hin|].
  simpl. apply elem_of_cons in Hin as [<- | Hin].
  - apply shareGroup_fold_keeps. by eapply shareGroup_has.
  - by apply IH.
Qed.

Lemma shareGroup_fold_new accs g (ids : list string) contactId T : ∀ ls,
  NoDup ids → contactId ∈ ids →
  find (λ a, bool_decide (u_id a = contactId)) accs = Some T →
  Forall (λ c, c_id c ≠ c_id g) (loadChatsForUser ls contactId) →
  loadChatsForUser (foldl (shareGroup accs g) ls ids) contactId
  = groupForTarget g :: loadChatsForUser ls contactId.
Proof.
  induction ids as [|x ids IH]; intros ls Hnd Hin HT Hnone;
    [by apply elem_of_nil in Hin|].
  apply list.NoDup_cons in Hnd as [Hx Hnd]. simpl.
  apply elem_of_cons in Hin as [<- | Hin].
  - rewrite (load_key (shareGroup accs g ls contactId))
      by (by apply shareGroup_fold_other).
    by eapply shareGroup_new.
  - assert (Hne : contactId ≠ x) by (intros ->; done).
    rewrite IH; try done.
    + f_equal. apply load_key. by apply shareGroup_other.
    + rewrite (load_key ls); [done|]. by apply shareGroup_other.
Qed.

(** X8: creating a group puts it first in the chat list and makes it the
    active conversation, with the creator as admin, a member count of the
    selection plus one, exactly one (read) message in its conversation, and
    no generated replies for it.  Every selected contact that is a local
    account has the group in its stored chat list afterwards; when the
    selection has no repetition and the account did not have the group, it
    is the first entry there, with unread counter 1 and without the admin
    flag.  The stored list of an account that was not selected is not
    written. *)
Theorem create_group_shares ui name username (selected : list string) now :
  let g := groupChat name username selected now in
  let st' := app (handleCreateGroup ui name username selected now) in
  chats st' = g :: chats (app ui)
  ∧ activeChatId st' = Some (c_id g)
  ∧ (∃ m, messages st' !! c_id g = Some [m] ∧ m_status m = read)
  ∧ c_isAdmin g = Some true
  ∧ c_membersCount g = Some (Z.of_nat (length selected) + 1)
  ∧ wantsBotReply g = false
  ∧ (∀ contactId T, contactId ∈ selected →
       find (λ a, bool_decide (u_id a = contactId)) (accounts (app ui)) = Some T →
       Exists (λ c, c_id c = c_id g) (loadChatsForUser (localStorage st') contactId)
       ∧ (NoDup selected →
          Forall (λ c, c_id c ≠ c_id g)
            (loadChatsForUser (localStorage (app ui)) contactId) →
          ∃ shared,
            loadChatsForUser (localStorage st') contactId
            = shared :: loadChatsForUser (localStorage (app ui)) contactId
            ∧ c_id shared = c_id g ∧ c_unreadCount shared = 1
            ∧ c_isAdmin shared = Some false))
  ∧ (∀ k, k ∉ selected →
       localStorage st' !! (CHATS_PREFIX +:+ k)
       = localStorage (app ui) !! (CHATS_PREFIX +:+ k)).
Proof.
  intros g st'. split_and!; try done.
  - eexists. split; [apply lookup_insert_eq | done].
  - intros contactId T Hin HT. split.
    + by eapply shareGroup_fold_has.
    + intros Hnd Hnone. exists (groupForTarget g). split; [|done].
      by eapply shareGroup_fold_new.
  - intros k Hk. by apply shareGroup_fold_other.
Qed.

End CreateGroup.

Lemma create_group_shares_witness :
  let two := setAccounts (λ _, [Ref.profile "alice"; Ref.profile "bob"])
               (Ref.session "alice" true) in
  let ui := {| app := two; view := RefTexts.noView |} in
  ∃ shared,
    loadChatsForUser
      (localStorage (app (handleCreateGroup ui "Friends" "friends" ["bob"] 7))) "bob"
    = shared :: INITIAL_CHATS
    ∧ c_unreadCount shared = 1.
Proof.
  intros two ui.
  destruct (@create_group_shares Ref.platform RefTexts.texts Ref_parse_stringify
              Ref_stringify_nonempty ui "Friends" "friends" ["bob"] 7)
    as (_ & _ & _ & _ & _ & _ & Hshare & _).
  destruct (Hshare "bob" (Ref.profile "bob")) as [_ Hnew].
  - apply list_elem_of_singleton. reflexivity.
  - reflexivity.
  - destruct Hnew as (shared & Hload & _ & Hunread & _).
    + repeat constructor. by intros ?%elem_of_nil.
    + repeat constructor; discriminate.
    + exists shared. split; [exact Hload | exact Hunread].
Defined.

(** ** Manual contacts and the reply round trip *)

Lemma pretty_N_go_length (x : N) : ∀ s,
  (String.length s ≤ String.length (pretty_N_go x s))%nat.
Proof.
  induction (N.lt_wf_0 x) as [x _ IH]; intros s.
  destruct (decide (x = 0)%N) as [-> | Hx]; [by rewrite pretty_N_go_0|].
  rewrite pretty_N_go_step by lia.
  etrans; [|apply IH; apply N.div_lt; lia]. simpl. lia.
Qed.

Lemma toString_nonempty (n : Z) : toString n ≠ "".
Proof.
  assert (Hpos : ∀ p : positive, pretty p ≠ "").
  { intros p. unfold pretty, pretty_positive, pretty, pretty_N.
    rewrite decide_False by done. rewrite pretty_N_go_step by lia.
    intros Heq.
    pose proof (pretty_N_go_length (N.pos p `div` 10)
                  (String (pretty_N_char (N.pos p `mod` 10)) "")) as Hlen.
    rewrite Heq in Hlen. simpl in Hlen. lia. }
  unfold toString, pretty, pretty_Z. destruct n as [|p|p]; [done | apply Hpos | done].
Qed.

Lemma toString_inj (n m : Z) : toString n = toString m → n = m.
Proof. apply pretty_Z_inj. Qed.

Section ManualContact.
Context `{!Platform} `{!Texts}.
Implicit Types (ui : Ui) (st : AppState).

(** X9: a contact added by hand goes first in the chat list and becomes
    the active conversation (leaving the calls and archive views), its
    conversation is set to exactly one system message, and it is
    bot-flagged: the next message sent to it arms a generated reply, as for
    any bot (the one exception being a contact created at clock value 1,
    whose id would be the reserved ['1']). *)
Theorem manual_contact_is_bot ui firstName lastName phone now text attachment
    now' sock :
  socketRef (app ui) = Some sock →
  now ≠ 1 →
  let ui' := handleAddNewContact ui firstName lastName phone now in
  let id := toString now in
  chats (app ui') = manualContact firstName lastName phone now :: chats (app ui)
  ∧ activeChatId (app ui') = Some id
  ∧ showCallsView (view ui') = false ∧ showArchiveView (view ui') = false
  ∧ (∃ m, messages (app ui') !! id = Some [m]
          ∧ m_senderId m = Some "system" ∧ m_status m = read)
  ∧ ∃ pr, armedReply (app ui') text attachment now' = Some pr
          ∧ pr_chatId pr = id ∧ pr_senderId pr = Some id.
Proof.
  intros Hs Hnow ui' id. split_and!; try done.
  - eexists. split; [apply lookup_insert_eq | done].
  - rewrite (send_reply_bot (app ui') text attachment now' id sock
               (manualContact firstName lastName phone now)).
    + assert (Hbot : wantsBotReply (manualContact firstName lastName phone now) = true).
      { unfold wantsBotReply. simpl. apply negb_true_iff, bool_decide_eq_false.
        intros Heq. apply Hnow. by apply toString_inj. }
      rewrite Hbot. eexists. split; [reflexivity|]. done.
    + done.
    + apply toString_nonempty.
    + done.
    + simpl. apply find_head. by apply bool_decide_eq_true.
Qed.


End ManualContact.

Lemma manual_contact_is_bot_witness :
  let ui := handleAddNewContact (RefTexts.ui "alice" true) "Bob" "Stone" "555" 7 in
  ∃ pr, armedReply (app ui) "hello" None 9 = Some pr ∧ pr_chatId pr = "7".
Proof.
  intros ui.
  edestruct (manual_contact_is_bot (RefTexts.ui "alice" true) "Bob" "Stone" "555" 7
               "hello" None 9)
    as (_ & _ & _ & _ & _ & pr & Hpr & Hchat & _).
  - reflexivity.
  - discriminate.
  - exists pr. split; [exact Hpr | exact Hchat].
Defined.


(** ** Receiving the same directory snapshot again *)

Section SyncAgain.
Implicit Types (st : AppState) (users : list UserProfile)
               (d : gmap string UserProfile).

(** The directory after the entries of a snapshot are written: the last
    entry listed under a username wins. *)
Lemma directory_lookup users d (k : string) :
  foldl (λ d u, <[u_username u := u]> d) d users !! k
  = match list.last (filter (λ u, u_username u = k) users) with
    | Some v => Some v
    | None => d !! k
    end.
Proof.
  revert d. induction users as [|u users IH] using rev_ind; intros d; [done|].
  rewrite foldl_app, list.filter_app. simpl.
  destruct (decide (u_username u = k)) as [Hk | Hk].
  - rewrite filter_cons_True, filter_nil by done.
    rewrite last_snoc. subst k. apply lookup_insert_eq.
  - rewrite filter_cons_False, filter_nil, app_nil_r by done.
    rewrite lookup_insert_ne by done. apply IH.
Qed.

Lemma directory_again users d :
  foldl (λ d u, <[u_username u := u]> d)
    (foldl (λ d u, <[u_username u := u]> d) d users) users
  = foldl (λ d u, <[u_username u := u]> d) d users.
Proof.
  apply map_eq. intros k. rewrite !directory_lookup.
  by destruct (list.last _).
Qed.

Lemma syncAdded_nil self now users : ∀ acc,
  (∀ u, u ∈ users → u_username u ≠ self →
        Exists (λ c, c_username c = Some (u_username u)) acc) →
  syncAdded self now acc users = [].
Proof.
  induction users as [|u users IH]; intros acc Hall; simpl; [done|].
  assert (Hrest : ∀ v, v ∈ users → u_username v ≠ self →
                       Exists (λ c, c_username c = Some (u_username v)) acc).
  { intros v Hv. apply Hall, elem_of_cons. by right. }
  destruct (decide (u_username u = self)) as [Hs | Hs]; [by apply IH|].
  destruct (find _ acc) eqn:Hf; [by apply IH|].
  apply find_None in Hf. rewrite list.Forall_forall in Hf.
  assert (Hex : Exists (λ c, c_username c = Some (u_username u)) acc).
  { apply Hall; [apply elem_of_cons; by left | done]. }
  apply list.Exists_exists in Hex as (c & Hc & Hu).
  apply Hf, hasUsername_false in Hc. done.
Qed.

(** X11: a directory snapshot received a second time changes nothing: the
    state after handling it twice is the state after handling it once (the
    relay sends the snapshot at every connection). *)
Theorem user_sync_twice st users now now' :
  handleUserSync (handleUserSync st users now) users now'
  = handleUserSync st users now.
Proof.
  set (st1 := handleUserSync st users now).
  apply state_eq_messages; try done.
  - rewrite (sync_chats st1).
    assert (Hself : u_username (userProfile st1) = u_username (userProfile st)) by done.
    rewrite Hself, syncAdded_nil; [apply app_nil_r|].
    intros u Hu Hne. unfold st1. rewrite sync_chats.
    destruct (syncAdded_complete (u_username (userProfile st)) now users
                (chats st) u Hu Hne) as [Hex | (u' & Hu' & Heq)].
    + apply Exists_app. by left.
    + apply Exists_app. right. apply list.Exists_exists.
      exists (newContact u' now). split.
      * apply list_elem_of_fmap. by exists u'.
      * simpl. by rewrite Heq.
  - simpl. apply directory_again.
Qed.

End SyncAgain.

(** ** The adapter: reconnection and what it forwards *)

Section AdapterFacts.
Context `{!Platform}.
Implicit Types (st : AppState) (s : ChatSocket).

(** X12: identifying on a socket that is not connected puts nothing on the
    wire but is remembered: the next connect event emits exactly one
    REGISTER with that profile.  The socket the component creates when it
    mounts or switches account starts disconnected, so a registered session
    (with a non-empty username) registers at its first connect, under its
    username as id; a session still at the registration screen emits
    nothing then. *)
Theorem register_at_connect s profile st :
  connected s = false →
  (Socket.registerUser s profile).2 = []
  ∧ (Adapter.on (Socket.registerUser s profile).1 W_connect).1.2 = [REGISTER profile]
  ∧ (Adapter.on (Socket.registerUser s profile).1 W_connect).2 = [N_STATUS_CONNECTED]
  ∧ ∃ sock, socketRef (socketEffect st) = Some sock
            ∧ connected sock = false
            ∧ (Adapter.on sock W_connect).1.2
              = if negb (showRegistration st)
                   && negb (bool_decide (u_username (userProfile st) = ""))
                then [REGISTER (withIdUsername (userProfile st))]
                else [].
Proof.
  intros Hoff. split_and!.
  - unfold Socket.registerUser. simpl. by rewrite Hoff.
  - done.
  - done.
  - unfold socketEffect.
    destruct (negb (showRegistration st) && _); eexists; split_and!; done.
Qed.

Lemma deliver_unfold st sock ev now :
  socketRef st = Some sock →
  deliver st ev now
  = foldl (λ a n, subscriber a n now)
      (setSocketRef (Some (Adapter.on sock ev).1.1) st) (Adapter.on sock ev).2.
Proof.
  intros Hs. unfold deliver. rewrite Hs.
  by destruct (Adapter.on sock ev) as [[? ?] ?].
Qed.

Lemma setSocketRef_same st sock :
  socketRef st = Some sock → setSocketRef (Some sock) st = st.
Proof. intros Hs. destruct st. simpl in *. by rewrite Hs. Qed.

(** X13: of what the relay sends, the adapter forwards the directory
    snapshot, peer joins, new messages and read receipts only.  A
    USER_UPDATED, REGISTRATION_SUCCESS, REGISTRATION_ERROR, PROMO_RESULT or
    ADMIN_DATA event, and the join event of the socket's own id, leave the
    component state exactly as it was; and no inbound event whatever
    changes the local profile, the account list, the admin messages or the
    admin loading flag. *)
Theorem relay_events_not_forwarded st ev now :
  (match ev with
   | W_USER_UPDATED _ | W_REGISTRATION_SUCCESS _ | W_REGISTRATION_ERROR _
   | W_PROMO_RESULT _ _ | W_ADMIN_DATA _ | W_connect_error | W_INIT_STATE None =>
       deliver st ev now = st
   | W_USER_JOINED profile =>
       (∀ sock, socketRef st = Some sock → myUserId sock = Some (u_id profile) →
                deliver st ev now = st)
   | _ => True
   end)
  ∧ userProfile (deliver st ev now) = userProfile st
  ∧ accounts (deliver st ev now) = accounts st
  ∧ adminMessages (deliver st ev now) = adminMessages st
  ∧ isLoadingAdmin (deliver st ev now) = isLoadingAdmin st.
Proof.
  destruct (socketRef st) as [sock|] eqn:Hs.
  - rewrite (deliver_unfold st sock) by done. split.
    + destruct ev as [| | |[users|]| | | | | | | |]; simpl;
        try done; try (by apply setSocketRef_same).
      intros sock' [= <-] Hown. rewrite decide_False by (by intros []).
      by apply setSocketRef_same.
    + destruct ev as [| | |[users|]|profile|msg| | | | | |]; simpl; try done.
      * destruct (myProfile sock); done.
      * destruct (decide (Some (u_id profile) ≠ myUserId sock)); [|done]. simpl.
        unfold handleNewUserJoined. simpl.
        destruct (decide _); [done|]. by destruct (find _ _).
      * by destruct (decide (m_senderId msg ≠ _)).
  - unfold deliver. rewrite Hs. split; [|done].
    destruct ev as [| | |[users|]| | | | | | | |]; done.
Qed.

End AdapterFacts.

Lemma register_at_connect_witness :
  (Adapter.on (Socket.registerUser Socket.fresh (Ref.profile "alice")).1 W_connect).1.2
  = [REGISTER (Ref.profile "alice")].
Proof.
  refine (proj1 (proj2 (register_at_connect Socket.fresh
                          (Ref.profile "alice") (Ref.session "alice" true) _))).
  reflexivity.
Defined.

Lemma relay_events_not_forwarded_witness :
  let st := Ref.session "alice" true in
  deliver st (W_USER_JOINED (Ref.profile "alice")) 3 = st.
Proof.
  intros st.
  refine (proj1 (relay_events_not_forwarded st (W_USER_JOINED (Ref.profile "alice")) 3)
            _ _ _); reflexivity.
Defined.

(** ** A direct message from sender to receivers *)

Section EndToEnd.
Context `{!Platform}.
Implicit Types (st : AppState).

(** What the sender's adapter emits is a message the relay can read, and
    what the relay broadcasts for it keeps the text, is addressed to the
    sender's active chat id, names the sender's socket id, and is marked as
    the counterparty's with status sent. *)
Lemma send_reaches_relay st text attachment now active sock chat db :
  activeChatId st = Some active → active ≠ "" →
  socketRef st = Some sock → connected sock = true →
  find (λ c, bool_decide (c_id c = active)) (chats st) = Some chat →
  ∃ e wire,
    (handleSendMessage st text attachment now).1.2 = [e]
    ∧ Adapter.wireMessage e = Some wire
    ∧ (Server.sendMessage db wire).2
      = [(Server.Broadcast, Server.NEW_MESSAGE (Server.relayed wire))]
    ∧ m_chatId (Server.relayed wire) = active
    ∧ m_senderId (Server.relayed wire) = myUserId sock
    ∧ m_text (Server.relayed wire) = text
    ∧ m_sender (Server.relayed wire) = them
    ∧ m_status (Server.relayed wire) = sent.
Proof.
  intros Ha Hne Hs Hconn Hc.
  rewrite (send_emissions _ _ _ _ _ _ _ Ha Hne Hs Hc).
  unfold Socket.sendMessage. rewrite Hconn.
  assert (Hid : c_id chat = active).
  { apply find_Some in Hc as [_ Hid]. by apply bool_decide_eq_true in Hid. }
  eexists _, _. split; [reflexivity|]. rewrite Hid.
  assert (Hwire : (if truthy (c_isGroup chat) then Some active else Some active)
                  = Some active) by (by destruct (truthy _)).
  rewrite Hwire. simpl. split_and!; done.
Qed.

Lemma live_deliver_new_message closure st sock msg now :
  socketRef st = Some sock →
  m_senderId msg ≠ Some (u_username (userProfile closure)) →
  Live.deliver closure st (W_NEW_MESSAGE msg) now
  = Live.handleIncomingMessage closure st msg.
Proof.
  intros Hs Hother. unfold Live.deliver. rewrite Hs.
  cbn [Adapter.on foldl andThen Live.subscriber].
  rewrite setSocketRef_same by done. by rewrite decide_True.
Qed.

Lemma live_incoming_head closure st msg :
  let target := targetChatId closure msg in
  plainTarget st target →
  ∃ st' c rest, Live.handleIncomingMessage closure st msg = Updated st'
    ∧ messages st' !! target = Some (get_or_nil (messages st) target ++ [msg])
    ∧ chats st' = c :: rest
    ∧ c_id c = target
    ∧ c_lastMessage c = m_text msg.
Proof.
  intros target Hplain.
  destruct (list_find (λ c, c_id c = target) (chats st)) as [[i C]|] eqn:Hf.
  - eexists _, _, _. split;
      [apply (live_incoming_existing closure st msg i C); [apply Hplain | done]|].
    split; [apply lookup_insert_eq|]. split; [reflexivity|]. simpl.
    by destruct (list_find_id_eq _ _ _ _ Hf).
  - eexists _, _, _. split; [by apply live_incoming_new|].
    split; [apply lookup_insert_eq|]. split; [reflexivity|]. done.
Qed.

(** X14: a message sent from a connected session to the chat whose id is
    the recipient's username (as the recipient's subscriber holds it) is
    put on the wire by the sender's adapter, broadcast once by the relay,
    and handed by the recipient's adapter to the subscriber, which routes
    it to the conversation named after the sender's socket id.  When the
    lookups of that id in the recipient's message store and directory find
    own properties or nothing, the message is appended last to that
    conversation, with the sender's text, marked as the counterparty's with
    status sent, and the sender's chat is first in the recipient's chat
    list with that text as last message; when the id names a member of
    [Object.prototype] and the recipient's store holds no conversation for
    it, the recipient's state update throws and nothing is filed. *)
Theorem dm_reaches_recipient stA clB stB text attachment now nowB active
    sockA sockB chat db sender :
  activeChatId stA = Some active → active ≠ "" →
  socketRef stA = Some sockA → connected sockA = true →
  find (λ c, bool_decide (c_id c = active)) (chats stA) = Some chat →
  myUserId sockA = Some sender → sender ≠ "" →
  socketRef stB = Some sockB →
  u_username (userProfile clB) = active → sender ≠ active →
  ∃ e wire,
    (handleSendMessage stA text attachment now).1.2 = [e]
    ∧ Adapter.wireMessage e = Some wire
    ∧ (Server.sendMessage db wire).2
      = [(Server.Broadcast, Server.NEW_MESSAGE (Server.relayed wire))]
    ∧ (plainTarget stB sender →
         ∃ stB',
           Live.deliver clB stB (W_NEW_MESSAGE (Server.relayed wire)) nowB
           = Updated stB'
           ∧ (∃ m, messages stB' !! sender
                   = Some (get_or_nil (messages stB) sender ++ [m])
                   ∧ m_text m = text ∧ m_sender m = them ∧ m_status m = sent)
           ∧ ∃ c rest, chats stB' = c :: rest
                       ∧ c_id c = sender ∧ c_lastMessage c = text)
    ∧ (messages stB !! sender = None → Js.inherited sender = true →
         Live.deliver clB stB (W_NEW_MESSAGE (Server.relayed wire)) nowB
         = Throws stB).
Proof.
  intros Ha Hne Hs Hconn Hc Hme Hsender HsB HB Hdiff.
  destruct (send_reaches_relay stA text attachment now active sockA chat db
              Ha Hne Hs Hconn Hc)
    as (e & wire & He & Hw & Hrelay & Hchat & Hsid & Htext & Hsnd & Hstatus).
  exists e, wire. split_and!; try done.
  - intros Hplain.
    assert (Hother : m_senderId (Server.relayed wire)
                     ≠ Some (u_username (userProfile clB))).
    { rewrite Hsid, Hme, HB. by intros [=]. }
    assert (Htarget : targetChatId clB (Server.relayed wire) = sender).
    { rewrite targetChatId_self by (by rewrite Hchat, HB).
      rewrite Hsid, Hme. by apply or_else_present. }
    rewrite (live_deliver_new_message clB stB sockB) by done.
    destruct (live_incoming_head clB stB (Server.relayed wire))
      as (stB' & c & rest & HstB' & Hmsgs & Hchats & Hid & Hlast);
      [by rewrite Htarget|].
    rewrite Htarget in Hmsgs, Hid.
    exists stB'. split; [done|]. split.
    + by exists (Server.relayed wire).
    + exists c, rest. by rewrite <- Htext.
  - intros Hnone Hk.
    assert (Hother : m_senderId (Server.relayed wire)
                     ≠ Some (u_username (userProfile clB))).
    { rewrite Hsid, Hme, HB. by intros [=]. }
    assert (Htarget : targetChatId clB (Server.relayed wire) = sender).
    { rewrite targetChatId_self by (by rewrite Hchat, HB).
      rewrite Hsid, Hme. by apply or_else_present. }
    rewrite (live_deliver_new_message clB stB sockB) by done.
    apply live_incoming_throws; by rewrite Htarget.
Qed.

(** X15: the relay broadcasts to every other socket, so a session that is
    neither the sender nor the addressee receives the direct message too,
    and its subscriber routes it to the conversation named after the
    addressee.  When the lookups of the addressee's id in that session's
    message store and directory find own properties or nothing, the
    message, carrying the sender's id, is appended last to that
    conversation and a chat with the addressee's id is first in the chat
    list with the text as last message; when the id names a member of
    [Object.prototype] and the store holds no conversation for it, the
    state update throws and nothing is filed. *)
Theorem dm_reaches_third_party stA clC stC text attachment now nowC active
    sockA sockC chat sender :
  activeChatId stA = Some active → active ≠ "" →
  socketRef stA = Some sockA → connected sockA = true →
  find (λ c, bool_decide (c_id c = active)) (chats stA) = Some chat →
  myUserId sockA = Some sender →
  socketRef stC = Some sockC →
  u_username (userProfile clC) ≠ active →
  u_username (userProfile clC) ≠ sender →
  ∃ e wire,
    (handleSendMessage stA text attachment now).1.2 = [e]
    ∧ Adapter.wireMessage e = Some wire
    ∧ (plainTarget stC active →
         ∃ stC',
           Live.deliver clC stC (W_NEW_MESSAGE (Server.relayed wire)) nowC
           = Updated stC'
           ∧ (∃ m, messages stC' !! active
                   = Some (get_or_nil (messages stC) active ++ [m])
                   ∧ m_text m = text ∧ m_senderId m = Some sender)
           ∧ ∃ c rest, chats stC' = c :: rest
                       ∧ c_id c = active ∧ c_lastMessage c = text)
    ∧ (messages stC !! active = None → Js.inherited active = true →
         Live.deliver clC stC (W_NEW_MESSAGE (Server.relayed wire)) nowC
         = Throws stC).
Proof.
  intros Ha Hne Hs Hconn Hc Hme HsC HC1 HC2.
  destruct (send_reaches_relay stA text attachment now active sockA chat
              Server.initializeDatabase
              Ha Hne Hs Hconn Hc)
    as (e & wire & He & Hw & Hrelay & Hchat & Hsid & Htext & Hsnd & Hstatus).
  exists e, wire.
  assert (Hother : m_senderId (Server.relayed wire)
                   ≠ Some (u_username (userProfile clC))).
  { rewrite Hsid, Hme. intros [=]. by apply HC2. }
  assert (Htarget : targetChatId clC (Server.relayed wire) = active).
  { rewrite targetChatId_other; [done|]. rewrite Hchat. congruence. }
  split_and!; try done.
  - intros Hplain.
    rewrite (live_deliver_new_message clC stC sockC) by done.
    destruct (live_incoming_head clC stC (Server.relayed wire))
      as (stC' & c & rest & HstC' & Hmsgs & Hchats & Hid & Hlast);
      [by rewrite Htarget|].
    rewrite Htarget in Hmsgs, Hid.
    exists stC'. split; [done|]. split.
    + exists (Server.relayed wire). split_and!; try done. by rewrite Hsid.
    + exists c, rest. by rewrite <- Htext.
  - intros Hnone Hk.
    rewrite (live_deliver_new_message clC stC sockC) by done.
    apply live_incoming_throws; by rewrite Htarget.
Qed.

End EndToEnd.

Lemma dm_reaches_recipient_witness :
  let stA := handleSelectChat
               (handleNewUserJoined (Ref.session "alice" true) (Ref.profile "bob") 3)
               "bob" in
  let stB := Ref.session "bob" true in
  ∃ e wire stB',
    (handleSendMessage stA "hi bob" None 5).1.2 = [e]
    ∧ Adapter.wireMessage e = Some wire
    ∧ Live.deliver stB stB (W_NEW_MESSAGE (Server.relayed wire)) 6 = Updated stB'
    ∧ ∃ c rest, chats stB' = c :: rest
                ∧ c_id c = "alice" ∧ c_lastMessage c = "hi bob".
Proof.
  intros stA stB.
  destruct (@dm_reaches_recipient Ref.platform stA stB stB "hi bob" None 5 6 "bob"
              {| connected := true; myUserId := Some "alice";
                 myProfile := Some (Ref.profile "alice") |}
              {| connected := true; myUserId := Some "bob";
                 myProfile := Some (Ref.profile "bob") |}
              (withUnread 0 (newContact (Ref.profile "bob") 3))
              Server.initializeDatabase "alice")
    as (e & wire & He & Hw & _ & Hfiled & _).
  - reflexivity.
  - discriminate.
  - reflexivity.
  - reflexivity.
  - reflexivity.
  - reflexivity.
  - discriminate.
  - reflexivity.
  - reflexivity.
  - discriminate.
  - destruct Hfiled as (stB' & HstB' & _ & Hchats).
    + apply plain_key; reflexivity.
    + exists e, wire, stB'. split; [exact He|]. split; [exact Hw|].
      split; [exact HstB' | exact Hchats].
Defined.

Lemma dm_reaches_third_party_witness :
  let stA := handleSelectChat
               (handleNewUserJoined (Ref.session "alice" true) (Ref.profile "bob") 3)
               "bob" in
  let stC := Ref.session "carol" true in
  ∃ e wire stC',
    (handleSendMessage stA "hi bob" None 5).1.2 = [e]
    ∧ Adapter.wireMessage e = Some wire
    ∧ Live.deliver stC stC (W_NEW_MESSAGE (Server.relayed wire)) 6 = Updated stC'
    ∧ ∃ c rest, chats stC' = c :: rest
                ∧ c_id c = "bob" ∧ c_lastMessage c = "hi bob".
Proof.
  intros stA stC.
  destruct (@dm_reaches_third_party Ref.platform stA stC stC "hi bob" None 5 6 "bob"
              {| connected := true; myUserId := Some "alice";
                 myProfile := Some (Ref.profile "alice") |}
              {| connected := true; myUserId := Some "carol";
                 myProfile := Some (Ref.profile "carol") |}
              (withUnread 0 (newContact (Ref.profile "bob") 3)) "alice")
    as (e & wire & He & Hw & Hfiled & _).
  - reflexivity.
  - discriminate.
  - reflexivity.
  - reflexivity.
  - reflexivity.
  - reflexivity.
  - reflexivity.
  - discriminate.
  - discriminate.
  - destruct Hfiled as (stC' & HstC' & _ & Hchats).
    + apply plain_key; reflexivity.
    + exists e, wire, stC'. split; [exact He|]. split; [exact Hw|].
      split; [exact HstC' | exact Hchats].
Defined.

(** ** The relay: registration, admin export, promo counter *)

Section RelayFacts.
Import Server Relay.
Implicit Types (db : Db) (profile : UserProfile) (rq : Request).

Lemma usernameTaken_true db (username id : string) :
  usernameTaken db username id = true
  ↔ ∃ k row, users db !! k = Some row ∧ r_username row = username ∧ k ≠ id.
Proof. unfold usernameTaken. rewrite bool_decide_eq_true. done. Qed.

Lemma usernameTaken_false db (username id : string) :
  usernameTaken db username id = false
  ↔ ∀ k row, users db !! k = Some row → r_username row = username → k = id.
Proof.
  rewrite <- not_true_iff_false, usernameTaken_true. split.
  - intros Hno k row Hk Hu. destruct (decide (k = id)); [done|].
    destruct Hno. by exists k, row.
  - intros Hall (k & row & Hk & Hu & Hne). by apply Hne, (Hall k row).
Qed.

Lemma register_taken db profile :
  usernameTaken db (u_username profile) (u_id profile) = true →
  register db profile
  = (db, [(ToSender, REGISTRATION_ERROR "Username is already taken.")]).
Proof. intros Ht. unfold register. by rewrite Ht. Qed.

Lemma register_users db profile :
  usernameTaken db (u_username profile) (u_id profile) = false →
  users (register db profile).1
  = <[u_id profile :=
        upserted (users db !! u_id profile) profile
          (if decide (u_username profile = "kyamich") then 1 else 0)]> (users db).
Proof. intros Ht. unfold register. by rewrite Ht. Qed.

Lemma register_other_tables db profile :
  messages (register db profile).1 = messages db
  ∧ promo_codes (register db profile).1 = promo_codes db
  ∧ user_promo_usage (register db profile).1 = user_promo_usage db.
Proof. unfold register. by destruct (usernameTaken _ _ _). Qed.

(** A redemption changes no username and no admin column. *)
Lemma redeem_users db userId code k row' :
  users (redeemPromo db userId code).1 !! k = Some row' →
  ∃ row, users db !! k = Some row
         ∧ r_username row' = r_username row ∧ r_isAdmin row' = r_isAdmin row.
Proof.
  unfold redeemPromo.
  destruct (promo_codes db !! code); [|by exists row'].
  destruct (decide _); [by exists row'|]. simpl.
  destruct (decide (userId = k)) as [-> | Hne].
  - rewrite lookup_alter_eq. intros (row & Hrow & ->)%fmap_Some. by exists row.
  - rewrite lookup_alter_ne by done. by exists row'.
Qed.

Lemma serve_unique db rq : uniqueUsernames db → uniqueUsernames (serve db rq).
Proof.
  intros Hu. destruct rq as [profile | userId code | msg]; simpl.
  - destruct (usernameTaken db (u_username profile) (u_id profile)) eqn:Ht.
    + by rewrite register_taken.
    + intros k1 k2 r1 r2. rewrite register_users by done.
      rewrite usernameTaken_false in Ht.
      intros [[<- <-] | [Hk1 H1]]%lookup_insert_Some
             [[<- <-] | [Hk2 H2]]%lookup_insert_Some; simpl; try done.
      * intros Heq. symmetry. by apply (Ht k2 r2).
      * intros Heq. by apply (Ht k1 r1).
      * by apply Hu.
  - intros k1 k2 r1 r2 (x1 & H1 & E1 & _)%redeem_users (x2 & H2 & E2 & _)%redeem_users.
    rewrite E1, E2. by apply Hu.
  - done.
Qed.

Lemma served_snoc rqs rq : served (rqs ++ [rq]) = serve (served rqs) rq.
Proof. unfold served. by rewrite foldl_app. Qed.

Lemma served_unique rqs : uniqueUsernames (served rqs).
Proof.
  induction rqs as [|rq rqs IH] using rev_ind.
  - intros k1 k2 r1 r2 H1. unfold served in H1. simpl in H1.
    by rewrite lookup_empty in H1.
  - rewrite served_snoc. by apply serve_unique.
Qed.

(** X16: registration keeps usernames unique.  Whatever requests the
    relay has served since its tables were created, no two rows of the
    users table share a username; a REGISTER whose username belongs to a
    row with another id is answered with the single error
    ['Username is already taken.'] and changes nothing; any other REGISTER
    leaves a row for the profile's id with the profile's username and is
    answered with REGISTRATION_SUCCESS to the sender and USER_JOINED to the
    others. *)
Theorem usernames_stay_unique rqs db profile :
  uniqueUsernames (served rqs)
  ∧ ((∃ k row, users db !! k = Some row ∧ r_username row = u_username profile
               ∧ k ≠ u_id profile) →
       register db profile
       = (db, [(ToSender, REGISTRATION_ERROR "Username is already taken.")]))
  ∧ ((∀ k row, users db !! k = Some row → r_username row = u_username profile →
               k = u_id profile) →
       (∃ row, users (register db profile).1 !! u_id profile = Some row
               ∧ r_username row = u_username profile
               ∧ r_name row = u_name profile)
       ∧ ∃ answer, (register db profile).2
                   = [(ToSender, REGISTRATION_SUCCESS answer);
                      (Broadcast, USER_JOINED answer)]
                   ∧ u_username answer = u_username profile).
Proof.
  split_and!.
  - apply served_unique.
  - intros Ht%usernameTaken_true. by apply register_taken.
  - intros Ht%usernameTaken_false. split.
    + eexists. rewrite register_users by done.
      split; [apply lookup_insert_eq | done].
    + unfold register. rewrite Ht. eexists. split; [reflexivity | done].
Qed.

(** In a reachable state only a row whose username is kyamich has the
    admin column set. *)
Lemma serve_admin db rq :
  (∀ k row, users db !! k = Some row → toBool (r_isAdmin row) = true →
            r_username row = "kyamich") →
  ∀ k row, users (serve db rq) !! k = Some row → toBool (r_isAdmin row) = true →
           r_username row = "kyamich".
Proof.
  intros Hinv k row. destruct rq as [profile | userId code | msg]; simpl.
  - destruct (usernameTaken db (u_username profile) (u_id profile)) eqn:Ht.
    + rewrite register_taken by done. apply Hinv.
    + rewrite register_users by done.
      intros [[<- <-] | [Hk H1]]%lookup_insert_Some; [|by apply (Hinv k)].
      simpl. by destruct (decide (u_username profile = "kyamich")).
  - intros (x & Hx & -> & ->)%redeem_users. by apply (Hinv k).
  - apply Hinv.
Qed.

(** X17: the admin export is answered only to the id registered under the
    username kyamich.  In every state the relay can reach, a request for
    all messages gets an answer only if the requesting id has a row whose
    username is kyamich (by X16 at most one id has), the answer then being
    the rows of the messages table; a request from an id without a row is
    never answered. *)
Theorem admin_export_restricted rqs userId :
  (∀ rows, adminGetAllData (served rqs) userId = Some rows →
     (∃ row, users (served rqs) !! userId = Some row ∧ r_username row = "kyamich")
     ∧ ∀ m, m ∈ rows ↔ ∃ id, messages (served rqs) !! id = Some m)
  ∧ (users (served rqs) !! userId = None →
       adminGetAllData (served rqs) userId = None).
Proof.
  assert (Hinv : ∀ k row, users (served rqs) !! k = Some row →
                          toBool (r_isAdmin row) = true → r_username row = "kyamich").
  { induction rqs as [|rq rqs IH] using rev_ind.
    - intros k row Hk. unfold served in Hk. simpl in Hk.
      by rewrite lookup_empty in Hk.
    - rewrite served_snoc. by apply serve_admin. }
  split.
  - intros rows. unfold adminGetAllData.
    destruct (users (served rqs) !! userId) as [row|] eqn:Hrow; [|done].
    destruct (toBool (r_isAdmin row)) eqn:Hadmin; [|done].
    intros [= <-]. split.
    + exists row. split; [done|]. by apply (Hinv userId).
    + intros m. rewrite list_elem_of_fmap. split.
      * intros ([id m'] & -> & Hin%elem_of_map_to_list). by exists id.
      * intros (id & Hm). exists (id, m). split; [done|].
        by apply elem_of_map_to_list.
  - intros Hnone. unfold adminGetAllData. by rewrite Hnone.
Qed.

(** X18: registering again does not lose premium.  A successful
    redemption followed by a REGISTER for the same id (as the adapter sends
    at every reconnect) leaves the row premium, with the name the new
    profile carries; a row created by REGISTER starts without premium. *)
Theorem reregistration_keeps_premium db userId code promo row profile :
  promo_codes db !! code = Some promo →
  (userId, code) ∉ user_promo_usage db →
  users db !! userId = Some row →
  u_id profile = userId →
  usernameTaken db (u_username profile) userId = false →
  (∃ row', users (register (redeemPromo db userId code).1 profile).1 !! userId
           = Some row'
           ∧ r_isPremium row' = 1 ∧ r_name row' = u_name profile)
  ∧ ∀ db0 fresh row0,
      users db0 !! u_id fresh = None →
      usernameTaken db0 (u_username fresh) (u_id fresh) = false →
      users (register db0 fresh).1 !! u_id fresh = Some row0 →
      r_isPremium row0 = 0.
Proof.
  intros Hc Hu Hrow Hid Ht. split.
  - destruct (redeem_first db userId code promo Hc Hu) as (Husers & _).
    set (db1 := (redeemPromo db userId code).1) in *.
    assert (Ht1 : usernameTaken db1 (u_username profile) (u_id profile) = false).
    { rewrite Hid. apply usernameTaken_false. intros k r Hk Hname.
      rewrite usernameTaken_false in Ht.
      apply redeem_users in Hk as (r0 & Hr0 & Heq & _).
      apply (Ht k r0 Hr0). by rewrite <- Heq. }
    eexists. rewrite register_users, Hid by done.
    split; [apply lookup_insert_eq|].
    rewrite Husers, lookup_alter_eq, Hrow. done.
  - intros db0 fresh row0 Hnone Ht0. rewrite register_users by done.
    rewrite lookup_insert_eq, Hnone. by intros [= <-].
Qed.

Lemma serve_counted db rq : promoCounted db → promoCounted (serve db rq).
Proof.
  intros [(promo & Hp & Huses & Hmax) Honly].
  destruct rq as [profile | userId code | msg]; simpl.
  - unfold promoCounted, redemptions.
    destruct (register_other_tables db profile) as (_ & -> & ->).
    split; [by exists promo | done].
  - unfold redeemPromo.
    destruct (decide (code = "welcome10")) as [-> | Hne].
    + rewrite Hp. destruct (decide _) as [Hin | Hout];
        [split; [by exists promo | done]|].
      split; simpl.
      * exists (bumpUses promo). rewrite lookup_alter_eq, Hp. split; [done|].
        simpl. split; [|done]. unfold redemptions. simpl.
        rewrite filter_union_L, filter_singleton_True_L by (done || apply _).
        rewrite size_union, size_singleton.
        -- unfold redemptions in Huses. lia.
        -- apply disjoint_singleton_l. by intros [_ ?]%elem_of_filter.
      * intros c Hc. rewrite lookup_alter_ne by done. by apply Honly.
    + rewrite (Honly code Hne). split; [by exists promo | done].
  - split; [by exists promo | done].
Qed.

(** X19: the use counter of the promo code counts its users.  Whatever
    requests the relay has served, welcome10 is the only code it knows,
    with its limit unchanged, and the code's use counter equals the number
    of users recorded as having redeemed it. *)
Theorem promo_uses_counted rqs :
  ∃ promo, promo_codes (served rqs) !! "welcome10" = Some promo
    ∧ current_uses promo = Z.of_nat (redemptions (served rqs) "welcome10")
    ∧ max_uses promo = 999999
    ∧ ∀ code userId, code ≠ "welcome10" →
        (redeemPromo (served rqs) userId code).2
        = [(ToSender, PROMO_RESULT false "Invalid code")].
Proof.
  assert (Hinv : promoCounted (served rqs)).
  { induction rqs as [|rq rqs IH] using rev_ind.
    - split; [|intros code Hne; by apply lookup_singleton_ne].
      eexists. split; [apply lookup_singleton_eq|]. split; [|done].
      unfold redemptions, served. simpl.
      rewrite filter_empty_L by apply _. by rewrite size_empty.
    - rewrite served_snoc. by apply serve_counted. }
  destruct Hinv as [(promo & Hp & Huses & Hmax) Honly].
  exists promo. split_and!; try done.
  intros code userId Hne. by rewrite redeem_unknown by (by apply Honly).
Qed.

End RelayFacts.

Lemma promo_uses_counted_witness :
  (Server.redeemPromo (served [Relay.RqRedeem "alice" "welcome10"]) "alice" "free").2
  = [(Server.ToSender, Server.PROMO_RESULT false "Invalid code")].
Proof.
  destruct (promo_uses_counted [Relay.RqRedeem "alice" "welcome10"])
    as (promo & _ & _ & _ & Hother).
  apply Hother. discriminate.
Defined.

Lemma usernames_stay_unique_witness :
  let db := (Relay.register Server.initializeDatabase (Ref.profile "alice")).1 in
  let impostor :=
    {| u_id := "mallory"; u_name := "Alice"; u_username := "alice"; u_phone := "";
       u_bio := ""; u_avatarColor := ""; u_isPremium := None; u_isAdmin := None;
       u_privacy := None |} in
  Relay.register db impostor
  = (db, [(Server.ToSender, Relay.REGISTRATION_ERROR "Username is already taken.")]).
Proof.
  intros db impostor.
  destruct (usernames_stay_unique [] db impostor) as (_ & Htaken & _).
  apply Htaken. eexists "alice", _. split; [reflexivity|]. split; [reflexivity|].
  discriminate.
Defined.

Lemma admin_export_restricted_witness :
  Relay.adminGetAllData (served [Relay.RqRegister (Ref.profile "alice")]) "mallory"
  = None.
Proof.
  destruct (admin_export_restricted [Relay.RqRegister (Ref.profile "alice")] "mallory")
    as [_ Hnone].
  apply Hnone. vm_compute. reflexivity.
Defined.

Lemma reregistration_keeps_premium_witness :
  let db := (Relay.register Server.initializeDatabase (Ref.profile "alice")).1 in
  ∃ row', Server.users
            (Relay.register (Server.redeemPromo db "alice" "welcome10").1
               (Ref.profile "alice")).1 !! "alice" = Some row'
          ∧ Server.r_isPremium row' = 1.
Proof.
  intros db.
  destruct (reregistration_keeps_premium db "alice" "welcome10"
              {| Server.max_uses := 999999; Server.current_uses := 0 |}
              (Relay.upserted None (Ref.profile "alice") 0)
              (Ref.profile "alice")) as [Hkeep _].
  - vm_compute. reflexivity.
  - apply not_elem_of_empty.
  - vm_compute. reflexivity.
  - reflexivity.
  - vm_compute. reflexivity.
  - destruct Hkeep as (row' & Hrow & Hprem & _). exists row'.
    split; [exact Hrow | exact Hprem].
Defined.

(** ** From the users table to the contact list *)

Section Directory.
Context `{!Platform}.
Implicit Types (st : AppState) (db : Server.Db).





End Directory.


(** ** Completing the registration of a new account *)

Section Registration.
Context `{!Platform}.
Hypothesis JSON_roundtrip : ∀ l, JSON_parse (JSON_stringify l) = Some l.
Hypothesis JSON_nonempty : ∀ l, JSON_stringify l ≠ "".
Implicit Types (st : AppState) (ls : gmap string string)
               (msgs : gmap string (list Message))
               (initial : list ChatPreview)
               (turns : list (UserProfile * string)).

Lemma registration_key_other (k : string) : CHATS_PREFIX +:+ k ≠ REGISTRATION.
Proof. unfold CHATS_PREFIX, REGISTRATION. cbn. intros Heq. by simplify_eq. Qed.

Lemma filter_agree {A} (P Q : A → Prop) `{!∀ x, Decision (P x)}
    `{!∀ x, Decision (Q x)} (l : list A) :
  (∀ x, x ∈ l → P x ↔ Q x) → filter P l = filter Q l.
Proof.
  induction l as [|x l IH]; intros Hall; [done|].
  assert (Hx : P x ↔ Q x) by (apply Hall, elem_of_cons; by left).
  assert (Hl : filter P l = filter Q l).
  { apply IH. intros y Hy. apply Hall, elem_of_cons. by right. }
  destruct (decide (P x)) as [HP | HP].
  - rewrite !filter_cons_True by tauto. by rewrite Hl.
  - rewrite !filter_cons_False by tauto. done.
Qed.

Lemma live_load_save initial ls (userId : string) (l : list ChatPreview) :
  Live.loadChatsForUser initial (saveChatsForUser userId l ls) userId = l.
Proof.
  unfold Live.loadChatsForUser, saveChatsForUser. rewrite lookup_insert_eq.
  rewrite decide_False by apply JSON_nonempty.
  by rewrite JSON_roundtrip.
Qed.

Lemma live_load_key initial ls ls' (k : string) :
  ls' !! (CHATS_PREFIX +:+ k) = ls !! (CHATS_PREFIX +:+ k) →
  Live.loadChatsForUser initial ls' k = Live.loadChatsForUser initial ls k.
Proof. intros Heq. unfold Live.loadChatsForUser. by rewrite Heq. Qed.

Lemma live_load_save_other initial ls (a b : string) (l : list ChatPreview) :
  a ≠ b →
  Live.loadChatsForUser initial (saveChatsForUser a l ls) b
  = Live.loadChatsForUser initial ls b.
Proof.
  intros Hne. apply live_load_key. unfold saveChatsForUser.
  rewrite lookup_insert_ne; [done|]. intros Heq. by apply Hne, chats_key_inj.
Qed.

(** One turn of the loop, read through [lacksChat]. *)
Lemma notify_turn initial name username now ls (queued : list Message) acc rnd :
  let r := Live.notifyExisting initial name username now (ls, queued) (acc, rnd) in
  (∀ k, k ≠ u_id acc →
     Live.loadChatsForUser initial r.1 k = Live.loadChatsForUser initial ls k)
  ∧ Live.loadChatsForUser initial r.1 (u_id acc)
    = (if lacksChat initial ls username acc
       then newcomerChat name username now
            :: Live.loadChatsForUser initial ls (u_id acc)
       else Live.loadChatsForUser initial ls (u_id acc))
  ∧ ∃ joins, r.2 = queued ++ joins
             ∧ length joins
               = (if lacksChat initial ls username acc then 1%nat else 0%nat)
             ∧ Forall (isJoinNotice username) joins.
Proof.
  unfold Live.notifyExisting, lacksChat. simpl.
  destruct (find _ (Live.loadChatsForUser initial ls (u_id acc)))
    as [c|] eqn:Hfind; simpl.
  - split_and!; try done. exists []. by rewrite app_nil_r.
  - split_and!.
    + intros k Hk. by apply live_load_save_other.
    + by apply live_load_save.
    + eexists. split; [done|]. split; [done|]. by apply Forall_singleton.
Qed.

Lemma lacksChat_agree initial ls username acc ls' :
  Live.loadChatsForUser initial ls' (u_id acc)
  = Live.loadChatsForUser initial ls (u_id acc) →
  lacksChat initial ls' username acc = lacksChat initial ls username acc.
Proof. intros Heq. unfold lacksChat. by rewrite Heq. Qed.

Lemma notify_fold initial name username now turns : ∀ ls (queued : list Message),
  NoDup (u_id <$> turns.*1) →
  let r := foldl (Live.notifyExisting initial name username now) (ls, queued) turns in
  (∀ k, k ∉ u_id <$> turns.*1 →
     Live.loadChatsForUser initial r.1 k = Live.loadChatsForUser initial ls k)
  ∧ (∀ acc, acc ∈ turns.*1 →
       Live.loadChatsForUser initial r.1 (u_id acc)
       = if lacksChat initial ls username acc
         then newcomerChat name username now
              :: Live.loadChatsForUser initial ls (u_id acc)
         else Live.loadChatsForUser initial ls (u_id acc))
  ∧ ∃ joins, r.2 = queued ++ joins
        ∧ length joins
          = length (filter (λ acc, lacksChat initial ls username acc = true)
                      turns.*1)
        ∧ Forall (isJoinNotice username) joins.
Proof.
  induction turns as [|[acc rnd] turns IH]; intros ls queued Hnd.
  - simpl. split_and!; try done.
    + by intros acc ?%elem_of_nil.
    + exists []. by rewrite app_nil_r.
  - rewrite !fmap_cons in Hnd. simpl in Hnd.
    apply list.NoDup_cons in Hnd as [Hfresh Hnd].
    destruct (notify_turn initial name username now ls queued acc rnd)
      as (Hother1 & Hown1 & (joins1 & Hj1 & Hlen1 & Hall1)).
    cbn [foldl]. cbv zeta.
    destruct (Live.notifyExisting initial name username now (ls, queued) (acc, rnd))
      as [ls1 queued1] eqn:Hturn.
    simpl in Hother1, Hown1, Hj1.
    pose proof (IH ls1 queued1 Hnd) as HIH. cbv zeta in HIH.
    destruct HIH as (Hother & Hown & (joins & Hj & Hlen & Hall)).
    assert (Hrest : ∀ a, a ∈ turns.*1 →
                         Live.loadChatsForUser initial ls1 (u_id a)
                         = Live.loadChatsForUser initial ls (u_id a)).
    { intros a Ha. apply Hother1. intros Heq. apply Hfresh. rewrite <- Heq.
      apply list_elem_of_fmap. by exists a. }
    split_and!.
    + intros k Hk. rewrite !fmap_cons in Hk. simpl in Hk.
      apply not_elem_of_cons in Hk as [Hne Hk].
      rewrite Hother by done. by apply Hother1.
    + intros a Ha. rewrite fmap_cons in Ha. simpl in Ha.
      apply elem_of_cons in Ha as [-> | Ha].
      * rewrite Hother by done. done.
      * rewrite Hown by done.
        by rewrite (lacksChat_agree initial ls username a ls1 (Hrest a Ha)),
             (Hrest a Ha).
    + exists (joins1 ++ joins). split_and!.
      * by rewrite Hj, Hj1, app_assoc.
      * rewrite length_app, Hlen, Hlen1. rewrite fmap_cons. simpl.
        rewrite (filter_agree _ (λ a, lacksChat initial ls username a = true)
                   (turns.*1)).
        -- destruct (lacksChat initial ls username acc) eqn:Hl.
           ++ rewrite filter_cons_True by done. done.
           ++ rewrite filter_cons_False by (by rewrite Hl). done.
        -- intros a Ha.
           by rewrite (lacksChat_agree initial ls username a ls1 (Hrest a Ha)).
      * apply Forall_app. by split.
Qed.

(** The queued updaters on a conversation whose lookup finds an own
    property or nothing: each appends its message. *)
Lemma fileAll_plain username (queued : list Message) : ∀ msgs,
  Js.get msgs username ≠ Js.Inherited →
  ∃ msgs', Live.fileAll username queued msgs = Some msgs'
    ∧ get_or_nil msgs' username = get_or_nil msgs username ++ queued
    ∧ ∀ k, k ≠ username → msgs' !! k = msgs !! k.
Proof.
  unfold Live.fileAll.
  induction queued as [|m queued IH]; intros msgs Hplain; simpl.
  - exists msgs. by rewrite app_nil_r.
  - rewrite js_append_plain by done.
    destruct (IH (<[username := get_or_nil msgs username ++ [m]]> msgs))
      as (msgs' & Hfile & Hconv & Hothers).
    { apply own_key_plain with (l := get_or_nil msgs username ++ [m]).
      apply lookup_insert_eq. }
    exists msgs'. split; [done|]. split.
    + by rewrite Hconv, get_or_nil_insert, <- app_assoc.
    + intros k Hk. rewrite Hothers by done. by apply lookup_insert_ne.
Qed.

Lemma fileAll_none username (queued : list Message) :
  foldl (λ o m, o ≫= (λ d, Js.append d username m)) None queued = None.
Proof. by induction queued. Qed.

Lemma fileAll_throws username (queued : list Message) msgs :
  queued ≠ [] → msgs !! username = None → Js.inherited username = true →
  Live.fileAll username queued msgs = None.
Proof.
  intros Hne Hnone Hk. destruct queued as [|m queued]; [done|].
  unfold Live.fileAll. simpl. rewrite js_append_throws by done.
  apply fileAll_none.
Qed.

(** X21: completing a registration tells every local account about the
    newcomer, once.  [initial] is what the array [INITIAL_CHATS] holds at
    that time.  When the local accounts have distinct ids, the stored chat
    list of each of them gets the newcomer's chat (unread counter 1) in
    front unless it already has a chat with that id, in which case it is
    unchanged, and one REGISTER with the new profile is emitted if the
    session's socket is connected; both are done by the handler itself,
    whatever becomes of the state update.  When the lookup of the
    newcomer's username in the message store finds an own property or
    nothing (or no account is notified), the conversation named after the
    newcomer gets one join notice per account notified and no other
    conversation changes, the newcomer becomes the current profile, is
    appended to the accounts and starts from the chat list [initial]; when
    an account is notified and the username names a member of
    [Object.prototype] that the store does not hold, the state update
    throws and the profile, the accounts, the chats and the messages stay
    as they were. *)
Theorem registration_notifies_accounts initial st name username now rnd :
  NoDup (u_id <$> accounts st) →
  let res := Live.handleRegistrationComplete initial st name username now rnd in
  let notified :=
    filter (λ acc, lacksChat initial (localStorage st) username acc = true)
      (accounts st) in
  (∃ done, stateOf res.1 = Some done
     ∧ ∀ acc, acc ∈ accounts st →
         Live.loadChatsForUser initial (localStorage done) (u_id acc)
         = if lacksChat initial (localStorage st) username acc
           then newcomerChat name username now
                :: Live.loadChatsForUser initial (localStorage st) (u_id acc)
           else Live.loadChatsForUser initial (localStorage st) (u_id acc))
  ∧ res.2
    = match socketRef st with
      | Some sock =>
          if connected sock then [REGISTER (registeredProfile name username)]
          else []
      | None => []
      end
  ∧ (notified = [] ∨ Js.get (messages st) username ≠ Js.Inherited →
       ∃ st', res.1 = Updated st'
         ∧ (∃ joins,
              get_or_nil (messages st') username
              = get_or_nil (messages st) username ++ joins
              ∧ length joins = length notified
              ∧ Forall (isJoinNotice username) joins)
         ∧ (∀ k, k ≠ username → messages st' !! k = messages st !! k)
         ∧ accounts st' = accounts st ++ [registeredProfile name username]
         ∧ userProfile st' = registeredProfile name username
         ∧ chats st' = initial
         ∧ showRegistration st' = false)
  ∧ (notified ≠ [] → messages st !! username = None →
     Js.inherited username = true →
       ∃ done, res.1 = Throws done
         ∧ messages done = messages st ∧ chats done = chats st
         ∧ accounts done = accounts st ∧ userProfile done = userProfile st).
Proof.
  intros Hnd res notified.
  set (turns := zip (accounts st) (rnd <$> seq 0 (length (accounts st)))).
  assert (Hfst : turns.*1 = accounts st).
  { apply fst_zip. by rewrite length_fmap, length_seq. }
  pose proof (notify_fold initial name username now turns (localStorage st) [])
    as Hfold.
  rewrite Hfst in Hfold. specialize (Hfold Hnd). cbv zeta in Hfold.
  destruct Hfold as (_ & Hown & (joins & Hjoins & Hlen & Hall)).
  fold notified in Hlen. simpl in Hjoins.
  assert (Hkey : ∀ ls' acc,
            Live.loadChatsForUser initial (<[REGISTRATION := "true"]> ls') (u_id acc)
            = Live.loadChatsForUser initial ls' (u_id acc)).
  { intros ls' acc. apply live_load_key. apply lookup_insert_ne. intros Heq.
    by apply (registration_key_other (u_id acc)). }
  unfold res, Live.handleRegistrationComplete. fold turns.
  destruct (foldl _ _ turns) as [ls queued] eqn:Hturns.
  simpl in Hown, Hjoins. subst queued.
  set (ref := match socketRef st with
              | Some sock =>
                  let '(sock', out) :=
                    Socket.registerUser sock (registeredProfile name username) in
                  (Some sock', out)
              | None => (None, [])
              end).
  assert (Hout : ref.2 = match socketRef st with
                         | Some sock =>
                             if connected sock
                             then [REGISTER (registeredProfile name username)]
                             else []
                         | None => []
                         end).
  { unfold ref. by destruct (socketRef st). }
  destruct ref as [ref out]. simpl in Hout. subst out.
  split_and!.
  - destruct (Live.fileAll username joins (messages st)); simpl;
      (eexists; split; [reflexivity|]); intros acc Hacc; simpl;
      rewrite Hkey; by apply Hown.
  - by destruct (Live.fileAll username joins (messages st)).
  - intros Hplain.
    assert (Hfile : ∃ msgs', Live.fileAll username joins (messages st) = Some msgs'
              ∧ get_or_nil msgs' username = get_or_nil (messages st) username ++ joins
              ∧ ∀ k, k ≠ username → msgs' !! k = messages st !! k).
    { destruct Hplain as [Hnobody | Hplain]; [|by apply fileAll_plain].
      rewrite Hnobody in Hlen. apply nil_length_inv in Hlen. subst joins.
      exists (messages st). by rewrite app_nil_r. }
    destruct Hfile as (msgs' & -> & Hconv & Hothers).
    eexists. split; [reflexivity|]. simpl. split_and!; try done.
    by exists joins.
  - intros Hsome Hnone Hk.
    rewrite fileAll_throws; try done.
    + eexists. split; [reflexivity|]. done.
    + intros ->. simpl in Hlen. by destruct notified.
Qed.

End Registration.

Lemma registration_notifies_accounts_witness :
  let st := Ref.session "alice" true in
  ∃ st', (Live.handleRegistrationComplete INITIAL_CHATS st "Bob" "bob" 9
            (λ _, "0.5")).1 = Updated st'
         ∧ accounts st' = accounts st ++ [registeredProfile "Bob" "bob"]
         ∧ userProfile st' = registeredProfile "Bob" "bob".
Proof.
  intros st.
  destruct (@registration_notifies_accounts Ref.platform
              Ref_parse_stringify Ref_stringify_nonempty
              INITIAL_CHATS st "Bob" "bob" 9 (λ _, "0.5"))
    as (_ & _ & Hupdated & _).
  - apply NoDup_singleton.
  - destruct Hupdated as (st' & Hst' & _ & _ & Haccs & Hprof & _).
    + right. apply js_get_not_inherited. right. reflexivity.
    + exists st'. split; [exact Hst'|]. split; [exact Haccs | exact Hprof].
Defined.

(** ** Editing a group's name and description *)

Section UpdateGroup.
Context `{!Platform} `{!Texts}.
Implicit Types (st : AppState) (C : ChatPreview).

Lemma update_find (f : ChatPreview → ChatPreview) (chatId : string)
    (l : list ChatPreview) :
  (∀ c, c_id (f c) = c_id c) →
  list_find (λ c, c_id c = chatId) (f <$> l)
  = prod_map id f <$> list_find (λ c, c_id c = chatId) l.
Proof.
  intros Hid. rewrite list_find_fmap. f_equal.
  apply list_find_ext. intros c. simpl. by rewrite Hid.
Qed.

Lemma update_keeps_id (chatId name bio : string) C :
  c_id (if decide (c_id C = chatId) then applyUpdates (nameAndBio name bio) C else C)
  = c_id C.
Proof. by destruct (decide _). Qed.

(** X22: saving a group's name and description announces it in the group.
    For a chat of the list whose id is not the local username, saving a
    name and a description of which one at least is not empty writes both
    into the chat, moves the chat to the front of the list with the notice
    as its last message, counts the notice as unread unless the chat is the
    active one, and appends one notice, already read, to the chat's
    conversation; saving an empty name with an empty description blanks the
    chat's name in place and announces nothing. *)
Theorem update_group_notice st (chatId name bio : string) now i C :
  chatId ≠ u_username (userProfile st) →
  list_find (λ c, c_id c = chatId) (chats st) = Some (i, C) →
  let st' := handleUpdateGroup st chatId (nameAndBio name bio) now in
  let edited :=
    (λ c, if decide (c_id c = chatId) then applyUpdates (nameAndBio name bio) c
          else c) <$> chats st in
  (name ≠ "" ∨ bio ≠ "" →
     (∃ c, chats st' = c :: delete i edited
           ∧ c_id c = chatId ∧ c_name c = name ∧ c_bio c = Some bio
           ∧ c_lastMessage c = groupInfoUpdated
           ∧ c_unreadCount c
             = if bool_decide (activeChatId st = Some chatId)
               then c_unreadCount C else c_unreadCount C + 1)
     ∧ ∃ notice, get_or_nil (messages st') chatId
                 = get_or_nil (messages st) chatId ++ [notice]
                 ∧ m_text notice = groupInfoUpdated ∧ m_status notice = read
                 ∧ m_senderId notice = None)
  ∧ (name = "" → bio = "" →
       chats st' = edited ∧ messages st' = messages st
       ∧ ∃ c, edited !! i = Some c ∧ c_id c = chatId ∧ c_name c = "").
Proof.
  intros Hother Hfind st' edited.
  destruct (list_find_id_eq _ _ _ _ Hfind) as [HidC Hi].
  assert (Hedited : list_find (λ c, c_id c = chatId) edited
                    = Some (i, applyUpdates (nameAndBio name bio) C)).
  { unfold edited. rewrite update_find by (intros c; apply update_keeps_id).
    rewrite Hfind. simpl. by rewrite decide_True. }
  split.
  - intros Hsome. subst st'. unfold handleUpdateGroup.
    assert (Hnotice : truthy_str (up_name (nameAndBio name bio))
                      || truthy_str (up_bio (nameAndBio name bio)) = true).
    { simpl. destruct (decide (name = "")), (decide (bio = "")); try done.
      by destruct Hsome. }
    rewrite Hnotice.
    set (st1 := setChats _ st).
    set (msg := plainMessage (toString now) chatId groupInfoUpdated them None now read).
    assert (Htarget : targetChatId st1 msg = chatId).
    { by apply targetChatId_other. }
    split.
    + eexists. rewrite (incoming_chats_existing st1 msg i
                          (applyUpdates (nameAndBio name bio) C));
        [|by rewrite Htarget].
      rewrite Htarget. split; [reflexivity|]. simpl. done.
    + exists msg. rewrite incoming_messages, Htarget, get_or_nil_insert. done.
  - intros -> ->. subst st'. unfold handleUpdateGroup. simpl.
    split_and!; try done.
    exists (applyUpdates (nameAndBio "" "") C). split; [|done].
    by destruct (list_find_id_eq _ _ _ _ Hedited).
Qed.

End UpdateGroup.

Lemma update_group_notice_witness :
  let g := withUnread 0 (newContact (Ref.profile "team") 3) in
  let st := setChats (λ _, [g]) (Ref.session "alice" true) in
  ∃ c, chats (handleUpdateGroup st "team" (nameAndBio "Crew" "") 5) = [c]
       ∧ c_name c = "Crew" ∧ c_unreadCount c = 1.
Proof.
  intros g st.
  destruct (@update_group_notice RefTexts.texts st "team" "Crew" "" 5
              0%nat g) as [Hsome _].
  - discriminate.
  - reflexivity.
  - destruct Hsome as [(c & Hchats & _ & Hname & _ & _ & Hunread) _].
    + left. discriminate.
    + exists c. split; [exact Hchats|]. split; [exact Hname | exact Hunread].
Defined.

